(** * Scheduling core of the React fork: expiration times and the host driver

    A shallow embedding of
    - [packages/react-reconciler/src/ReactFiberExpirationTime.js]
      (module [ExpirationTime] below), and
    - [packages/scheduler/src/forks/SchedulerHostConfig.default.js]
      (modules [Fallback], [Dom] and [HostConfig] below).

    JavaScript numbers are IEEE binary64 numbers.  They are embedded as
    the rationals ([Q]) they stand for, and the arithmetic operators of
    the source, [+], [-], [*] and [/], as the operations of binary64
    ([add], [sub], [mul] and [div] of [JSNumber]): the exact result,
    rounded to the nearest number with a significand of 53 bits, ties to
    the even one.  [x | 0] is the ToInt32 conversion (truncate towards
    zero, wrap modulo 2^32 into the signed 32-bit range) and [Math.floor]
    is [Qfloor].  Numbers are compared with [==] ([Qeq]), which is what
    [===] does on two finite numbers.

    The range of the exponent is not bounded in the embedding: overflow
    to the infinities, the subnormal numbers, NaN and the sign of zero
    are not part of it, and neither is division by zero. *)

From Stdlib Require Import ZArith QArith Qround Qminmax Qabs Qpower Lia Lqa Bool List.
Import ListNotations.

Local Open Scope Q_scope.

(** ** JavaScript number conversions *)

Module JSNumber.

(** Truncation towards zero: the integer part that ToInt32 keeps. *)
Definition Qtruncate (x : Q) : Z := Z.quot (Qnum x) (Zpos (Qden x)).

(** Reduction of an integer modulo 2^32 into [-2^31, 2^31). *)
Definition wrapInt32 (n : Z) : Z := ((n + 2 ^ 31) mod 2 ^ 32 - 2 ^ 31)%Z.

Definition ToInt32 (x : Q) : Z := wrapInt32 (Qtruncate x).

(** [x | y] on numbers: both operands go through ToInt32. *)
Definition bitor (x y : Q) : Q := inject_Z (Z.lor (ToInt32 x) (ToInt32 y)).

(** [x <= y], [x < y] and [x === y] as the booleans the source branches on. *)
Definition leb (x y : Q) : bool := Qle_bool x y.
Definition ltb (x y : Q) : bool := negb (Qle_bool y x).
Definition eqb (x y : Q) : bool := Qeq_bool x y.

(** *** Binary64 rounding *)

(** The integer nearest to [t]; of two that are equally near, the even
    one. *)
Definition roundTiesToEven (t : Q) : Z :=
  let f := Qfloor t in
  match Qcompare (t - inject_Z f) (1 # 2) with
  | Lt => f
  | Gt => (f + 1)%Z
  | Eq => if Z.even f then f else (f + 1)%Z
  end.

(** The binade of a positive number: the [e] with [2^e <= a < 2^(e+1)]. *)
Definition binade (a : Q) : Z :=
  if Qle_bool 1 a then Z.log2 (Qfloor a)
  else (- Z.log2_up (Qceiling (/ a)))%Z.

(** The number with a significand of 53 bits nearest to a positive [a]:
    [a] is scaled so that its integer part has 53 bits, rounded to an
    integer, and scaled back. *)
Definition roundPositive (a : Q) : Q :=
  let u := (binade a - 52)%Z in
  inject_Z (roundTiesToEven (a / 2 ^ u)) * 2 ^ u.

(** The binary64 number nearest to [x], as a fraction in lowest terms.
    Rounding to nearest is symmetric, so a negative number is rounded as
    its opposite is. *)
Definition fl (x : Q) : Q :=
  match x ?= 0 with
  | Eq => 0
  | Gt => Qred (roundPositive x)
  | Lt => Qred (- roundPositive (- x))
  end.

(** The unit roundoff of binary64, 2^-53. *)
Definition epsilon : Q := 1 # 9007199254740992.

(** [x + y], [x - y], [x * y] and [x / y] on numbers. *)
Definition add (x y : Q) : Q := fl (x + y).
Definition sub (x y : Q) : Q := fl (x - y).
Definition mul (x y : Q) : Q := fl (x * y).
Definition div (x y : Q) : Q := fl (x / y).

End JSNumber.

(** ** ReactFiberExpirationTime.js *)

Module ExpirationTime.
Import JSNumber.

(** The scheduler priorities imported from [SchedulerWithReactIntegration]. *)
Inductive ReactPriorityLevel : Type :=
| ImmediatePriority
| UserBlockingPriority
| NormalPriority
| IdlePriority.

(** Modelled from the spec: the constant is imported from
    [./maxSigned31BitInt], which is not among the sources.  Its name says
    what it is, the largest signed 31-bit integer 2^30 - 1; the spec has
    it as the maximum value of the scale ([Sync]). *)
Definition MAX_SIGNED_31_BIT_INT : Q := 1073741823.

Definition NoWork : Q := 0.
Definition Never : Q := 1.
Definition Sync : Q := MAX_SIGNED_31_BIT_INT.
Definition Batched : Q := sub Sync 1.

Definition UNIT_SIZE : Q := 10.
Definition MAGIC_NUMBER_OFFSET : Q := sub Batched 1.

(** The quotient is written with the exact division here, because that
    changes no result: truncating the rounded quotient or the exact one
    gives the same integer, for every binary64 [ms] in the range where
    [| 0] does not wrap ([msToExpirationTime_binary64] below). *)
Definition msToExpirationTime (ms : Q) : Q :=
  sub MAGIC_NUMBER_OFFSET (bitor (ms / UNIT_SIZE) 0).

Definition expirationTimeToMs (expirationTime : Q) : Q :=
  mul (sub MAGIC_NUMBER_OFFSET expirationTime) UNIT_SIZE.

Definition ceiling (num precision : Q) : Q :=
  mul (add (bitor (div num precision) 0) 1) precision.

Definition computeExpirationBucket (currentTime expirationInMs bucketSizeMs : Q) : Q :=
  sub MAGIC_NUMBER_OFFSET
    (ceiling (add (sub MAGIC_NUMBER_OFFSET currentTime) (div expirationInMs UNIT_SIZE))
             (div bucketSizeMs UNIT_SIZE)).

Definition LOW_PRIORITY_EXPIRATION : Q := 5000.
Definition LOW_PRIORITY_BATCH_SIZE : Q := 250.

Definition computeAsyncExpiration (currentTime : Q) : Q :=
  computeExpirationBucket currentTime LOW_PRIORITY_EXPIRATION LOW_PRIORITY_BATCH_SIZE.

Definition computeSuspenseExpiration (currentTime timeoutMs : Q) : Q :=
  computeExpirationBucket currentTime timeoutMs LOW_PRIORITY_BATCH_SIZE.

Definition computeAsyncExpirationNoBucket (currentTime : Q) : Q :=
  sub currentTime (div LOW_PRIORITY_EXPIRATION UNIT_SIZE).

(** [__DEV__] is a build-time flag; the definitions that read it take it
    as their first argument. *)
Definition HIGH_PRIORITY_EXPIRATION (__DEV__ : bool) : Q :=
  if __DEV__ then 500 else 150.
Definition HIGH_PRIORITY_BATCH_SIZE : Q := 100.

Definition computeInteractiveExpiration (__DEV__ : bool) (currentTime : Q) : Q :=
  computeExpirationBucket currentTime
    (HIGH_PRIORITY_EXPIRATION __DEV__) HIGH_PRIORITY_BATCH_SIZE.

Definition inferPriorityFromExpirationTime
    (__DEV__ : bool) (currentTime expirationTime : Q) : ReactPriorityLevel :=
  if eqb expirationTime Sync then ImmediatePriority
  else if eqb expirationTime Never then IdlePriority
  else
    let msUntil :=
      sub (expirationTimeToMs expirationTime) (expirationTimeToMs currentTime) in
    if leb msUntil 0 then ImmediatePriority
    else if leb msUntil (add (HIGH_PRIORITY_EXPIRATION __DEV__) HIGH_PRIORITY_BATCH_SIZE)
    then UserBlockingPriority
    else if leb msUntil (add LOW_PRIORITY_EXPIRATION LOW_PRIORITY_BATCH_SIZE)
    then NormalPriority
    else IdlePriority.

End ExpirationTime.

(** ** SchedulerHostConfig.default.js *)

(** What is common to the two branches of the module: how a call of a
    host callback ends, and what a handler of the driver reports. *)
Module Host.

(** A call either returns or throws. *)
Inductive completion (error : Type) : Type :=
| Returned
| Thrown (e : error).
Arguments Returned {error}.
Arguments Thrown {error} e.

(** What one run of a handler did: the callback it invoked, if any, with
    the [didTimeout] flag it passed; how the handler ended; the variables
    of the module and the host's queues afterwards. *)
Record outcome (callback error state : Type) : Type := {
  invoked : option (callback * bool);
  result : completion error;
  after : state
}.
Arguments invoked {callback error state} o.
Arguments result {callback error state} o.
Arguments after {callback error state} o.

(** A handler that invokes nothing and returns. *)
Definition quiet {callback error state : Type} (s : state)
  : outcome callback error state :=
  {| invoked := None; result := Returned; after := s |}.

(** A callback body that returns at once and calls nothing of the driver,
    and one that throws at once. *)
Definition returns {callback error state : Type}
    (cb : callback) (didTimeout : bool) (s : state) : completion error * state :=
  (Returned, s).


End Host.

(** *** The naive branch: no [window] or no [MessageChannel] *)

Module Fallback.
Import Host.

Section Naive.

Variable callback : Type.
Variable error : Type.

(** The zero-delay timers the branch registers with [setTimeout]: the
    function and the extra arguments it is called with.  Timers of equal
    delay fire in the order of their registration, so the pending ones
    are a queue. *)
Inductive timer : Type :=
| FlushCallbackTimer (didTimeout : bool)
| RequestHostCallbackTimer (cb : callback).

Record state : Type := {
  _callback : option callback;
  timers : list timer
}.

Definition set__callback (v : option callback) (s : state) : state :=
  {| _callback := v; timers := timers s |}.

Definition setTimeout (t : timer) (s : state) : state :=
  {| _callback := _callback s; timers := timers s ++ [t] |}.

Definition initial : state := {| _callback := None; timers := [] |}.

(** What running the body of a callback does: it ends by returning or by
    throwing, and it may have called back into the driver meanwhile. *)
Variable call : callback -> bool -> state -> completion error * state.

Definition _flushCallback (didTimeout : bool) (s : state)
  : outcome callback error state :=
  match _callback s with
  | Some cb =>
      (* try *)
      let (c, s) := call cb didTimeout s in
      (* finally *)
      let s := set__callback None s in
      {| invoked := Some (cb, didTimeout); result := c; after := s |}
  | None => quiet s
  end.

(** [ms] is [None] when the function is called without its second
    argument. *)
Definition requestHostCallback (cb : callback) (ms : option Q) (s : state) : state :=
  match _callback s with
  | Some _ =>
      (* Protect against re-entrancy. *)
      setTimeout (RequestHostCallbackTimer cb) s
  | None =>
      let s := set__callback (Some cb) s in
      setTimeout (FlushCallbackTimer false) s
  end.

Definition cancelHostCallback (s : state) : state := set__callback None s.

Definition shouldYieldToHost (s : state) : bool := false.

Definition forceFrameRate (fps : Q) (s : state) : state := s.

(** The host fires the oldest pending timer; [None] when none is pending. *)
Definition fireTimer (s : state) : option (outcome callback error state) :=
  match timers s with
  | [] => None
  | t :: rest =>
      let s := {| _callback := _callback s; timers := rest |} in
      match t with
      | FlushCallbackTimer didTimeout => Some (_flushCallback didTimeout s)
      | RequestHostCallbackTimer cb => Some (quiet (requestHostCallback cb None s))
      end
  end.

(** The host fires up to [n] timers in a row; the calls of callbacks that
    took place, oldest first, and the state reached. *)
Fixpoint fireTimers (n : nat) (s : state) : list (callback * bool) * state :=
  match n with
  | O => ([], s)
  | S n =>
      match fireTimer s with
      | None => ([], s)
      | Some o =>
          let (calls, s') := fireTimers n (after o) in
          (match invoked o with Some c => c :: calls | None => calls end, s')
      end
  end.

(** A timer that holds a registration that was put off. *)
Definition isRequest (t : timer) : Prop :=
  match t with
  | RequestHostCallbackTimer _ => True
  | FlushCallbackTimer _ => False
  end.

End Naive.

Arguments FlushCallbackTimer {callback} didTimeout.
Arguments RequestHostCallbackTimer {callback} cb.
Arguments _callback {callback} s.
Arguments timers {callback} s.
Arguments set__callback {callback} v s.
Arguments setTimeout {callback} t s.
Arguments initial {callback}.
Arguments _flushCallback {callback error} call didTimeout s.
Arguments requestHostCallback {callback} cb ms s.
Arguments cancelHostCallback {callback} s.
Arguments shouldYieldToHost {callback} s.
Arguments forceFrameRate {callback} fps s.
Arguments fireTimer {callback error} call s.
Arguments fireTimers {callback error} call n s.
Arguments isRequest {callback} t.

End Fallback.

(** *** The frame-negotiating branch: [window] and [MessageChannel] exist *)

Module Dom.
Import Host JSNumber.

Section Frames.

Variable callback : Type.
Variable error : Type.

(** Handles as [requestAnimationFrame] and [setTimeout] return them. *)
Definition handle : Type := nat.

(** The host's side: the animation-frame requests and the timers that are
    registered and have neither fired nor been cancelled, and the number
    of messages posted to [channel.port2] that [channel.port1] has not
    received yet. *)
Record host : Type := {
  nextHandle : handle;
  animationFrames : list handle;
  timeouts : list handle;
  messages : nat
}.

(** The variables of the module. [rAFID] and [rAFTimeoutID] are [None]
    while they are [undefined]; [scheduledHostCallback] is [None] while
    it is [null]. *)
Record state : Type := {
  rAFID : option handle;
  rAFTimeoutID : option handle;
  scheduledHostCallback : option callback;
  isMessageEventScheduled : bool;
  timeoutTime : Q;
  isAnimationFrameScheduled : bool;
  isFlushingHostCallback : bool;
  frameDeadline : Q;
  previousFrameTime : Q;
  activeFrameTime : Q;
  fpsLocked : bool;
  browser : host
}.

Definition ANIMATION_FRAME_TIMEOUT : Q := 100.

Definition initial : state := {|
  rAFID := None;
  rAFTimeoutID := None;
  scheduledHostCallback := None;
  isMessageEventScheduled := false;
  timeoutTime := -1;
  isAnimationFrameScheduled := false;
  isFlushingHostCallback := false;
  frameDeadline := 0;
  previousFrameTime := 33;
  activeFrameTime := 33;
  fpsLocked := false;
  browser := {| nextHandle := O; animationFrames := []; timeouts := []; messages := O |}
|}.

(** Assignments to the variables. *)
Definition set_rAFID (v : option handle) (s : state) : state :=
  {| rAFID := v; rAFTimeoutID := rAFTimeoutID s;
     scheduledHostCallback := scheduledHostCallback s;
     isMessageEventScheduled := isMessageEventScheduled s;
     timeoutTime := timeoutTime s;
     isAnimationFrameScheduled := isAnimationFrameScheduled s;
     isFlushingHostCallback := isFlushingHostCallback s;
     frameDeadline := frameDeadline s;
     previousFrameTime := previousFrameTime s;
     activeFrameTime := activeFrameTime s;
     fpsLocked := fpsLocked s; browser := browser s |}.

Definition set_rAFTimeoutID (v : option handle) (s : state) : state :=
  {| rAFID := rAFID s; rAFTimeoutID := v;
     scheduledHostCallback := scheduledHostCallback s;
     isMessageEventScheduled := isMessageEventScheduled s;
     timeoutTime := timeoutTime s;
     isAnimationFrameScheduled := isAnimationFrameScheduled s;
     isFlushingHostCallback := isFlushingHostCallback s;
     frameDeadline := frameDeadline s;
     previousFrameTime := previousFrameTime s;
     activeFrameTime := activeFrameTime s;
     fpsLocked := fpsLocked s; browser := browser s |}.

Definition set_scheduledHostCallback (v : option callback) (s : state) : state :=
  {| rAFID := rAFID s; rAFTimeoutID := rAFTimeoutID s;
     scheduledHostCallback := v;
     isMessageEventScheduled := isMessageEventScheduled s;
     timeoutTime := timeoutTime s;
     isAnimationFrameScheduled := isAnimationFrameScheduled s;
     isFlushingHostCallback := isFlushingHostCallback s;
     frameDeadline := frameDeadline s;
     previousFrameTime := previousFrameTime s;
     activeFrameTime := activeFrameTime s;
     fpsLocked := fpsLocked s; browser := browser s |}.

Definition set_isMessageEventScheduled (v : bool) (s : state) : state :=
  {| rAFID := rAFID s; rAFTimeoutID := rAFTimeoutID s;
     scheduledHostCallback := scheduledHostCallback s;
     isMessageEventScheduled := v;
     timeoutTime := timeoutTime s;
     isAnimationFrameScheduled := isAnimationFrameScheduled s;
     isFlushingHostCallback := isFlushingHostCallback s;
     frameDeadline := frameDeadline s;
     previousFrameTime := previousFrameTime s;
     activeFrameTime := activeFrameTime s;
     fpsLocked := fpsLocked s; browser := browser s |}.

Definition set_timeoutTime (v : Q) (s : state) : state :=
  {| rAFID := rAFID s; rAFTimeoutID := rAFTimeoutID s;
     scheduledHostCallback := scheduledHostCallback s;
     isMessageEventScheduled := isMessageEventScheduled s;
     timeoutTime := v;
     isAnimationFrameScheduled := isAnimationFrameScheduled s;
     isFlushingHostCallback := isFlushingHostCallback s;
     frameDeadline := frameDeadline s;
     previousFrameTime := previousFrameTime s;
     activeFrameTime := activeFrameTime s;
     fpsLocked := fpsLocked s; browser := browser s |}.

Definition set_isAnimationFrameScheduled (v : bool) (s : state) : state :=
  {| rAFID := rAFID s; rAFTimeoutID := rAFTimeoutID s;
     scheduledHostCallback := scheduledHostCallback s;
     isMessageEventScheduled := isMessageEventScheduled s;
     timeoutTime := timeoutTime s;
     isAnimationFrameScheduled := v;
     isFlushingHostCallback := isFlushingHostCallback s;
     frameDeadline := frameDeadline s;
     previousFrameTime := previousFrameTime s;
     activeFrameTime := activeFrameTime s;
     fpsLocked := fpsLocked s; browser := browser s |}.

Definition set_isFlushingHostCallback (v : bool) (s : state) : state :=
  {| rAFID := rAFID s; rAFTimeoutID := rAFTimeoutID s;
     scheduledHostCallback := scheduledHostCallback s;
     isMessageEventScheduled := isMessageEventScheduled s;
     timeoutTime := timeoutTime s;
     isAnimationFrameScheduled := isAnimationFrameScheduled s;
     isFlushingHostCallback := v;
     frameDeadline := frameDeadline s;
     previousFrameTime := previousFrameTime s;
     activeFrameTime := activeFrameTime s;
     fpsLocked := fpsLocked s; browser := browser s |}.

Definition set_frameDeadline (v : Q) (s : state) : state :=
  {| rAFID := rAFID s; rAFTimeoutID := rAFTimeoutID s;
     scheduledHostCallback := scheduledHostCallback s;
     isMessageEventScheduled := isMessageEventScheduled s;
     timeoutTime := timeoutTime s;
     isAnimationFrameScheduled := isAnimationFrameScheduled s;
     isFlushingHostCallback := isFlushingHostCallback s;
     frameDeadline := v;
     previousFrameTime := previousFrameTime s;
     activeFrameTime := activeFrameTime s;
     fpsLocked := fpsLocked s; browser := browser s |}.

Definition set_previousFrameTime (v : Q) (s : state) : state :=
  {| rAFID := rAFID s; rAFTimeoutID := rAFTimeoutID s;
     scheduledHostCallback := scheduledHostCallback s;
     isMessageEventScheduled := isMessageEventScheduled s;
     timeoutTime := timeoutTime s;
     isAnimationFrameScheduled := isAnimationFrameScheduled s;
     isFlushingHostCallback := isFlushingHostCallback s;
     frameDeadline := frameDeadline s;
     previousFrameTime := v;
     activeFrameTime := activeFrameTime s;
     fpsLocked := fpsLocked s; browser := browser s |}.

Definition set_activeFrameTime (v : Q) (s : state) : state :=
  {| rAFID := rAFID s; rAFTimeoutID := rAFTimeoutID s;
     scheduledHostCallback := scheduledHostCallback s;
     isMessageEventScheduled := isMessageEventScheduled s;
     timeoutTime := timeoutTime s;
     isAnimationFrameScheduled := isAnimationFrameScheduled s;
     isFlushingHostCallback := isFlushingHostCallback s;
     frameDeadline := frameDeadline s;
     previousFrameTime := previousFrameTime s;
     activeFrameTime := v;
     fpsLocked := fpsLocked s; browser := browser s |}.

Definition set_fpsLocked (v : bool) (s : state) : state :=
  {| rAFID := rAFID s; rAFTimeoutID := rAFTimeoutID s;
     scheduledHostCallback := scheduledHostCallback s;
     isMessageEventScheduled := isMessageEventScheduled s;
     timeoutTime := timeoutTime s;
     isAnimationFrameScheduled := isAnimationFrameScheduled s;
     isFlushingHostCallback := isFlushingHostCallback s;
     frameDeadline := frameDeadline s;
     previousFrameTime := previousFrameTime s;
     activeFrameTime := activeFrameTime s;
     fpsLocked := v; browser := browser s |}.

Definition set_browser (v : host) (s : state) : state :=
  {| rAFID := rAFID s; rAFTimeoutID := rAFTimeoutID s;
     scheduledHostCallback := scheduledHostCallback s;
     isMessageEventScheduled := isMessageEventScheduled s;
     timeoutTime := timeoutTime s;
     isAnimationFrameScheduled := isAnimationFrameScheduled s;
     isFlushingHostCallback := isFlushingHostCallback s;
     frameDeadline := frameDeadline s;
     previousFrameTime := previousFrameTime s;
     activeFrameTime := activeFrameTime s;
     fpsLocked := fpsLocked s; browser := v |}.

(** **** The host's primitives *)

Definition removeHandle (id : option handle) (l : list handle) : list handle :=
  match id with
  | Some h => List.remove Nat.eq_dec h l
  | None => l
  end.

(** [localRequestAnimationFrame(f)]: a new request is pending; its handle
    is returned. *)
Definition localRequestAnimationFrame (s : state) : handle * state :=
  let b := browser s in
  (nextHandle b,
   set_browser {| nextHandle := S (nextHandle b);
                  animationFrames := animationFrames b ++ [nextHandle b];
                  timeouts := timeouts b;
                  messages := messages b |} s).

Definition localCancelAnimationFrame (id : option handle) (s : state) : state :=
  let b := browser s in
  set_browser {| nextHandle := nextHandle b;
                 animationFrames := removeHandle id (animationFrames b);
                 timeouts := timeouts b;
                 messages := messages b |} s.

(** [localSetTimeout(f, ANIMATION_FRAME_TIMEOUT)]. *)
Definition localSetTimeout (s : state) : handle * state :=
  let b := browser s in
  (nextHandle b,
   set_browser {| nextHandle := S (nextHandle b);
                  animationFrames := animationFrames b;
                  timeouts := timeouts b ++ [nextHandle b];
                  messages := messages b |} s).

Definition localClearTimeout (id : option handle) (s : state) : state :=
  let b := browser s in
  set_browser {| nextHandle := nextHandle b;
                 animationFrames := animationFrames b;
                 timeouts := removeHandle id (timeouts b);
                 messages := messages b |} s.

(** [port.postMessage(undefined)]. *)
Definition postMessage (s : state) : state :=
  let b := browser s in
  set_browser {| nextHandle := nextHandle b;
                 animationFrames := animationFrames b;
                 timeouts := timeouts b;
                 messages := S (messages b) |} s.

(** **** The functions of the branch *)

(** The only callback the module ever passes is [animationTick], so the
    argument is left out; the two closures registered here are
    [animationFrame] and [animationFrameTimeout] below. *)
Definition requestAnimationFrameWithTimeout (s : state) : state :=
  let (id, s) := localRequestAnimationFrame s in
  let s := set_rAFID (Some id) s in
  let (id, s) := localSetTimeout s in
  set_rAFTimeoutID (Some id) s.

Definition shouldYieldToHost (s : state) (getCurrentTime : Q) : bool :=
  leb (frameDeadline s) getCurrentTime.

(** [console.error] touches none of the variables and is left out. *)
Definition forceFrameRate (fps : Q) (s : state) : state :=
  if ltb fps 0 || ltb 125 fps then s
  else if ltb 0 fps then
    let s := set_activeFrameTime (inject_Z (Qfloor (div 1000 fps))) s in
    set_fpsLocked true s
  else
    let s := set_activeFrameTime 33 s in
    set_fpsLocked false s.

(** What running the body of a callback does: it ends by returning or by
    throwing, and it may have called back into the driver meanwhile. *)
Variable call : callback -> bool -> state -> completion error * state.

(** [channel.port1.onmessage]; [getCurrentTime] is the reading of the
    clock the handler takes. *)
Definition onmessage (getCurrentTime : Q) (s : state)
  : outcome callback error state :=
  let s := set_isMessageEventScheduled false s in
  let prevScheduledCallback := scheduledHostCallback s in
  let prevTimeoutTime := timeoutTime s in
  let s := set_scheduledHostCallback None s in
  let s := set_timeoutTime (-1) s in
  let currentTime := getCurrentTime in
  let flush (didTimeout : bool) (s : state) :=
    match prevScheduledCallback with
    | Some cb =>
        let s := set_isFlushingHostCallback true s in
        (* try *)
        let (c, s) := call cb didTimeout s in
        (* finally *)
        let s := set_isFlushingHostCallback false s in
        {| invoked := Some (cb, didTimeout); result := c; after := s |}
    | None => quiet s
    end in
  if leb (sub (frameDeadline s) currentTime) 0 then
    if negb (eqb prevTimeoutTime (-1)) && leb prevTimeoutTime currentTime then
      flush true s
    else
      let s :=
        if negb (isAnimationFrameScheduled s) then
          let s := set_isAnimationFrameScheduled true s in
          requestAnimationFrameWithTimeout s
        else s in
      let s := set_scheduledHostCallback prevScheduledCallback s in
      let s := set_timeoutTime prevTimeoutTime s in
      quiet s
  else flush false s.

(** The state in which [onmessage] calls the callback: the callback and
    its timeout are taken out of the variables, and the flushing flag is
    up. *)
Definition dequeued (s : state) : state :=
  set_timeoutTime (-1)
    (set_scheduledHostCallback None (set_isMessageEventScheduled false s)).

Definition atFlush (s : state) : state :=
  set_isFlushingHostCallback true (dequeued s).

Definition animationTick (rafTime : Q) (s : state) : state :=
  match scheduledHostCallback s with
  | None => set_isAnimationFrameScheduled false s
  | Some _ =>
      let s := requestAnimationFrameWithTimeout s in
      let nextFrameTime := add (sub rafTime (frameDeadline s)) (activeFrameTime s) in
      let s :=
        if ltb nextFrameTime (activeFrameTime s)
           && ltb (previousFrameTime s) (activeFrameTime s)
           && negb (fpsLocked s)
        then
          let nextFrameTime := if ltb nextFrameTime 8 then 8 else nextFrameTime in
          set_activeFrameTime
            (if ltb nextFrameTime (previousFrameTime s)
             then previousFrameTime s else nextFrameTime) s
        else set_previousFrameTime nextFrameTime s in
      let s := set_frameDeadline (add rafTime (activeFrameTime s)) s in
      if negb (isMessageEventScheduled s) then
        let s := set_isMessageEventScheduled true s in
        postMessage s
      else s
  end.

Definition requestHostCallback (cb : callback) (absoluteTimeout : Q) (s : state) : state :=
  let s := set_scheduledHostCallback (Some cb) s in
  let s := set_timeoutTime absoluteTimeout s in
  if isFlushingHostCallback s || ltb absoluteTimeout 0 then
    postMessage s
  else if negb (isAnimationFrameScheduled s) then
    let s := set_isAnimationFrameScheduled true s in
    requestAnimationFrameWithTimeout s
  else s.

Definition cancelHostCallback (s : state) : state :=
  let s := set_scheduledHostCallback None s in
  let s := set_isMessageEventScheduled false s in
  set_timeoutTime (-1) s.

(** **** The host calling back *)

(** The closure given to [localRequestAnimationFrame], fired with the
    frame's [timestamp]. *)
Definition animationFrame (timestamp : Q) (s : state) : state :=
  let s := localClearTimeout (rAFTimeoutID s) s in
  animationTick timestamp s.

(** The closure given to [localSetTimeout], fired when the frame did not
    come within [ANIMATION_FRAME_TIMEOUT]. *)
Definition animationFrameTimeout (getCurrentTime : Q) (s : state) : state :=
  let s := localCancelAnimationFrame (rAFID s) s in
  animationTick getCurrentTime s.

(** One turn of the host's event loop. *)
Inductive tick : Type :=
| FrameTick (id : handle) (timestamp : Q)
| TimeoutTick (id : handle) (now : Q)
| MessageTick (now : Q).

Definition isPending (id : handle) (l : list handle) : bool :=
  if in_dec Nat.eq_dec id l then true else false.

(** The host runs the task of a tick when that task is pending, and takes
    it off its queue first; [None] when it is not pending. *)
Definition fire (t : tick) (s : state) : option (outcome callback error state) :=
  let b := browser s in
  match t with
  | FrameTick id timestamp =>
      if isPending id (animationFrames b) then
        let s := localCancelAnimationFrame (Some id) s in
        Some (quiet (animationFrame timestamp s))
      else None
  | TimeoutTick id now =>
      if isPending id (timeouts b) then
        let s := localClearTimeout (Some id) s in
        Some (quiet (animationFrameTimeout now s))
      else None
  | MessageTick now =>
      match messages b with
      | O => None
      | S n =>
          let s := set_browser {| nextHandle := nextHandle b;
                                  animationFrames := animationFrames b;
                                  timeouts := timeouts b;
                                  messages := n |} s in
          Some (onmessage now s)
      end
  end.

(** The host runs the ticks of a list in turn, skipping those whose task
    is not pending; the calls of callbacks that took place, oldest first,
    and the state reached. *)
Fixpoint run (ts : list tick) (s : state) : list (callback * bool) * state :=
  match ts with
  | [] => ([], s)
  | t :: ts =>
      match fire t s with
      | None => run ts s
      | Some o =>
          let (calls, s') := run ts (after o) in
          (match invoked o with Some c => c :: calls | None => calls end, s')
      end
  end.

(** Callbacks whose bodies leave no callback pending when none was
    pending as they were called. *)
Definition registersNothing : Prop :=
  forall (cb : callback) (b : bool) (s : state),
    scheduledHostCallback s = None ->
    scheduledHostCallback (snd (call cb b s)) = None.

End Frames.

Arguments rAFID {callback} s.
Arguments rAFTimeoutID {callback} s.
Arguments scheduledHostCallback {callback} s.
Arguments isMessageEventScheduled {callback} s.
Arguments timeoutTime {callback} s.
Arguments isAnimationFrameScheduled {callback} s.
Arguments isFlushingHostCallback {callback} s.
Arguments frameDeadline {callback} s.
Arguments previousFrameTime {callback} s.
Arguments activeFrameTime {callback} s.
Arguments fpsLocked {callback} s.
Arguments browser {callback} s.
Arguments initial {callback}.
Arguments set_rAFID {callback} v s.
Arguments set_rAFTimeoutID {callback} v s.
Arguments set_scheduledHostCallback {callback} v s.
Arguments set_isMessageEventScheduled {callback} v s.
Arguments set_timeoutTime {callback} v s.
Arguments set_isAnimationFrameScheduled {callback} v s.
Arguments set_isFlushingHostCallback {callback} v s.
Arguments set_frameDeadline {callback} v s.
Arguments set_previousFrameTime {callback} v s.
Arguments set_activeFrameTime {callback} v s.
Arguments set_fpsLocked {callback} v s.
Arguments set_browser {callback} v s.
Arguments localRequestAnimationFrame {callback} s.
Arguments localCancelAnimationFrame {callback} id s.
Arguments localSetTimeout {callback} s.
Arguments localClearTimeout {callback} id s.
Arguments postMessage {callback} s.
Arguments requestAnimationFrameWithTimeout {callback} s.
Arguments shouldYieldToHost {callback} s getCurrentTime.
Arguments forceFrameRate {callback} fps s.
Arguments onmessage {callback error} call getCurrentTime s.
Arguments dequeued {callback} s.
Arguments atFlush {callback} s.
Arguments animationTick {callback} rafTime s.
Arguments requestHostCallback {callback} cb absoluteTimeout s.
Arguments cancelHostCallback {callback} s.
Arguments animationFrame {callback} timestamp s.
Arguments animationFrameTimeout {callback} getCurrentTime s.
Arguments fire {callback error} call t s.
Arguments run {callback error} call ts s.
Arguments registersNothing {callback error} call.

End Dom.

(** *** The module as it is loaded *)

Module HostConfig.

(** What the module probes when it is evaluated. *)
Record environment : Type := {
  has_window : bool;
  has_MessageChannel : bool
}.

(** [typeof window === 'undefined' || typeof MessageChannel !== 'function'] *)
Definition naive (env : environment) : bool :=
  negb (has_window env) || negb (has_MessageChannel env).

(** The variables of the branch that was taken. *)
Inductive driver (callback : Type) : Type :=
| NaiveDriver (s : Fallback.state callback)
| FrameDriver (s : Dom.state callback).
Arguments NaiveDriver {callback} s.
Arguments FrameDriver {callback} s.

Definition load {callback : Type} (env : environment) : driver callback :=
  if naive env then NaiveDriver Fallback.initial else FrameDriver Dom.initial.

(** The exported bindings, each the function its branch assigned. *)
Definition shouldYieldToHost {callback : Type}
    (d : driver callback) (getCurrentTime : Q) : bool :=
  match d with
  | NaiveDriver s => Fallback.shouldYieldToHost s
  | FrameDriver s => Dom.shouldYieldToHost s getCurrentTime
  end.

Definition requestHostCallback {callback : Type}
    (cb : callback) (absoluteTimeout : Q) (d : driver callback) : driver callback :=
  match d with
  | NaiveDriver s => NaiveDriver (Fallback.requestHostCallback cb (Some absoluteTimeout) s)
  | FrameDriver s => FrameDriver (Dom.requestHostCallback cb absoluteTimeout s)
  end.

Definition cancelHostCallback {callback : Type} (d : driver callback) : driver callback :=
  match d with
  | NaiveDriver s => NaiveDriver (Fallback.cancelHostCallback s)
  | FrameDriver s => FrameDriver (Dom.cancelHostCallback s)
  end.

Definition forceFrameRate {callback : Type} (fps : Q) (d : driver callback) : driver callback :=
  match d with
  | NaiveDriver s => NaiveDriver (Fallback.forceFrameRate fps s)
  | FrameDriver s => FrameDriver (Dom.forceFrameRate fps s)
  end.

(** The callback the driver holds for a later tick, if any. *)
Definition pending {callback : Type} (d : driver callback) : option callback :=
  match d with
  | NaiveDriver s => Fallback._callback s
  | FrameDriver s => Dom.scheduledHostCallback s
  end.

End HostConfig.

(** ** The program around the driver

    The driver is used through its exported functions, by the rest of
    the program between two turns of the host's event loop and by the
    bodies of the callbacks while they run.  The definitions below put
    the two branches into such a program: a run is a list of events,
    each a call of an exported function or a turn of the host. *)

Module FallbackLoop.
Import Host Fallback.

Section Naive.

Variable callback : Type.
Variable error : Type.

(** A call of one of the exported functions that change the state. *)
Inductive request : Type :=
| RequestHostCallback (cb : callback) (ms : option Q)
| CancelHostCallback
| ForceFrameRate (fps : Q).

Definition perform (r : request) (s : state callback) : state callback :=
  match r with
  | RequestHostCallback cb ms => requestHostCallback cb ms s
  | CancelHostCallback => cancelHostCallback s
  | ForceFrameRate fps => forceFrameRate fps s
  end.

Definition performAll (rs : list request) (s : state callback) : state callback :=
  fold_left (fun s r => perform r s) rs s.

(** A callback body that makes the calls of a list, whatever the state,
    and then returns or throws. *)
Definition scripted (body : callback -> bool -> list request * completion error)
    (cb : callback) (didTimeout : bool) (s : state callback)
  : completion error * state callback :=
  (snd (body cb didTimeout), performAll (fst (body cb didTimeout)) s).

Variable call : callback -> bool -> state callback -> completion error * state callback.

Inductive event : Type :=
| CallOf (r : request)
| Timer.

Definition step (e : event) (s : state callback) : state callback :=
  match e with
  | CallOf r => perform r s
  | Timer =>
      match fireTimer call s with
      | Some o => after o
      | None => s
      end
  end.

Definition drive (es : list event) (s : state callback) : state callback :=
  fold_left (fun s e => step e s) es s.

(** A stored callback has a flush timer pending. *)
Definition flushPending (s : state callback) : Prop :=
  _callback s <> None -> exists b : bool, In (FlushCallbackTimer b) (timers s).

(** A timer that flushes. *)
Definition isFlush (t : timer callback) : Prop :=
  match t with
  | FlushCallbackTimer _ => True
  | RequestHostCallbackTimer _ => False
  end.

End Naive.

Arguments RequestHostCallback {callback} cb ms.
Arguments CancelHostCallback {callback}.
Arguments ForceFrameRate {callback} fps.
Arguments perform {callback} r s.
Arguments performAll {callback} rs s.
Arguments scripted {callback error} body cb didTimeout s.
Arguments CallOf {callback} r.
Arguments Timer {callback}.
Arguments step {callback error} call e s.
Arguments drive {callback error} call es s.
Arguments flushPending {callback} s.
Arguments isFlush {callback} t.

End FallbackLoop.

Module DomLoop.
Import Host Dom.

Section Frames.

Variable callback : Type.
Variable error : Type.

(** A call of one of the exported functions that change the state. *)
Inductive request : Type :=
| RequestHostCallback (cb : callback) (absoluteTimeout : Q)
| CancelHostCallback
| ForceFrameRate (fps : Q).

Definition perform (r : request) (s : state callback) : state callback :=
  match r with
  | RequestHostCallback cb absoluteTimeout => requestHostCallback cb absoluteTimeout s
  | CancelHostCallback => cancelHostCallback s
  | ForceFrameRate fps => forceFrameRate fps s
  end.

Definition performAll (rs : list request) (s : state callback) : state callback :=
  fold_left (fun s r => perform r s) rs s.

(** A callback body that makes the calls of a list, whatever the state,
    and then returns or throws. *)
Definition scripted (body : callback -> bool -> list request * completion error)
    (cb : callback) (didTimeout : bool) (s : state callback)
  : completion error * state callback :=
  (snd (body cb didTimeout), performAll (fst (body cb didTimeout)) s).

Variable call : callback -> bool -> state callback -> completion error * state callback.

Inductive event : Type :=
| CallOf (r : request)
| HostTick (t : tick).

Definition step (e : event) (s : state callback) : state callback :=
  match e with
  | CallOf r => perform r s
  | HostTick t =>
      match fire call t s with
      | Some o => after o
      | None => s
      end
  end.

Definition drive (es : list event) (s : state callback) : state callback :=
  fold_left (fun s e => step e s) es s.

(** The frames the host is fed in a row. *)
Definition animationTicks (rafTimes : list Q) (s : state callback) : state callback :=
  fold_left (fun s rafTime => animationTick rafTime s) rafTimes s.

(** While an animation frame is scheduled, exactly one frame request and
    one timer are registered with the host, and they are the ones whose
    handles the module remembers; otherwise none is registered. *)
Definition framePaired (s : state callback) : Prop :=
  let b := browser s in
  if isAnimationFrameScheduled s then
    exists h h' : handle,
      rAFID s = Some h /\ rAFTimeoutID s = Some h' /\
      animationFrames b = [h] /\ timeouts b = [h'] /\
      (h < nextHandle b)%nat /\ (h' < nextHandle b)%nat
  else animationFrames b = [] /\ timeouts b = [].

(** While [isMessageEventScheduled] is set, a message is on its way. *)
Definition messageInFlight (s : state callback) : Prop :=
  isMessageEventScheduled s = true -> (0 < messages (browser s))%nat.

(** A pending callback has a message on its way or a frame scheduled. *)
Definition notStranded (s : state callback) : Prop :=
  scheduledHostCallback s <> None ->
  (0 < messages (browser s))%nat \/ isAnimationFrameScheduled s = true.

Definition wellFormed (s : state callback) : Prop :=
  framePaired s /\ messageInFlight s /\ notStranded s /\ 8 <= activeFrameTime s.

(** The part of [wellFormed] that is about the host. *)
Definition hostFormed (s : state callback) : Prop :=
  framePaired s /\ messageInFlight s /\ notStranded s.

(** The host has nothing left to run: no frame request, no timer and no
    message is pending. *)
Definition hostIdle (s : state callback) : Prop :=
  animationFrames (browser s) = [] /\ timeouts (browser s) = [] /\
  messages (browser s) = O.

(** Callback bodies that keep the state well formed. *)
Definition keepsWellFormed : Prop :=
  forall (cb : callback) (b : bool) (s : state callback),
    wellFormed s -> wellFormed (snd (call cb b s)).

(** The reading of the clock a turn of the host is taken at. *)
Definition tickTime (t : tick) : Q :=
  match t with
  | FrameTick _ timestamp => timestamp
  | TimeoutTick _ now => now
  | MessageTick now => now
  end.

End Frames.

Arguments RequestHostCallback {callback} cb absoluteTimeout.
Arguments CancelHostCallback {callback}.
Arguments ForceFrameRate {callback} fps.
Arguments perform {callback} r s.
Arguments performAll {callback} rs s.
Arguments scripted {callback error} body cb didTimeout s.
Arguments CallOf {callback} r.
Arguments HostTick {callback} t.
Arguments step {callback error} call e s.
Arguments drive {callback error} call es s.
Arguments animationTicks {callback} rafTimes s.
Arguments framePaired {callback} s.
Arguments messageInFlight {callback} s.
Arguments notStranded {callback} s.
Arguments wellFormed {callback} s.
Arguments hostFormed {callback} s.
Arguments hostIdle {callback} s.
Arguments keepsWellFormed {callback error} call.

End DomLoop.

(** ** The formulas of the specification

    The specification gives the bucketing by closed formulas with a
    floor; they are written down here as it words them, to be compared
    with the functions of the source. *)

Module Formula.
Import ExpirationTime.

(** "ceilingBucket(value, precision) = (floor(value/precision) + 1) * precision" *)
Definition ceilingBucket (value precision : Q) : Q :=
  (inject_Z (Qfloor (value / precision)) + 1) * precision.

(** "computeExpirationBucket(now, timeoutMs, bucketMs) =
     MAGIC_OFFSET - ceilingBucket(MAGIC_OFFSET - now + timeoutMs/10, bucketMs/10)" *)
Definition expirationBucket (now timeoutMs bucketMs : Q) : Q :=
  MAGIC_NUMBER_OFFSET -
  ceilingBucket (MAGIC_NUMBER_OFFSET - now + timeoutMs / 10) (bucketMs / 10).

(** Where the window of current times starts, ten units of the scale
    long, on which the interactive bucket is the [Never] sentinel. *)
Definition neverWindowStart (__DEV__ : bool) : Q := if __DEV__ then 51 else 16.

End Formula.

(** ** Facts about the number conversions *)

Module JSNumberFacts.
Import JSNumber.

Lemma wrapInt32_small (n : Z) :
  (- 2 ^ 31 <= n < 2 ^ 31)%Z -> wrapInt32 n = n.
Proof.
  intros Hn. unfold wrapInt32.
  rewrite Z.mod_small by lia. lia.
Qed.

Lemma wrapInt32_range (n : Z) : (- 2 ^ 31 <= wrapInt32 n < 2 ^ 31)%Z.
Proof.
  unfold wrapInt32.
  pose proof (Z.mod_pos_bound (n + 2 ^ 31) (2 ^ 32) ltac:(lia)). lia.
Qed.

Lemma Qtruncate_nonneg (x : Q) : 0 <= x -> Qtruncate x = Qfloor x.
Proof.
  destruct x as [n d]. unfold Qle, Qtruncate, Qfloor. simpl. intros Hn.
  apply Z.quot_div_nonneg; lia.
Qed.

Lemma Qfloor_nonneg (x : Q) : 0 <= x -> (0 <= Qfloor x)%Z.
Proof.
  intros Hx. change 0%Z with (Qfloor 0). now apply Qfloor_resp_le.
Qed.

Lemma Qfloor_lt_bound (x : Q) (m : Z) : x < inject_Z m -> (Qfloor x < m)%Z.
Proof.
  intros Hx. rewrite Zlt_Qlt.
  apply Qle_lt_trans with x; [apply Qfloor_le | exact Hx].
Qed.

(** [x | 0] is the floor of [x] as long as [x] is non-negative and below
    2^31, where ToInt32 neither rounds up nor wraps. *)
Lemma bitor_zero_floor (x : Q) :
  0 <= x -> x < 2147483648 -> bitor x 0 = inject_Z (Qfloor x).
Proof.
  intros H0 H1. unfold bitor, ToInt32.
  change (wrapInt32 (Qtruncate 0)) with 0%Z. rewrite Z.lor_0_r.
  rewrite Qtruncate_nonneg by exact H0.
  rewrite wrapInt32_small; [reflexivity|].
  pose proof (Qfloor_nonneg x H0).
  pose proof (Qfloor_lt_bound x 2147483648 H1). lia.
Qed.

(** The two sides of a floor, as linear facts. *)
Lemma Qfloor_bounds (x : Q) :
  inject_Z (Qfloor x) <= x /\ x < inject_Z (Qfloor x) + 1.
Proof.
  split; [apply Qfloor_le|].
  pose proof (Qlt_floor x) as H. rewrite inject_Z_plus in H. exact H.
Qed.

Lemma leb_true (x y : Q) : x <= y -> leb x y = true.
Proof. intros H. unfold leb. now apply Qle_bool_iff. Qed.

Lemma leb_false (x y : Q) : y < x -> leb x y = false.
Proof.
  intros H. unfold leb. destruct (Qle_bool x y) eqn:E; [|reflexivity].
  apply Qle_bool_iff in E. lra.
Qed.

Lemma eqb_true (x y : Q) : x == y -> eqb x y = true.
Proof. intros H. unfold eqb. now apply Qeq_bool_iff. Qed.

Lemma eqb_false (x y : Q) : ~ x == y -> eqb x y = false.
Proof.
  intros H. unfold eqb. destruct (Qeq_bool x y) eqn:E; [|reflexivity].
  apply Qeq_bool_iff in E. contradiction.
Qed.

Lemma ltb_true (x y : Q) : x < y -> ltb x y = true.
Proof. intros H. unfold ltb. fold (leb y x). now rewrite leb_false. Qed.

Lemma ltb_false (x y : Q) : y <= x -> ltb x y = false.
Proof. intros H. unfold ltb. fold (leb y x). now rewrite leb_true. Qed.

(** The comparisons, reflected. *)
Lemma leb_spec (x y : Q) : reflect (x <= y) (leb x y).
Proof.
  destruct (Qlt_le_dec y x) as [H|H].
  - rewrite leb_false by exact H. constructor. lra.
  - rewrite leb_true by exact H. now constructor.
Qed.

Lemma ltb_spec (x y : Q) : reflect (x < y) (ltb x y).
Proof.
  destruct (Qlt_le_dec x y) as [H|H].
  - rewrite ltb_true by exact H. now constructor.
  - rewrite ltb_false by exact H. constructor. lra.
Qed.

Lemma eqb_spec (x y : Q) : reflect (x == y) (eqb x y).
Proof.
  destruct (Qeq_dec x y) as [H|H].
  - rewrite eqb_true by exact H. now constructor.
  - rewrite eqb_false by exact H. now constructor.
Qed.

(** *** Binary64 rounding *)

Lemma inject_Z_minus (a b : Z) : inject_Z (a - b) == inject_Z a - inject_Z b.
Proof. unfold Z.sub. rewrite inject_Z_plus, inject_Z_opp. reflexivity. Qed.

Lemma roundTiesToEven_near (t : Q) :
  - (1 # 2) <= inject_Z (roundTiesToEven t) - t /\
  inject_Z (roundTiesToEven t) - t <= 1 # 2.
Proof.
  unfold roundTiesToEven.
  pose proof (Qfloor_le t) as L. pose proof (Qlt_floor t) as U.
  rewrite inject_Z_plus in U.
  set (f := Qfloor t) in *.
  destruct (Qcompare (t - inject_Z f) (1 # 2)) eqn:E.
  - apply Qeq_alt in E. destruct (Z.even f); [|rewrite inject_Z_plus];
      change (inject_Z 1) with 1 in *; split; lra.
  - apply Qlt_alt in E. change (inject_Z 1) with 1 in *. split; lra.
  - apply Qgt_alt in E. rewrite inject_Z_plus.
    change (inject_Z 1) with 1 in *. split; lra.
Qed.

Lemma roundTiesToEven_nearest (t : Q) (j : Z) :
  Qabs (inject_Z (roundTiesToEven t) - t) <= Qabs (inject_Z j - t).
Proof.
  destruct (roundTiesToEven_near t) as [L U].
  set (m := roundTiesToEven t) in *.
  destruct (Z.eq_dec j m) as [->|Hne]; [apply Qle_refl|].
  assert (Hj : (j <= m - 1 \/ m + 1 <= j)%Z) by lia.
  destruct Hj as [Hj|Hj]; rewrite Zle_Qle in Hj;
    [rewrite inject_Z_minus in Hj|rewrite inject_Z_plus in Hj];
    change (inject_Z 1) with 1 in *;
    apply Qabs_case; intros; apply Qabs_case; intros; lra.
Qed.

(** Powers of two. *)
Lemma pow2_pos (z : Z) : 0 < 2 ^ z.
Proof. apply Qpower_0_lt. reflexivity. Qed.

Lemma pow2_plus (a b : Z) : 2 ^ (a + b) == 2 ^ a * 2 ^ b.
Proof. apply Qpower_plus. discriminate. Qed.

Lemma pow2_le (a b : Z) : (a <= b)%Z -> 2 ^ a <= 2 ^ b.
Proof. intros H. apply Qpower_le_compat_l; [exact H|]. discriminate. Qed.

Lemma pow2_Z (n : Z) : (0 <= n)%Z -> 2 ^ n == inject_Z (2 ^ n).
Proof. intros H. symmetry. now apply (Zpower_Qpower 2 n). Qed.

Lemma binade_spec (a : Q) :
  0 < a -> 2 ^ binade a <= a /\ a < 2 ^ (binade a + 1).
Proof.
  intros Ha. unfold binade. destruct (Qle_bool 1 a) eqn:E.
  - apply Qle_bool_iff in E.
    assert (Hn : (1 <= Qfloor a)%Z).
    { change 1%Z with (Qfloor 1). now apply Qfloor_resp_le. }
    pose proof (Z.log2_spec (Qfloor a) ltac:(lia)) as [L U].
    pose proof (Z.log2_nonneg (Qfloor a)) as Hl.
    rewrite !pow2_Z by lia. split.
    + apply Qle_trans with (inject_Z (Qfloor a)); [now rewrite <- Zle_Qle|apply Qfloor_le].
    + apply Qlt_le_trans with (inject_Z (Qfloor a + 1)); [apply Qlt_floor|].
      rewrite <- Zle_Qle. replace (Z.succ (Z.log2 (Qfloor a))) with (Z.log2 (Qfloor a) + 1)%Z in U by lia. lia.
  - assert (E1 : a < 1).
    { destruct (Qlt_le_dec a 1) as [H|H]; [exact H|].
      apply Qle_bool_iff in H. congruence. }
    assert (Hb : 1 < / a).
    { apply Qlt_shift_inv_l; [exact Ha|]. lra. }
    set (b := / a) in *. set (c := Qceiling b).
    assert (Hc1 : inject_Z c - 1 < b /\ b <= inject_Z c).
    { split; [|apply Qle_ceiling].
      pose proof (Qceiling_lt b) as H. fold c in H. rewrite inject_Z_minus in H.
      exact H. }
    assert (Hc2 : (1 < c)%Z).
    { rewrite Zlt_Qlt. change (inject_Z 1) with 1. lra. }
    pose proof (Z.log2_up_spec c Hc2) as [L U].
    pose proof (Z.log2_up_pos c Hc2) as Hk.
    set (k := Z.log2_up c) in *.
    assert (Lq : inject_Z (2 ^ Z.pred k) <= inject_Z c - 1).
    { assert (Lz : (2 ^ Z.pred k <= c - 1)%Z) by lia.
      rewrite Zle_Qle, inject_Z_minus in Lz. exact Lz. }
    assert (Uq : inject_Z c <= inject_Z (2 ^ k)) by (now rewrite <- Zle_Qle).
    rewrite <- !pow2_Z in * by lia.
    assert (Eb : a == / b) by (unfold b; now rewrite Qinv_involutive).
    assert (Hpk : 2 ^ (- k) == / 2 ^ k) by apply Qpower_opp.
    assert (Hpk1 : 2 ^ (- k + 1) == / 2 ^ Z.pred k).
    { replace (- k + 1)%Z with (- Z.pred k)%Z by lia. apply Qpower_opp. }
    pose proof (pow2_pos k) as P1. pose proof (pow2_pos (Z.pred k)) as P2.
    assert (Hb0 : 0 < b) by lra.
    rewrite Hpk, Hpk1, Eb. split.
    + apply Qle_shift_inv_l; [exact Hb0|].
      rewrite Qmult_comm. apply Qle_shift_div_r; [exact P1|]. lra.
    + apply Qlt_shift_inv_l; [exact P2|].
      rewrite Qmult_comm. apply Qlt_shift_div_r; [exact Hb0|]. lra.
Qed.

Lemma pow2_lt_inv (a b : Z) : 2 ^ a < 2 ^ b -> (a < b)%Z.
Proof. intros H. apply (Qpower_lt_compat_l_inv 2); [exact H|reflexivity]. Qed.

Lemma Qred_inject_Z (z : Z) : Qred (inject_Z z) = inject_Z z.
Proof.
  unfold Qred, inject_Z.
  pose proof (Z.ggcd_gcd z 1) as G. pose proof (Z.ggcd_correct_divisors z 1) as D.
  destruct (Z.ggcd z 1) as [g [aa bb]]. simpl in *.
  rewrite Z.gcd_1_r in G. subst g. destruct D as [D1 D2].
  rewrite Z.mul_1_l in D1, D2. subst. reflexivity.
Qed.

Lemma roundTiesToEven_comp (t t' : Q) :
  t == t' -> roundTiesToEven t = roundTiesToEven t'.
Proof.
  intros H. unfold roundTiesToEven. rewrite (Qfloor_comp _ _ H).
  assert (E : (t - inject_Z (Qfloor t') ?= 1 # 2) = (t' - inject_Z (Qfloor t') ?= 1 # 2))
    by (now rewrite H).
  now rewrite E.
Qed.

Lemma roundTiesToEven_Z (z : Z) : roundTiesToEven (inject_Z z) = z.
Proof.
  unfold roundTiesToEven. rewrite Qfloor_Z.
  destruct (Qcompare_spec (inject_Z z - inject_Z z) (1 # 2)) as [E|E|E];
    [lra|reflexivity|lra].
Qed.

Lemma roundTiesToEven_monotone (t t' : Q) :
  t <= t' -> (roundTiesToEven t <= roundTiesToEven t')%Z.
Proof.
  intros H. destruct (Qeq_dec t t') as [E|E].
  - rewrite (roundTiesToEven_comp _ _ E). lia.
  - destruct (roundTiesToEven_near t) as [_ U].
    destruct (roundTiesToEven_near t') as [L _].
    destruct (Z_lt_le_dec (roundTiesToEven t') (roundTiesToEven t)) as [C|C];
      [|exact C].
    exfalso. assert (C' : (roundTiesToEven t' + 1 <= roundTiesToEven t)%Z) by lia.
    rewrite Zle_Qle, inject_Z_plus in C'. change (inject_Z 1) with 1 in C'.
    apply E. lra.
Qed.

Lemma binade_comp (a b : Q) : a == b -> binade a = binade b.
Proof.
  intros H. unfold binade.
  assert (E : Qle_bool 1 a = Qle_bool 1 b).
  { destruct (Qle_bool 1 a) eqn:Ea, (Qle_bool 1 b) eqn:Eb; try reflexivity.
    - apply Qle_bool_iff in Ea. rewrite H in Ea. apply Qle_bool_iff in Ea. congruence.
    - apply Qle_bool_iff in Eb. rewrite <- H in Eb. apply Qle_bool_iff in Eb. congruence. }
  rewrite E, (Qfloor_comp _ _ H).
  assert (Ei : / a == / b) by (now rewrite H).
  now rewrite (Qceiling_comp _ _ Ei).
Qed.

Lemma binade_unique (a : Q) (e : Z) :
  2 ^ e <= a -> a < 2 ^ (e + 1) -> binade a = e.
Proof.
  intros L U.
  assert (Ha : 0 < a) by (pose proof (pow2_pos e); lra).
  destruct (binade_spec a Ha) as [L' U'].
  assert (H1 : (binade a < e + 1)%Z) by (apply pow2_lt_inv; lra).
  assert (H2 : (e < binade a + 1)%Z) by (apply pow2_lt_inv; lra).
  lia.
Qed.

Lemma binade_le (a b : Q) : 0 < a -> a <= b -> (binade a <= binade b)%Z.
Proof.
  intros Ha Hab.
  destruct (binade_spec a Ha) as [L _].
  destruct (binade_spec b ltac:(lra)) as [_ U].
  assert (H : (binade a < binade b + 1)%Z) by (apply pow2_lt_inv; lra).
  lia.
Qed.

Lemma roundPositive_comp (a b : Q) : a == b -> roundPositive a = roundPositive b.
Proof.
  intros H. unfold roundPositive. rewrite (binade_comp _ _ H).
  assert (E : a / 2 ^ (binade b - 52) == b / 2 ^ (binade b - 52)) by (now rewrite H).
  now rewrite (roundTiesToEven_comp _ _ E).
Qed.

Lemma fl_comp (x y : Q) : x == y -> fl x = fl y.
Proof.
  intros H. unfold fl.
  assert (E : (x ?= 0) = (y ?= 0)) by (now rewrite H).
  rewrite E. destruct (y ?= 0); [reflexivity| |].
  - assert (E' : - x == - y) by (now rewrite H).
    now rewrite (roundPositive_comp _ _ E').
  - now rewrite (roundPositive_comp _ _ H).
Qed.

(** The scaled significand of a positive number lies in [2^52, 2^53). *)
Lemma significand_range (a : Q) :
  0 < a ->
  inject_Z (2 ^ 52) <= a / 2 ^ (binade a - 52) /\
  a / 2 ^ (binade a - 52) < inject_Z (2 ^ 53).
Proof.
  intros Ha. destruct (binade_spec a Ha) as [L U].
  set (e := binade a) in *. set (u := (e - 52)%Z).
  pose proof (pow2_pos u) as Pu.
  assert (E1 : 2 ^ e == inject_Z (2 ^ 52) * 2 ^ u).
  { rewrite <- pow2_Z by lia. rewrite <- pow2_plus. now replace (52 + u)%Z with e by (unfold u; lia). }
  assert (E2 : 2 ^ (e + 1) == inject_Z (2 ^ 53) * 2 ^ u).
  { rewrite <- pow2_Z by lia. rewrite <- pow2_plus. now replace (53 + u)%Z with (e + 1)%Z by (unfold u; lia). }
  split.
  - apply Qle_shift_div_l; [exact Pu|]. lra.
  - apply Qlt_shift_div_r; [exact Pu|]. lra.
Qed.

Lemma roundPositive_significand (a : Q) :
  0 < a ->
  (2 ^ 52 <= roundTiesToEven (a / 2 ^ (binade a - 52)) <= 2 ^ 53)%Z.
Proof.
  intros Ha. destruct (significand_range a Ha) as [L U].
  split.
  - apply Z.le_trans with (roundTiesToEven (inject_Z (2 ^ 52))).
    + rewrite roundTiesToEven_Z. lia.
    + now apply roundTiesToEven_monotone.
  - apply Z.le_trans with (roundTiesToEven (inject_Z (2 ^ 53))).
    + apply roundTiesToEven_monotone. lra.
    + rewrite roundTiesToEven_Z. lia.
Qed.

Lemma roundPositive_bounds (a : Q) :
  0 < a ->
  2 ^ binade a <= roundPositive a /\ roundPositive a <= 2 ^ (binade a + 1).
Proof.
  intros Ha. destruct (roundPositive_significand a Ha) as [L U].
  unfold roundPositive. cbv zeta.
  set (e := binade a) in *. set (u := (e - 52)%Z).
  set (m := roundTiesToEven (a / 2 ^ u)) in *.
  pose proof (pow2_pos u) as Pu.
  assert (E1 : 2 ^ e == inject_Z (2 ^ 52) * 2 ^ u).
  { rewrite <- pow2_Z by lia. rewrite <- pow2_plus. now replace (52 + u)%Z with e by (unfold u; lia). }
  assert (E2 : 2 ^ (e + 1) == inject_Z (2 ^ 53) * 2 ^ u).
  { rewrite <- pow2_Z by lia. rewrite <- pow2_plus. now replace (53 + u)%Z with (e + 1)%Z by (unfold u; lia). }
  rewrite E1, E2. rewrite Zle_Qle in L, U.
  split; apply Qmult_le_compat_r; try assumption; lra.
Qed.

Lemma roundPositive_pos (a : Q) : 0 < a -> 0 < roundPositive a.
Proof.
  intros Ha. destruct (roundPositive_bounds a Ha) as [L _].
  pose proof (pow2_pos (binade a)). lra.
Qed.

Lemma roundPositive_monotone (a b : Q) :
  0 < a -> a <= b -> roundPositive a <= roundPositive b.
Proof.
  intros Ha Hab. assert (Hb : 0 < b) by lra.
  pose proof (binade_le a b Ha Hab) as He.
  destruct (Z.eq_dec (binade a) (binade b)) as [E|E].
  - unfold roundPositive. cbv zeta. rewrite E.
    set (u := (binade b - 52)%Z). pose proof (pow2_pos u) as Pu.
    apply Qmult_le_compat_r; [|lra]. rewrite <- Zle_Qle.
    apply roundTiesToEven_monotone.
    unfold Qdiv. apply Qmult_le_compat_r; [exact Hab|].
    apply Qinv_le_0_compat. lra.
  - destruct (roundPositive_bounds a Ha) as [_ U].
    destruct (roundPositive_bounds b Hb) as [L _].
    assert (P : 2 ^ (binade a + 1) <= 2 ^ binade b) by (apply pow2_le; lia).
    lra.
Qed.

Lemma roundPositive_error (a : Q) :
  0 < a ->
  a - a * epsilon <= roundPositive a /\ roundPositive a <= a + a * epsilon.
Proof.
  intros Ha. destruct (binade_spec a Ha) as [L _].
  unfold roundPositive. cbv zeta.
  set (e := binade a) in *. set (u := (e - 52)%Z).
  destruct (roundTiesToEven_near (a / 2 ^ u)) as [N1 N2].
  set (m := inject_Z (roundTiesToEven (a / 2 ^ u))) in *.
  pose proof (pow2_pos u) as Pu.
  assert (Et : a / 2 ^ u * 2 ^ u == a) by (field; lra).
  set (t := a / 2 ^ u) in *.
  assert (E1 : 2 ^ e == inject_Z (2 ^ 52) * 2 ^ u).
  { rewrite <- pow2_Z by lia. rewrite <- pow2_plus. now replace (52 + u)%Z with e by (unfold u; lia). }
  assert (A1 : (m - t) * 2 ^ u <= (1 # 2) * 2 ^ u)
    by (apply Qmult_le_compat_r; lra).
  assert (A2 : - (1 # 2) * 2 ^ u <= (m - t) * 2 ^ u)
    by (apply Qmult_le_compat_r; lra).
  assert (A3 : (m - t) * 2 ^ u == m * 2 ^ u - t * 2 ^ u) by ring.
  assert (A4 : a * epsilon == a * (1 # 9007199254740992)) by reflexivity.
  change (inject_Z (2 ^ 52)) with 4503599627370496 in E1.
  set (w := 2 ^ u) in *. set (mw := m * w) in *. set (tw := t * w) in *.
  set (d := (m - t) * w) in *. set (ae := a * epsilon) in *.
  set (p := 2 ^ e) in *.
  split; lra.
Qed.

(** A number with a significand of at most 53 bits is its own rounding. *)
Lemma roundPositive_dyadic (a : Q) (n j : Z) :
  (0 < n < 2 ^ 53)%Z -> a == inject_Z n * 2 ^ j -> roundPositive a == a.
Proof.
  intros Hn Ea.
  pose proof (pow2_pos j) as Pj.
  assert (Hn1 : 1 <= inject_Z n /\ inject_Z n < inject_Z (2 ^ 53)).
  { split; [change 1 with (inject_Z 1); rewrite <- Zle_Qle; lia|rewrite <- Zlt_Qlt; lia]. }
  assert (Ha : 0 < a).
  { rewrite Ea. apply Qmult_lt_0_compat; lra. }
  destruct (binade_spec a Ha) as [L _].
  assert (Hu : (binade a < 53 + j)%Z).
  { apply pow2_lt_inv. rewrite pow2_plus, (pow2_Z 53) by lia.
    apply Qle_lt_trans with a; [exact L|]. rewrite Ea.
    apply Qmult_lt_compat_r; lra. }
  unfold roundPositive. cbv zeta.
  set (u := (binade a - 52)%Z) in *.
  pose proof (pow2_pos u) as Pu.
  assert (Ej : 2 ^ j == inject_Z (2 ^ (j - u)) * 2 ^ u).
  { rewrite <- pow2_Z by lia. rewrite <- pow2_plus. now replace (j - u + u)%Z with j by lia. }
  assert (Et : a / 2 ^ u == inject_Z (n * 2 ^ (j - u))).
  { rewrite Ea, Ej, inject_Z_mult. field. lra. }
  rewrite (roundTiesToEven_comp _ _ Et), roundTiesToEven_Z.
  rewrite Ea, Ej, inject_Z_mult. ring.
Qed.

Lemma roundPositive_Z (z : Z) :
  (0 < z <= 2 ^ 53)%Z -> roundPositive (inject_Z z) == inject_Z z.
Proof.
  intros Hz. destruct (Z.eq_dec z (2 ^ 53)) as [->|Hne].
  - apply (roundPositive_dyadic _ (2 ^ 52) 1); [lia|]. reflexivity.
  - apply (roundPositive_dyadic _ z 0); [lia|]. change (2 ^ 0) with 1. ring.
Qed.

Lemma fl_0 : fl 0 = 0.
Proof. reflexivity. Qed.

Lemma fl_pos (x : Q) : 0 < x -> fl x = Qred (roundPositive x).
Proof.
  intros H. unfold fl. destruct (Qcompare_spec x 0); [lra|lra|reflexivity].
Qed.

Lemma fl_neg (x : Q) : x < 0 -> fl x = Qred (- roundPositive (- x)).
Proof.
  intros H. unfold fl. destruct (Qcompare_spec x 0); [lra|reflexivity|lra].
Qed.

Lemma fl_zero (x : Q) : x == 0 -> fl x = 0.
Proof. intros H. now rewrite (fl_comp _ _ H). Qed.

Lemma fl_monotone (x y : Q) : x <= y -> fl x <= fl y.
Proof.
  intros H.
  destruct (Qcompare_spec x 0) as [Ex|Ex|Ex], (Qcompare_spec y 0) as [Ey|Ey|Ey];
    try lra.
  - rewrite (fl_zero x Ex), (fl_zero y Ey). lra.
  - rewrite (fl_zero x Ex), (fl_pos y Ey), Qred_correct.
    pose proof (roundPositive_pos y Ey). lra.
  - rewrite (fl_neg x Ex), (fl_zero y Ey), Qred_correct.
    pose proof (roundPositive_pos (- x) ltac:(lra)). lra.
  - rewrite (fl_neg x Ex), (fl_neg y Ey), !Qred_correct.
    pose proof (roundPositive_monotone (- y) (- x) ltac:(lra) ltac:(lra)). lra.
  - rewrite (fl_neg x Ex), (fl_pos y Ey), !Qred_correct.
    pose proof (roundPositive_pos (- x) ltac:(lra)).
    pose proof (roundPositive_pos y Ey). lra.
  - rewrite (fl_pos x Ex), (fl_pos y Ey), !Qred_correct.
    now apply roundPositive_monotone.
Qed.

Lemma fl_whole (z : Z) : (Z.abs z <= 2 ^ 53)%Z -> fl (inject_Z z) = inject_Z z.
Proof.
  intros Hz. rewrite <- (Qred_inject_Z z) at 2.
  destruct (Z.compare_spec z 0) as [E|E|E].
  - subst. reflexivity.
  - assert (Hq : inject_Z z < 0) by (change 0 with (inject_Z 0); rewrite <- Zlt_Qlt; lia).
    rewrite (fl_neg _ Hq). apply Qred_complete.
    assert (Eo : - inject_Z z == inject_Z (- z)) by (now rewrite inject_Z_opp).
    rewrite (roundPositive_comp _ _ Eo), roundPositive_Z by lia.
    rewrite inject_Z_opp. ring.
  - assert (Hq : 0 < inject_Z z) by (change 0 with (inject_Z 0); rewrite <- Zlt_Qlt; lia).
    rewrite (fl_pos _ Hq). apply Qred_complete. apply roundPositive_Z. lia.
Qed.

(** The relative error of one rounding is at most the unit roundoff. *)
Lemma fl_error (x : Q) :
  - (Qabs x * epsilon) <= fl x - x /\ fl x - x <= Qabs x * epsilon.
Proof.
  destruct (Qcompare_spec x 0) as [Ex|Ex|Ex].
  - rewrite (fl_zero x Ex). pose proof (Qabs_wd _ _ Ex) as Ea.
    change (Qabs 0) with 0 in Ea.
    assert (Em : Qabs x * epsilon == 0) by (rewrite Ea; ring).
    set (ax := Qabs x * epsilon) in *. lra.
  - rewrite (fl_neg x Ex), Qred_correct.
    destruct (roundPositive_error (- x) ltac:(lra)) as [L U].
    pose proof (Qabs_neg x ltac:(lra)) as Ea.
    assert (Em : Qabs x * epsilon == (- x) * epsilon) by (rewrite Ea; ring).
    set (ax := Qabs x * epsilon) in *. set (nx := - x * epsilon) in *.
    lra.
  - rewrite (fl_pos x Ex), Qred_correct.
    destruct (roundPositive_error x Ex) as [L U].
    pose proof (Qabs_pos x ltac:(lra)) as Ea.
    assert (Em : Qabs x * epsilon == x * epsilon) by (rewrite Ea; ring).
    set (ax := Qabs x * epsilon) in *. set (nx := x * epsilon) in *.
    lra.
Qed.

Lemma fl_eq_Z (x : Q) (z : Z) :
  x == inject_Z z -> (Z.abs z <= 2 ^ 53)%Z -> fl x = inject_Z z.
Proof. intros E H. rewrite (fl_comp _ _ E). now apply fl_whole. Qed.

Lemma fl_le_Z (x : Q) (z : Z) :
  x <= inject_Z z -> (Z.abs z <= 2 ^ 53)%Z -> fl x <= inject_Z z.
Proof.
  intros H Hz. pose proof (fl_monotone _ _ H) as Hm.
  now rewrite (fl_whole z Hz) in Hm.
Qed.

Lemma fl_ge_Z (x : Q) (z : Z) :
  inject_Z z <= x -> (Z.abs z <= 2 ^ 53)%Z -> inject_Z z <= fl x.
Proof.
  intros H Hz. pose proof (fl_monotone _ _ H) as Hm.
  now rewrite (fl_whole z Hz) in Hm.
Qed.

Lemma fl_nonneg (x : Q) : 0 <= x -> 0 <= fl x.
Proof. intros H. apply (fl_ge_Z x 0); [exact H|simpl; lia]. Qed.

Lemma fl_nonpos (x : Q) : x <= 0 -> fl x <= 0.
Proof. intros H. apply (fl_le_Z x 0); [exact H|simpl; lia]. Qed.

Lemma fl_positive (x : Q) : 0 < x -> 0 < fl x.
Proof.
  intros H. rewrite (fl_pos x H), Qred_correct. now apply roundPositive_pos.
Qed.

(** Rounding keeps the sign, so a difference is compared with zero as the
    exact difference is. *)
Lemma leb_sub_0 (x y : Q) : leb (sub x y) 0 = leb (x - y) 0.
Proof.
  unfold sub. destruct (Qlt_le_dec 0 (x - y)) as [H|H].
  - rewrite (leb_false (x - y) 0 H). apply leb_false. now apply fl_positive.
  - rewrite (leb_true (x - y) 0 H). apply leb_true. now apply fl_nonpos.
Qed.

(** The error of one rounding, for a number of bounded size. *)
Lemma fl_within (x B : Q) :
  - B <= x -> x <= B ->
  x - B * epsilon <= fl x /\ fl x <= x + B * epsilon.
Proof.
  intros L U. destruct (fl_error x) as [E1 E2].
  assert (Ha : Qabs x <= B) by (apply Qabs_Qle_condition; split; assumption).
  assert (Hm : Qabs x * epsilon <= B * epsilon).
  { apply Qmult_le_compat_r; [exact Ha|]. unfold epsilon. lra. }
  set (ax := Qabs x * epsilon) in *. set (be := B * epsilon) in *.
  split; lra.
Qed.

Lemma Qfloor_unique (q : Q) (k : Z) :
  inject_Z k <= q -> q < inject_Z k + 1 -> Qfloor q = k.
Proof.
  intros L U.
  assert (H1 : (k <= Qfloor q)%Z).
  { rewrite <- (Qfloor_Z k). now apply Qfloor_resp_le. }
  assert (H2 : (Qfloor q < k + 1)%Z).
  { rewrite Zlt_Qlt, inject_Z_plus. change (inject_Z 1) with 1.
    pose proof (Qfloor_le q). lra. }
  lia.
Qed.

(** The floor of a rounded quotient is the floor of the exact one when
    the exact quotient is at least [k] and stays below [k + 1] by more
    than its own rounding error. *)
Lemma Qfloor_div (x p : Q) (k : Z) :
  0 < p -> (0 <= k <= 2 ^ 53)%Z ->
  inject_Z k * p <= x -> x + x * epsilon < (inject_Z k + 1) * p ->
  Qfloor (div x p) = k.
Proof.
  intros Hp Hk L U.
  assert (Hk0 : 0 <= inject_Z k)
    by (change 0 with (inject_Z 0); rewrite <- Zle_Qle; lia).
  assert (Ly : inject_Z k <= x / p) by (now apply Qle_shift_div_l).
  assert (Hy0 : 0 <= x / p) by lra.
  apply Qfloor_unique.
  - unfold div. apply fl_ge_Z; [exact Ly|lia].
  - unfold div. destruct (fl_error (x / p)) as [_ E].
    pose proof (Qabs_pos (x / p) Hy0) as Ea.
    assert (Em : Qabs (x / p) * epsilon == x / p * epsilon) by (now rewrite Ea).
    assert (Ey : (x / p + x / p * epsilon) * p == x + x * epsilon) by (field; lra).
    assert (Uy : x / p + x / p * epsilon < inject_Z k + 1).
    { apply (Qmult_lt_r _ _ p Hp). rewrite Ey. exact U. }
    set (y := x / p) in *. set (ye := y * epsilon) in *.
    set (ae := Qabs y * epsilon) in *. lra.
Qed.

(** *** The operations on whole numbers

    Sums, differences, products and exact quotients of whole numbers are
    not rounded as long as they stay within 2^53. *)

Lemma add_Z (a b : Z) :
  (Z.abs (a + b) <= 2 ^ 53)%Z -> add (inject_Z a) (inject_Z b) = inject_Z (a + b).
Proof.
  intros H. unfold add. apply fl_eq_Z; [|exact H]. now rewrite inject_Z_plus.
Qed.

Lemma sub_Z (a b : Z) :
  (Z.abs (a - b) <= 2 ^ 53)%Z -> sub (inject_Z a) (inject_Z b) = inject_Z (a - b).
Proof.
  intros H. unfold sub. apply fl_eq_Z; [|exact H]. now rewrite inject_Z_minus.
Qed.

Lemma mul_Z (a b : Z) :
  (Z.abs (a * b) <= 2 ^ 53)%Z -> mul (inject_Z a) (inject_Z b) = inject_Z (a * b).
Proof.
  intros H. unfold mul. apply fl_eq_Z; [|exact H]. now rewrite inject_Z_mult.
Qed.

Lemma div_Z (a b q : Z) :
  b <> 0%Z -> a = (q * b)%Z -> (Z.abs q <= 2 ^ 53)%Z ->
  div (inject_Z a) (inject_Z b) = inject_Z q.
Proof.
  intros Hb -> H. unfold div. apply fl_eq_Z; [|exact H].
  rewrite inject_Z_mult. field.
  intros E. apply Hb. now apply (proj1 (inject_Z_injective b 0)).
Qed.

(** A binary64 number below a whole number [T] is below it by more than
    the rounding error of a quotient of it: both are multiples of the
    unit in the last place of the number. *)
Lemma binary64_below_Z (x : Q) (T : Z) :
  fl x == x -> 0 < x -> x < inject_Z T -> (T <= 2 ^ 53)%Z ->
  x + x * epsilon < inject_Z T.
Proof.
  intros Hx H0 HT HT53.
  rewrite (fl_pos x H0), Qred_correct in Hx.
  destruct (roundPositive_significand x H0) as [Lm Um].
  destruct (binade_spec x H0) as [Le Ue].
  unfold roundPositive in Hx. cbv zeta in Hx.
  set (e := binade x) in *. set (u := (e - 52)%Z) in *.
  set (m := roundTiesToEven (x / 2 ^ u)) in *.
  pose proof (pow2_pos u) as Pu.
  assert (He : (e < 53)%Z).
  { apply pow2_lt_inv. rewrite (pow2_Z 53) by lia.
    apply Qle_lt_trans with x; [exact Le|].
    apply Qlt_le_trans with (inject_Z T); [exact HT|]. rewrite <- Zle_Qle. lia. }
  assert (ET : inject_Z T == inject_Z (T * 2 ^ (- u)) * 2 ^ u).
  { rewrite inject_Z_mult, <- pow2_Z by (unfold u; lia).
    rewrite <- Qmult_assoc, <- pow2_plus.
    replace (- u + u)%Z with 0%Z by lia. change (2 ^ 0) with 1. ring. }
  assert (Hgap : (m + 1 <= T * 2 ^ (- u))%Z).
  { assert (Hlt : (m < T * 2 ^ (- u))%Z); [|lia].
    rewrite Zlt_Qlt. apply (Qmult_lt_r _ _ (2 ^ u) Pu).
    rewrite <- ET, Hx. exact HT. }
  rewrite Zle_Qle, inject_Z_plus in Hgap. change (inject_Z 1) with 1 in Hgap.
  assert (Hg : (inject_Z m + 1) * 2 ^ u <= inject_Z (T * 2 ^ (- u)) * 2 ^ u)
    by (apply Qmult_le_compat_r; lra).
  assert (Ee : 2 ^ (e + 1) * epsilon == 2 ^ u).
  { replace (e + 1)%Z with (53 + u)%Z by (unfold u; lia).
    rewrite pow2_plus. unfold epsilon. change (2 ^ 53) with 9007199254740992.
    field. }
  assert (Hxe : x * epsilon < 2 ^ (e + 1) * epsilon).
  { apply Qmult_lt_compat_r; [reflexivity|exact Ue]. }
  assert (Eg : (inject_Z m + 1) * 2 ^ u == inject_Z m * 2 ^ u + 2 ^ u) by ring.
  set (w := 2 ^ u) in *. set (mw := inject_Z m * w) in *.
  set (xe := x * epsilon) in *. set (pe := 2 ^ (e + 1) * epsilon) in *.
  set (tw := inject_Z (T * 2 ^ (- u)) * w) in *.
  set (g := (inject_Z m + 1) * w) in *.
  lra.
Qed.

End JSNumberFacts.

(** ** Facts about the expiration times *)

Module ExpirationTimeFacts.
Import JSNumber JSNumberFacts ExpirationTime Formula.

Lemma MAGIC_NUMBER_OFFSET_whole : MAGIC_NUMBER_OFFSET = inject_Z 1073741821.
Proof. vm_compute. reflexivity. Qed.

Lemma MAGIC_NUMBER_OFFSET_value : MAGIC_NUMBER_OFFSET == 1073741821.
Proof. rewrite MAGIC_NUMBER_OFFSET_whole. reflexivity. Qed.

(** Division by the unit, as a linear fact. *)
Lemma div_UNIT_SIZE (x : Q) : x / UNIT_SIZE == x * (1 # 10).
Proof. unfold UNIT_SIZE. field. Qed.

(** Comparisons of whole numbers. *)
Lemma leb_Z (a b : Z) : leb (inject_Z a) (inject_Z b) = (a <=? b)%Z.
Proof. unfold leb, Qle_bool. simpl. now rewrite !Z.mul_1_r. Qed.

Lemma eqb_Z (a b : Z) : eqb (inject_Z a) (inject_Z b) = (a =? b)%Z.
Proof. unfold eqb, Qeq_bool. simpl. now rewrite !Z.mul_1_r. Qed.

Lemma inject_Z_le (a b : Z) : (a <= b)%Z -> inject_Z a <= inject_Z b.
Proof. intros H. now rewrite <- Zle_Qle. Qed.

Lemma inject_Z_lt (a b : Z) : (a < b)%Z -> inject_Z a < inject_Z b.
Proof. intros H. now rewrite <- Zlt_Qlt. Qed.

(** *** The two conversions *)

Lemma msToExpirationTime_whole (ms : Q) :
  0 <= ms -> ms < 21474836480 ->
  msToExpirationTime ms = inject_Z (1073741821 - Qfloor (ms / UNIT_SIZE)).
Proof.
  intros H0 H1. unfold msToExpirationTime.
  assert (Hq : 0 <= ms / UNIT_SIZE /\ ms / UNIT_SIZE < 2147483648)
    by (rewrite div_UNIT_SIZE; split; lra).
  rewrite bitor_zero_floor by apply Hq.
  rewrite MAGIC_NUMBER_OFFSET_whole. apply sub_Z.
  pose proof (Qfloor_nonneg _ (proj1 Hq)).
  pose proof (Qfloor_lt_bound _ 2147483648 (proj2 Hq)). lia.
Qed.

Lemma msToExpirationTime_floor (ms : Q) :
  0 <= ms -> ms < 21474836480 ->
  msToExpirationTime ms == MAGIC_NUMBER_OFFSET - inject_Z (Qfloor (ms / UNIT_SIZE)).
Proof.
  intros H0 H1. rewrite (msToExpirationTime_whole ms H0 H1).
  rewrite inject_Z_minus, MAGIC_NUMBER_OFFSET_whole. reflexivity.
Qed.

(** The exact quotient in [msToExpirationTime] stands for the rounded
    one: on a binary64 [ms] in the range, the two truncate to the same
    integer. *)
Lemma msToExpirationTime_binary64 (ms : Q) :
  fl ms == ms -> 0 <= ms -> ms < 21474836480 ->
  bitor (div ms UNIT_SIZE) 0 = bitor (ms / UNIT_SIZE) 0 /\
  sub MAGIC_NUMBER_OFFSET (bitor (div ms UNIT_SIZE) 0) = msToExpirationTime ms.
Proof.
  intros Hd H0 H1.
  assert (E : bitor (div ms UNIT_SIZE) 0 = bitor (ms / UNIT_SIZE) 0);
    [|split; [exact E|unfold msToExpirationTime; now rewrite E]].
  assert (Hq : 0 <= ms / UNIT_SIZE /\ ms / UNIT_SIZE < 2147483648)
    by (rewrite div_UNIT_SIZE; split; lra).
  rewrite (bitor_zero_floor (ms / UNIT_SIZE)) by apply Hq.
  destruct (Qfloor_bounds (ms / UNIT_SIZE)) as [L U].
  pose proof (Qfloor_nonneg _ (proj1 Hq)) as Hk0.
  pose proof (Qfloor_lt_bound _ 2147483648 (proj2 Hq)) as Hk1.
  set (k := Qfloor (ms / UNIT_SIZE)) in *.
  pose proof (div_UNIT_SIZE ms) as Ems.
  assert (Hfl : Qfloor (div ms UNIT_SIZE) = k).
  { apply Qfloor_div.
    - reflexivity.
    - lia.
    - unfold UNIT_SIZE in *. set (q := ms / 10) in *. lra.
    - destruct (Qeq_dec ms 0) as [Z0|N0].
      + assert (Hk : 0 <= inject_Z k) by (now apply (inject_Z_le 0)).
        unfold UNIT_SIZE, epsilon. lra.
      + assert (HT : ms < inject_Z ((k + 1) * 10)).
        { rewrite inject_Z_mult, inject_Z_plus. unfold UNIT_SIZE in *.
          change (inject_Z 1) with 1. change (inject_Z 10) with 10.
          set (q := ms / 10) in *. lra. }
        pose proof (binary64_below_Z ms ((k + 1) * 10) Hd ltac:(lra) HT ltac:(lia)) as Hb.
        rewrite inject_Z_mult, inject_Z_plus in Hb. exact Hb. }
  destruct (Qfloor_bounds (div ms UNIT_SIZE)) as [L' U'].
  rewrite Hfl in L', U'.
  assert (Hk1' : inject_Z k + 1 <= 2147483648).
  { change 2147483648 with (inject_Z 2147483648).
    change 1 with (inject_Z 1). rewrite <- inject_Z_plus. apply inject_Z_le. lia. }
  assert (Hk0' : 0 <= inject_Z k) by (now apply (inject_Z_le 0)).
  rewrite bitor_zero_floor by lra. now rewrite Hfl.
Qed.

(** On a whole expiration time neither the difference nor the product in
    [expirationTimeToMs] is rounded. *)
Lemma expirationTimeToMs_whole (z : Z) :
  (Z.abs (1073741821 - z) <= 2 ^ 49)%Z ->
  expirationTimeToMs (inject_Z z) = inject_Z ((1073741821 - z) * 10).
Proof.
  intros Hz. unfold expirationTimeToMs.
  rewrite MAGIC_NUMBER_OFFSET_whole, sub_Z by lia.
  change UNIT_SIZE with (inject_Z 10). apply mul_Z. lia.
Qed.

(** *** The bucket of a whole current time *)

(** [ceiling] of a value [v] and a whole precision [p], when [v] lies in
    the bucket [k * p <= v < (k + 1) * p], clear of its upper end by more
    than one rounding. *)
Lemma ceiling_whole (v : Q) (k p : Z) :
  (0 < p)%Z -> (0 <= k < 2 ^ 31)%Z -> ((k + 1) * p <= 2 ^ 53)%Z ->
  inject_Z k * inject_Z p <= v ->
  v + v * epsilon < (inject_Z k + 1) * inject_Z p ->
  ceiling v (inject_Z p) = inject_Z ((k + 1) * p).
Proof.
  intros Hp Hk Hkp L U. unfold ceiling.
  assert (Hpq : 0 < inject_Z p) by (now apply (inject_Z_lt 0)).
  assert (Hfl : Qfloor (div v (inject_Z p)) = k)
    by (apply Qfloor_div; [exact Hpq|lia|exact L|exact U]).
  destruct (Qfloor_bounds (div v (inject_Z p))) as [L' U'].
  rewrite Hfl in L', U'.
  assert (Hk1 : inject_Z k + 1 <= 2147483648).
  { change 2147483648 with (inject_Z 2147483648).
    change 1 with (inject_Z 1). rewrite <- inject_Z_plus. apply inject_Z_le. lia. }
  assert (Hk0 : 0 <= inject_Z k) by (apply (inject_Z_le 0); lia).
  rewrite bitor_zero_floor, Hfl by lra.
  change 1 with (inject_Z 1). rewrite add_Z by lia. apply mul_Z. lia.
Qed.

(** The value that [computeExpirationBucket] hands to [ceiling], for a
    whole current time on the scale and a whole timeout: it is the exact
    [MAGIC_NUMBER_OFFSET - c + e / 10] when [e] is a multiple of 10, and
    within 10^-5 of it otherwise. *)
Lemma bucket_value (c e : Z) :
  (0 <= c <= 1073741821)%Z -> (0 <= e <= 100000000000)%Z ->
  let v := add (sub MAGIC_NUMBER_OFFSET (inject_Z c)) (div (inject_Z e) UNIT_SIZE) in
  (forall e10 : Z, e = (e10 * 10)%Z -> v = inject_Z (1073741821 - c + e10)) /\
  inject_Z (10 * (1073741821 - c) + e) * (1 # 10) - (1 # 100000) <= v /\
  v <= inject_Z (10 * (1073741821 - c) + e) * (1 # 10) + (1 # 100000).
Proof.
  intros Hc He v. subst v.
  rewrite MAGIC_NUMBER_OFFSET_whole, sub_Z by lia.
  change UNIT_SIZE with (inject_Z 10).
  split.
  - intros e10 ->. rewrite (div_Z _ 10 e10) by lia. apply add_Z. lia.
  - assert (He0 : 0 <= inject_Z e) by (apply (inject_Z_le 0); lia).
    assert (He1 : inject_Z e <= 100000000000) by (apply (inject_Z_le e 100000000000); lia).
    assert (Hw0 : 0 <= inject_Z (1073741821 - c)) by (apply (inject_Z_le 0); lia).
    assert (Hw1 : inject_Z (1073741821 - c) <= 1073741821)
      by (apply (inject_Z_le _ 1073741821); lia).
    assert (Eq : inject_Z e / inject_Z 10 == inject_Z e * (1 # 10))
      by (change (inject_Z 10) with 10; field).
    destruct (fl_within (inject_Z e / inject_Z 10) 10000000000) as [Lq Uq];
      [lra|lra|].
    fold (div (inject_Z e) (inject_Z 10)) in Lq, Uq.
    set (q := div (inject_Z e) (inject_Z 10)) in *.
    destruct (fl_within (inject_Z (1073741821 - c) + q) 17179869184) as [Lv Uv];
      [unfold epsilon in *; lra|unfold epsilon in *; lra|].
    fold (add (inject_Z (1073741821 - c)) q) in Lv, Uv.
    set (v := add (inject_Z (1073741821 - c)) q) in *.
    assert (EV : inject_Z (10 * (1073741821 - c) + e) * (1 # 10)
                 == inject_Z (1073741821 - c) + inject_Z e * (1 # 10)).
    { rewrite inject_Z_plus, inject_Z_mult. change (inject_Z 10) with 10. ring. }
    set (w := inject_Z (1073741821 - c)) in *.
    set (ee := inject_Z e) in *. set (qq := ee / inject_Z 10) in *.
    set (V := inject_Z (10 * (1073741821 - c) + e)) in *.
    unfold epsilon in *. split; lra.
Qed.

(** What [computeExpirationBucket] returns for a whole current time on
    the scale, a whole timeout of at most 10^11 ms and a bucket that is a
    whole multiple of 10 ms, at least 100 ms. *)
Lemma computeExpirationBucket_whole (c e p : Z) :
  (0 <= c <= 1073741821)%Z -> (0 <= e <= 100000000000)%Z ->
  (10 <= p <= 10000000000)%Z ->
  computeExpirationBucket (inject_Z c) (inject_Z e) (inject_Z (10 * p))
  = inject_Z (1073741821 - ((10 * (1073741821 - c) + e) / (10 * p) + 1) * p).
Proof.
  intros Hc He Hp. unfold computeExpirationBucket.
  destruct (bucket_value c e Hc He) as (Hexact & Lv & Uv). cbv zeta in *.
  set (v := add (sub MAGIC_NUMBER_OFFSET (inject_Z c)) (div (inject_Z e) UNIT_SIZE)) in *.
  change UNIT_SIZE with (inject_Z 10).
  rewrite (div_Z (10 * p) 10 p) by lia.
  set (V := (10 * (1073741821 - c) + e)%Z) in *.
  set (k := (V / (10 * p))%Z).
  assert (Hk : (10 * p * k <= V < 10 * p * k + 10 * p)%Z)
    by (unfold k; Z.div_mod_to_equations; nia).
  assert (HV : (0 <= V <= 110737418210)%Z) by (unfold V; lia).
  assert (Hk0 : (0 <= k)%Z) by nia.
  assert (Hk1 : (k < 2 ^ 31)%Z) by nia.
  assert (Hkp : ((k + 1) * p <= 2 ^ 53)%Z) by nia.
  rewrite (ceiling_whole v k p); [| lia | lia | exact Hkp | |].
  - rewrite MAGIC_NUMBER_OFFSET_whole. apply sub_Z. nia.
  - (* the lower end of the bucket *)
    destruct (Z.eq_dec (e mod 10) 0) as [Hr|Hr].
    + assert (Ee : e = (e / 10 * 10)%Z) by (Z.div_mod_to_equations; lia).
      rewrite (Hexact _ Ee), <- inject_Z_mult. apply inject_Z_le.
      unfold V in Hk. Z.div_mod_to_equations. nia.
    + assert (HVk : (10 * p * k + 1 <= V)%Z).
      { unfold V in *. Z.div_mod_to_equations. nia. }
      apply inject_Z_le in HVk.
      rewrite inject_Z_plus, !inject_Z_mult in HVk.
      change (inject_Z 10) with 10 in HVk. change (inject_Z 1) with 1 in HVk.
      set (kp := inject_Z k * inject_Z p).
      assert (Ekp : 10 * inject_Z p * inject_Z k == 10 * kp) by (unfold kp; ring).
      set (VV := inject_Z V) in *. set (t := 10 * inject_Z p * inject_Z k) in *.
      lra.
  - (* the upper end of the bucket *)
    assert (Ek1 : (inject_Z k + 1) * inject_Z p == inject_Z ((k + 1) * p)).
    { rewrite inject_Z_mult, inject_Z_plus. reflexivity. }
    rewrite Ek1.
    destruct (Z.eq_dec (e mod 10) 0) as [Hr|Hr].
    + assert (Ee : e = (e / 10 * 10)%Z) by (Z.div_mod_to_equations; lia).
      rewrite (Hexact _ Ee).
      assert (Hv1 : (1073741821 - c + e / 10 + 1 <= (k + 1) * p)%Z).
      { unfold V in Hk. Z.div_mod_to_equations. nia. }
      assert (Hv2 : (0 <= 1073741821 - c + e / 10 <= 11073741821)%Z)
        by (Z.div_mod_to_equations; lia).
      apply inject_Z_le in Hv1. rewrite inject_Z_plus in Hv1.
      change (inject_Z 1) with 1 in Hv1.
      destruct Hv2 as [Hv2 Hv3].
      apply (inject_Z_le 0) in Hv2. apply (inject_Z_le _ 11073741821) in Hv3.
      change (inject_Z 0) with 0 in Hv2.
      change (inject_Z 11073741821) with 11073741821 in Hv3.
      set (vz := inject_Z (1073741821 - c + e / 10)) in *.
      set (kz := inject_Z ((k + 1) * p)) in *.
      unfold epsilon. lra.
    + assert (HVk : (V + 1 <= 10 * ((k + 1) * p))%Z).
      { unfold V in *. Z.div_mod_to_equations. nia. }
      apply inject_Z_le in HVk.
      rewrite inject_Z_plus, (inject_Z_mult 10) in HVk.
      change (inject_Z 10) with 10 in HVk. change (inject_Z 1) with 1 in HVk.
      destruct HV as [HV0 HV1].
      apply (inject_Z_le 0) in HV0. apply (inject_Z_le _ 110737418210) in HV1.
      change (inject_Z 0) with 0 in HV0.
      change (inject_Z 110737418210) with 110737418210 in HV1.
      set (VV := inject_Z V) in *.
      set (kz := inject_Z ((k + 1) * p)) in *.
      unfold epsilon. lra.
Qed.

(** The formula of the specification on the same inputs. *)
Lemma expirationBucket_whole (c e p : Z) :
  (0 < p)%Z ->
  Formula.expirationBucket (inject_Z c) (inject_Z e) (inject_Z (10 * p))
  == inject_Z (1073741821 - ((10 * (1073741821 - c) + e) / (10 * p) + 1) * p).
Proof.
  intros Hp. unfold expirationBucket, ceilingBucket.
  rewrite MAGIC_NUMBER_OFFSET_whole.
  assert (Hpq : 0 < inject_Z p) by (now apply (inject_Z_lt 0)).
  assert (Eq : (inject_Z 1073741821 - inject_Z c + inject_Z e / 10)
               / (inject_Z (10 * p) / 10)
               == inject_Z (10 * (1073741821 - c) + e) / inject_Z (10 * p)).
  { rewrite inject_Z_plus, !inject_Z_mult, inject_Z_minus.
    change (inject_Z 10) with 10. field. lra. }
  rewrite (Qfloor_comp _ _ Eq), <- Zdiv_Qdiv.
  set (k := ((10 * (1073741821 - c) + e) / (10 * p))%Z).
  rewrite inject_Z_minus, !inject_Z_mult, inject_Z_plus.
  change (inject_Z 10) with 10. change (inject_Z 1) with 1. field.
Qed.

(** *** The claims about the bucket *)

(** C2, as the spec has it, fails, in two ways.  A timeout of 2^31
    buckets of 250 ms, which [computeSuspenseExpiration] passes on as it
    gets it, makes the quotient 2^31, and ToInt32 wraps it to -2^31.
    And the code computes in binary64: with the timeout
    249.99999999999997 (250 - 2^-45) the sum that is handed to [ceiling]
    is rounded up to 1025, a multiple of the bucket, so the code lands
    one bucket after the formula. *)
Lemma computeExpirationBucket_not_formula :
  (0 <= 536870912000 /\ 0 < 250 /\
   computeExpirationBucket 1073741821 536870912000 250 == 54760832996 /\
   Formula.expirationBucket 1073741821 536870912000 250 == -52613349404) /\
  (0 <= 250 - (1 # 35184372088832) /\ 0 < 250 /\
   fl (250 - (1 # 35184372088832)) == 250 - (1 # 35184372088832) /\
   computeExpirationBucket 1073740821 (250 - (1 # 35184372088832)) 250 == 1073740771 /\
   Formula.expirationBucket 1073740821 (250 - (1 # 35184372088832)) 250 == 1073740796).
Proof.
  split; repeat split; try (vm_compute; reflexivity);
    intros H; vm_compute in H; discriminate H.
Qed.

(** C2 (amended): for a whole current time on the scale
    ([0 <= currentTime <= MAGIC_NUMBER_OFFSET]), a whole timeout of at
    most 10^11 ms and a bucket that is a whole multiple of 10 ms, from
    100 ms to 10^11 ms, [computeExpirationBucket] is the formula of the
    spec; the scenario of the spec is such a case, and its result is
    between 100 and 200 ms (it is 200 ms) after the current time. *)
Theorem computeExpirationBucket_formula (currentTime expirationInMs bucketUnits : Z) :
  (0 <= currentTime <= 1073741821)%Z ->
  (0 <= expirationInMs <= 100000000000)%Z ->
  (10 <= bucketUnits <= 10000000000)%Z ->
  computeExpirationBucket
    (inject_Z currentTime) (inject_Z expirationInMs) (inject_Z (10 * bucketUnits))
  == Formula.expirationBucket
       (inject_Z currentTime) (inject_Z expirationInMs) (inject_Z (10 * bucketUnits))
  /\ 100 <= expirationTimeToMs (computeExpirationBucket 1000 150 100)
            - expirationTimeToMs 1000 <= 200.
Proof.
  intros Hc He Hp. split.
  - rewrite computeExpirationBucket_whole by assumption.
    rewrite expirationBucket_whole by lia. reflexivity.
  - split; intros H; vm_compute in H; discriminate H.
Qed.

Lemma computeExpirationBucket_formula_witness :
  computeExpirationBucket (inject_Z 1000) (inject_Z 157) (inject_Z (10 * 25))
  == Formula.expirationBucket (inject_Z 1000) (inject_Z 157) (inject_Z (10 * 25))
  /\ 100 <= expirationTimeToMs (computeExpirationBucket 1000 150 100)
            - expirationTimeToMs 1000 <= 200.
Proof. apply (computeExpirationBucket_formula 1000 157 25); lia. Defined.

(** C3, as the spec has it, fails: delays within one unit of 10 ms get
    the same expiration time. *)
Lemma msToExpirationTime_not_strict :
  0 <= 0 /\ 0 < 5 /\ ~ (msToExpirationTime 0 > msToExpirationTime 5).
Proof.
  split; [lra|]. split; [lra|].
  intros H. vm_compute in H. discriminate H.
Qed.

(** C3 (amended): for delays [0 <= a < b] that ToInt32 does not wrap
    ([b] below 2^31 units of 10 ms), the expiration time of [a] is at
    least that of [b], and strictly larger once [b] is at least one unit
    of 10 ms after [a]. *)
Theorem msToExpirationTime_antitone (a b : Q) :
  0 <= a -> a < b -> b < 21474836480 ->
  msToExpirationTime a >= msToExpirationTime b /\
  (a + 10 <= b -> msToExpirationTime a > msToExpirationTime b).
Proof.
  intros Ha Hab Hb.
  rewrite (msToExpirationTime_floor a) by lra.
  rewrite (msToExpirationTime_floor b) by lra.
  destruct (Qfloor_bounds (a / UNIT_SIZE)) as [La Ua].
  destruct (Qfloor_bounds (b / UNIT_SIZE)) as [Lb Ub].
  pose proof (div_UNIT_SIZE a) as Ea. pose proof (div_UNIT_SIZE b) as Eb.
  set (qa := a / UNIT_SIZE) in *. set (qb := b / UNIT_SIZE) in *.
  split.
  - assert (Hm : (Qfloor qa <= Qfloor qb)%Z) by (apply Qfloor_resp_le; lra).
    rewrite Zle_Qle in Hm. lra.
  - intros Hstep.
    assert (Hm : (Qfloor qa < Qfloor qb)%Z) by (rewrite Zlt_Qlt; lra).
    rewrite Zlt_Qlt in Hm. lra.
Qed.

Lemma msToExpirationTime_antitone_witness :
  msToExpirationTime 0 >= msToExpirationTime 25 /\
  (0 + 10 <= 25 -> msToExpirationTime 0 > msToExpirationTime 25).
Proof. apply (msToExpirationTime_antitone 0 25); lra. Defined.

(** *** Priority inference *)

Lemma computeInteractiveExpiration_whole (dev : bool) (c : Z) :
  (0 <= c <= 1073741821)%Z ->
  computeInteractiveExpiration dev (inject_Z c)
  = inject_Z (1073741821
              - ((1073741821 - c + (if dev then 50 else 15)) / 10 + 1) * 10).
Proof.
  intros Hc. unfold computeInteractiveExpiration.
  assert (E : HIGH_PRIORITY_EXPIRATION dev = inject_Z (if dev then 500 else 150))
    by (now destruct dev).
  rewrite E. change HIGH_PRIORITY_BATCH_SIZE with (inject_Z (10 * 10)).
  rewrite computeExpirationBucket_whole by (destruct dev; lia).
  f_equal. destruct dev; Z.div_mod_to_equations; lia.
Qed.

Lemma computeAsyncExpiration_whole (c : Z) :
  (0 <= c <= 1073741821)%Z ->
  computeAsyncExpiration (inject_Z c)
  = inject_Z (1073741821 - ((1073741821 - c + 500) / 25 + 1) * 25).
Proof.
  intros Hc. unfold computeAsyncExpiration.
  change LOW_PRIORITY_EXPIRATION with (inject_Z 5000).
  change LOW_PRIORITY_BATCH_SIZE with (inject_Z (10 * 25)).
  rewrite computeExpirationBucket_whole by lia.
  f_equal. Z.div_mod_to_equations. lia.
Qed.

(** The priority inferred at a whole current time from a whole
    expiration time that is neither [Sync] nor [Never]: the thresholds,
    in units of the scale times ten. *)
Lemma inferPriority_whole (dev : bool) (c e : Z) :
  (Z.abs (1073741821 - c) <= 2 ^ 48)%Z -> (Z.abs (1073741821 - e) <= 2 ^ 48)%Z ->
  e <> 1073741823%Z -> e <> 1%Z ->
  inferPriorityFromExpirationTime dev (inject_Z c) (inject_Z e) =
  if ((c - e) * 10 <=? 0)%Z then ImmediatePriority
  else if ((c - e) * 10 <=? (if dev then 600 else 250))%Z then UserBlockingPriority
  else if ((c - e) * 10 <=? 5250)%Z then NormalPriority
  else IdlePriority.
Proof.
  intros Hc He HS HN. unfold inferPriorityFromExpirationTime.
  change Sync with (inject_Z 1073741823). change Never with (inject_Z 1).
  rewrite !eqb_Z.
  destruct (Z.eqb_spec e 1073741823) as [|_]; [contradiction|].
  destruct (Z.eqb_spec e 1) as [|_]; [contradiction|].
  cbv zeta. rewrite !expirationTimeToMs_whole by lia. rewrite sub_Z by lia.
  replace ((1073741821 - e) * 10 - (1073741821 - c) * 10)%Z with ((c - e) * 10)%Z by lia.
  assert (E1 : add (HIGH_PRIORITY_EXPIRATION dev) HIGH_PRIORITY_BATCH_SIZE
               = inject_Z (if dev then 600 else 250))
    by (destruct dev; vm_compute; reflexivity).
  assert (E2 : add LOW_PRIORITY_EXPIRATION LOW_PRIORITY_BATCH_SIZE = inject_Z 5250)
    by (vm_compute; reflexivity).
  rewrite E1, E2. change 0 with (inject_Z 0). rewrite !leb_Z. reflexivity.
Qed.

Lemma inferPriority_interactive (dev : bool) (c : Z) :
  (0 <= c <= 1073741821)%Z ->
  ~ (neverWindowStart dev < inject_Z c /\ inject_Z c <= neverWindowStart dev + 10) ->
  inferPriorityFromExpirationTime dev (inject_Z c)
    (computeInteractiveExpiration dev (inject_Z c))
  = UserBlockingPriority.
Proof.
  intros Hc Hout. rewrite computeInteractiveExpiration_whole by exact Hc.
  set (k := ((1073741821 - c + (if dev then 50 else 15)) / 10)%Z).
  assert (Hk : (10 * k <= 1073741821 - c + (if dev then 50 else 15) < 10 * k + 10)%Z)
    by (unfold k; destruct dev; Z.div_mod_to_equations; lia).
  assert (Hw : ~ ((if dev then 51 else 16) < c <= (if dev then 61 else 26))%Z).
  { intros [H1 H2]. apply Hout. unfold neverWindowStart. destruct dev.
    - split; [apply (inject_Z_lt 51 c H1)|].
      apply Qle_trans with (inject_Z 61); [now apply inject_Z_le|]. vm_compute. discriminate.
    - split; [apply (inject_Z_lt 16 c H1)|].
      apply Qle_trans with (inject_Z 26); [now apply inject_Z_le|]. vm_compute. discriminate. }
  rewrite inferPriority_whole by (destruct dev; lia).
  destruct dev;
    repeat match goal with
           | |- context [(?a <=? ?b)%Z] => destruct (Z.leb_spec a b)
           end; try reflexivity; lia.
Qed.

Lemma inferPriority_async (dev : bool) (c : Z) :
  (0 <= c <= 1073741821)%Z ->
  inferPriorityFromExpirationTime dev (inject_Z c) (computeAsyncExpiration (inject_Z c))
  = NormalPriority.
Proof.
  intros Hc. rewrite computeAsyncExpiration_whole by exact Hc.
  set (k := ((1073741821 - c + 500) / 25)%Z).
  assert (Hk : (25 * k <= 1073741821 - c + 500 < 25 * k + 25)%Z)
    by (unfold k; Z.div_mod_to_equations; lia).
  rewrite inferPriority_whole by lia.
  destruct dev;
    repeat match goal with
           | |- context [(?a <=? ?b)%Z] => destruct (Z.leb_spec a b)
           end; try reflexivity; lia.
Qed.

(** C4, as the claim has it, fails: at the current time 20 (55 in a
    debug build), which is on the scale, the interactive bucket is the
    [Never] sentinel, and the inferred priority is [IdlePriority].  The
    same happens at the binary64 number next above 26, since the code
    rounds the value it hands to [ceiling]. *)
Lemma inferPriority_interactive_at_Never :
  0 <= 20 /\ 20 < MAGIC_NUMBER_OFFSET /\
  computeInteractiveExpiration false 20 == Never /\
  inferPriorityFromExpirationTime false 20 (computeInteractiveExpiration false 20)
  = IdlePriority /\
  0 <= 55 /\ 55 < MAGIC_NUMBER_OFFSET /\
  computeInteractiveExpiration true 55 == Never /\
  inferPriorityFromExpirationTime true 55 (computeInteractiveExpiration true 55)
  = IdlePriority /\
  fl (26 + (1 # 281474976710656)) == 26 + (1 # 281474976710656) /\
  inferPriorityFromExpirationTime false (26 + (1 # 281474976710656))
    (computeInteractiveExpiration false (26 + (1 # 281474976710656)))
  = IdlePriority.
Proof.
  repeat split; try (vm_compute; reflexivity); vm_compute; discriminate.
Qed.

(** C4 (amended): for a whole current time on the scale
    ([0 <= currentTime <= MAGIC_NUMBER_OFFSET]) other than those with
    [16 < currentTime <= 26] (production; [51 < currentTime <= 61] in a
    debug build), where the interactive expiration time is the [Never]
    sentinel, the priority inferred from the interactive expiration time
    is [UserBlockingPriority]; for every whole current time on the scale
    the priority inferred from the async expiration time is
    [NormalPriority]; and at every current time [Sync] gives
    [ImmediatePriority] and [Never] gives [IdlePriority]. *)
Theorem inferPriority_roundtrip (__DEV__ : bool) (currentTime : Z) :
  (0 <= currentTime <= 1073741821)%Z ->
  (~ (neverWindowStart __DEV__ < inject_Z currentTime /\
      inject_Z currentTime <= neverWindowStart __DEV__ + 10) ->
   inferPriorityFromExpirationTime __DEV__ (inject_Z currentTime)
     (computeInteractiveExpiration __DEV__ (inject_Z currentTime))
   = UserBlockingPriority) /\
  inferPriorityFromExpirationTime __DEV__ (inject_Z currentTime)
    (computeAsyncExpiration (inject_Z currentTime)) = NormalPriority /\
  (forall now : Q,
     inferPriorityFromExpirationTime __DEV__ now Sync = ImmediatePriority /\
     inferPriorityFromExpirationTime __DEV__ now Never = IdlePriority).
Proof.
  intros Hc. split; [|split].
  - now apply inferPriority_interactive.
  - now apply inferPriority_async.
  - intros now. split; reflexivity.
Qed.

Lemma inferPriority_roundtrip_witness :
  inferPriorityFromExpirationTime false (inject_Z 1000)
    (computeInteractiveExpiration false (inject_Z 1000)) = UserBlockingPriority /\
  inferPriorityFromExpirationTime false (inject_Z 1000)
    (computeAsyncExpiration (inject_Z 1000)) = NormalPriority /\
  inferPriorityFromExpirationTime false (inject_Z 1000) Sync = ImmediatePriority /\
  inferPriorityFromExpirationTime false (inject_Z 1000) Never = IdlePriority.
Proof.
  assert (Hc : (0 <= 1000 <= 1073741821)%Z) by lia.
  destruct (inferPriority_roundtrip false 1000 Hc) as (Hout & Hasync & Hs).
  split; [|split; [exact Hasync|exact (Hs (inject_Z 1000))]].
  apply Hout. intros [_ H]. vm_compute in H. apply H. reflexivity.
Defined.

End ExpirationTimeFacts.
(** ** Facts about the naive branch *)

Module FallbackFacts.
Import Host Fallback FallbackLoop.

Section Naive.

Context {callback error : Type}.
Variable call :
  callback -> bool -> state callback -> completion error * state callback.

(** [_flushCallback] with a callback stored: the callback is called in
    the state as it is, the handler ends as the call ends, and
    [_callback] is [null] afterwards. *)
Lemma _flushCallback_stored (didTimeout : bool) (s : state callback) (cb : callback) :
  _callback s = Some cb ->
  invoked (_flushCallback call didTimeout s) = Some (cb, didTimeout) /\
  result (_flushCallback call didTimeout s) = fst (call cb didTimeout s) /\
  after (_flushCallback call didTimeout s)
  = set__callback None (snd (call cb didTimeout s)).
Proof.
  intros Hcb. unfold _flushCallback. rewrite Hcb.
  destruct (call cb didTimeout s) as [c s']. repeat split.
Qed.

(** With a callback stored, a registration is put off and nothing else
    changes. *)
Lemma requestHostCallback_stored
    (cb f : callback) (ms : option Q) (s : state callback) :
  _callback s = Some f ->
  requestHostCallback cb ms s = setTimeout (RequestHostCallbackTimer cb) s.
Proof. intros Hf. unfold requestHostCallback. now rewrite Hf. Qed.

Lemma first_flush (l : list (timer callback)) (b : bool) :
  In (FlushCallbackTimer b) l ->
  exists (pre : list (timer callback)) (b' : bool) (post : list (timer callback)),
    l = pre ++ FlushCallbackTimer b' :: post /\ Forall isRequest pre.
Proof.
  induction l as [|t l IH]; intros Hin; [destruct Hin|].
  destruct t as [b'|cb].
  - exists [], b', l. split; [reflexivity|constructor].
  - destruct Hin as [Hd|Hin]; [discriminate Hd|].
    destruct (IH Hin) as (pre & b' & post & -> & Hpre).
    exists (RequestHostCallbackTimer cb :: pre), b', post.
    split; [reflexivity|]. constructor; [exact I|exact Hpre].
Qed.

Lemma fireTimers_S (n : nat) (s : state callback) :
  fst (fireTimers call (S n) s) =
  match fireTimer call s with
  | None => []
  | Some o =>
      match invoked o with
      | Some c => c :: fst (fireTimers call n (after o))
      | None => fst (fireTimers call n (after o))
      end
  end.
Proof.
  simpl. destruct (fireTimer call s) as [o|]; [|reflexivity].
  destruct (fireTimers call n (after o)) as [calls s']. simpl.
  destruct (invoked o); reflexivity.
Qed.

(** While a callback is stored, the timers up to and including the first
    flush timer call that callback and no other. *)
Lemma fireTimers_until_flush (pre : list (timer callback)) :
  Forall isRequest pre ->
  forall (post : list (timer callback)) (b : bool) (f : callback) (s : state callback),
    _callback s = Some f ->
    timers s = pre ++ FlushCallbackTimer b :: post ->
    fst (fireTimers call (S (length pre)) s) = [(f, b)].
Proof.
  induction 1 as [|t pre Ht Hpre IH]; intros post b f s Hf Htimers;
    rewrite fireTimers_S; unfold fireTimer; rewrite Htimers; cbn [app]; cbv zeta.
  - set (s0 := {| _callback := _callback s; timers := post |}).
    destruct (_flushCallback_stored b s0 f Hf) as (Hi & _ & _).
    now rewrite Hi.
  - destruct t as [b'|cb]; [destruct Ht|].
    set (s0 := {| _callback := _callback s;
                  timers := pre ++ FlushCallbackTimer b :: post |}).
    rewrite (requestHostCallback_stored cb f None s0 Hf).
    cbn [quiet after invoked].
    apply (IH (post ++ [RequestHostCallbackTimer cb])); [exact Hf|].
    simpl. now rewrite <- app_assoc.
Qed.

Lemma fireTimers_add (n m : nat) :
  forall s : state callback,
    fireTimers call (n + m) s =
    let (c1, s1) := fireTimers call n s in
    let (c2, s2) := fireTimers call m s1 in
    (c1 ++ c2, s2).
Proof.
  induction n as [|n IH]; intros s.
  - simpl. now destruct (fireTimers call m s).
  - simpl. destruct (fireTimer call s) as [o|] eqn:Ho.
    + rewrite IH. destruct (fireTimers call n (after o)) as [c1 s1].
      destruct (fireTimers call m s1) as [c2 s2].
      now destruct (invoked o).
    + destruct m as [|m]; simpl; [reflexivity|]. now rewrite Ho.
Qed.

Lemma fireTimers_quiet (n : nat) (s s' : state callback) :
  fireTimer call s = Some (quiet s') ->
  fireTimers call (S n) s = fireTimers call n s'.
Proof.
  intros H. simpl. rewrite H. cbn [after invoked quiet].
  now destruct (fireTimers call n s').
Qed.




End Naive.



End FallbackFacts.
(** ** Facts about the frame-negotiating branch *)

Module DomFacts.
Import Host JSNumber JSNumberFacts Dom.

Section Frames.

Context {callback error : Type}.
Variable call : callback -> bool -> state callback -> completion error * state callback.

(** [requestAnimationFrameWithTimeout] registers one frame request and
    one timer, and touches nothing but the two handles and the host. *)
Lemma requestAnimationFrameWithTimeout_browser (s : state callback) :
  let b := browser s in
  browser (requestAnimationFrameWithTimeout s) =
  {| nextHandle := S (S (nextHandle b));
     animationFrames := animationFrames b ++ [nextHandle b];
     timeouts := timeouts b ++ [S (nextHandle b)];
     messages := messages b |}.
Proof. reflexivity. Qed.



(** What [animationTick] leaves in the three frame variables when a
    callback is pending. *)
Lemma animationTick_pending (rafTime : Q) (s : state callback) (cb : callback) :
  scheduledHostCallback s = Some cb ->
  let nextFrameTime := add (sub rafTime (frameDeadline s)) (activeFrameTime s) in
  let faster :=
    ltb nextFrameTime (activeFrameTime s)
    && ltb (previousFrameTime s) (activeFrameTime s)
    && negb (fpsLocked s) in
  let floored := if ltb nextFrameTime 8 then 8 else nextFrameTime in
  activeFrameTime (animationTick rafTime s)
  = (if faster
     then if ltb floored (previousFrameTime s) then previousFrameTime s else floored
     else activeFrameTime s) /\
  previousFrameTime (animationTick rafTime s)
  = (if faster then previousFrameTime s else nextFrameTime) /\
  frameDeadline (animationTick rafTime s)
  = add rafTime (activeFrameTime (animationTick rafTime s)).
Proof.
  intros Hcb nextFrameTime faster floored. unfold animationTick. rewrite Hcb.
  change (frameDeadline (requestAnimationFrameWithTimeout s)) with (frameDeadline s).
  change (activeFrameTime (requestAnimationFrameWithTimeout s)) with (activeFrameTime s).
  change (previousFrameTime (requestAnimationFrameWithTimeout s))
    with (previousFrameTime s).
  change (fpsLocked (requestAnimationFrameWithTimeout s)) with (fpsLocked s).
  fold nextFrameTime. fold faster. cbv zeta. fold floored.
  destruct faster;
    match goal with
    | |- context [negb (isMessageEventScheduled ?t)] =>
        destruct (negb (isMessageEventScheduled t))
    end; repeat split.
Qed.

(** The larger of two frame times, but at least 8, as the source
    computes it. *)
Lemma max_floored (next prev : Q) :
  (let floored := if ltb next 8 then 8 else next in
   if ltb floored prev then prev else floored)
  == Qmax (Qmax next prev) 8.
Proof.
  cbv zeta.
  destruct (Q.max_spec next prev) as [[M1 M2]|[M1 M2]];
    destruct (Q.max_spec (Qmax next prev) 8) as [[M3 M4]|[M3 M4]];
    rewrite M4; try rewrite M2; rewrite M2 in M3;
    destruct (ltb_spec next 8) as [H8|H8];
    match goal with
    | |- (if ltb ?a ?b then _ else _) == _ => destruct (ltb_spec a b) as [Hc|Hc]
    end; lra.
Qed.

(** C6: [animationTick(rafTime)] with a callback pending computes
    [nextFrameTime = rafTime - frameDeadline + activeFrameTime], the
    difference and the sum being those of binary64 ([sub], [add]); when
    [fpsLocked] is false and [nextFrameTime] and [previousFrameTime] are
    both below [activeFrameTime], [activeFrameTime] becomes the larger of
    the two, but at least 8, and [previousFrameTime] stays; otherwise
    [previousFrameTime] becomes [nextFrameTime] and [activeFrameTime]
    stays; in both cases [frameDeadline] becomes the binary64 sum of
    [rafTime] and the new [activeFrameTime]. *)
Theorem animationTick_frame_times (rafTime : Q) (s : state callback) (cb : callback) :
  scheduledHostCallback s = Some cb ->
  let nextFrameTime := add (sub rafTime (frameDeadline s)) (activeFrameTime s) in
  let faster :=
    fpsLocked s = false /\
    nextFrameTime < activeFrameTime s /\
    previousFrameTime s < activeFrameTime s in
  (faster ->
   activeFrameTime (animationTick rafTime s)
   == Qmax (Qmax nextFrameTime (previousFrameTime s)) 8 /\
   previousFrameTime (animationTick rafTime s) = previousFrameTime s) /\
  (~ faster ->
   previousFrameTime (animationTick rafTime s) = nextFrameTime /\
   activeFrameTime (animationTick rafTime s) = activeFrameTime s) /\
  frameDeadline (animationTick rafTime s)
  = add rafTime (activeFrameTime (animationTick rafTime s)).
Proof.
  intros Hcb nextFrameTime faster.
  destruct (animationTick_pending rafTime s cb Hcb) as (Ha & Hp & Hd).
  fold nextFrameTime in Ha, Hp. cbv zeta in Ha, Hp.
  split; [|split; [|exact Hd]].
  - intros (Hl & Hn & Hv).
    rewrite Ha, Hp, Hl, (ltb_true _ _ Hn), (ltb_true _ _ Hv). simpl andb. cbv iota.
    split; [apply max_floored | reflexivity].
  - intros Hnot. rewrite Ha, Hp.
    destruct (ltb_spec nextFrameTime (activeFrameTime s)) as [Hn|Hn];
      destruct (ltb_spec (previousFrameTime s) (activeFrameTime s)) as [Hv|Hv];
      destruct (fpsLocked s) eqn:Hl; simpl; try (split; reflexivity).
    exfalso. apply Hnot. repeat split; assumption.
Qed.

(** [onmessage], branch by branch. *)
Lemma onmessage_unfold (now : Q) (s : state callback) :
  onmessage call now s =
  let flush (didTimeout : bool) :=
    match scheduledHostCallback s with
    | Some cb =>
        let (c, s') := call cb didTimeout (atFlush s) in
        {| invoked := Some (cb, didTimeout); result := c;
           after := set_isFlushingHostCallback false s' |}
    | None => quiet (dequeued s)
    end in
  if leb (frameDeadline s - now) 0 then
    if negb (eqb (timeoutTime s) (-1)) && leb (timeoutTime s) now then flush true
    else
      quiet
        (set_timeoutTime (timeoutTime s)
           (set_scheduledHostCallback (scheduledHostCallback s)
              (if negb (isAnimationFrameScheduled s)
               then requestAnimationFrameWithTimeout
                      (set_isAnimationFrameScheduled true (dequeued s))
               else dequeued s)))
  else flush false.
Proof. unfold onmessage. rewrite leb_sub_0. reflexivity. Qed.

(** C5: when the message handler fires with a callback pending, the
    frame is used up when the binary64 difference
    [frameDeadline - currentTime] is at most 0, which is when
    [frameDeadline <= currentTime]; the timeout has passed when
    [timeoutTime !== -1] and [timeoutTime <= currentTime].  The handler
    calls the callback with [didTimeout = true] exactly when the frame is
    used up and the timeout has passed, and with [didTimeout = false]
    when the frame is not used up; either way the callback runs in the
    state [atFlush], with nothing pending and the flushing flag up, the
    handler ends as the call ends, and the flag is down afterwards.
    When the frame is used up and the timeout has not passed, the
    handler calls nothing, puts the callback and its timeout back, and
    requests an animation frame (with its timer) unless one is already
    scheduled. *)
Theorem onmessage_didTimeout (currentTime : Q) (s : state callback) (cb : callback) :
  scheduledHostCallback s = Some cb ->
  let o := onmessage call currentTime s in
  let exhausted := sub (frameDeadline s) currentTime <= 0 in
  let timedOut := ~ timeoutTime s == -1 /\ timeoutTime s <= currentTime in
  let called (didTimeout : bool) :=
    invoked o = Some (cb, didTimeout) /\
    result o = fst (call cb didTimeout (atFlush s)) /\
    after o = set_isFlushingHostCallback false (snd (call cb didTimeout (atFlush s))) in
  (exhausted <-> frameDeadline s <= currentTime) /\
  (invoked o = Some (cb, true) <-> exhausted /\ timedOut) /\
  (exhausted /\ timedOut -> called true) /\
  (exhausted /\ ~ timedOut ->
   invoked o = None /\ result o = Returned /\
   after o
   = set_timeoutTime (timeoutTime s)
       (set_scheduledHostCallback (Some cb)
          (if isAnimationFrameScheduled s then dequeued s
           else requestAnimationFrameWithTimeout
                  (set_isAnimationFrameScheduled true (dequeued s)))) /\
   scheduledHostCallback (after o) = Some cb /\
   timeoutTime (after o) = timeoutTime s /\
   isMessageEventScheduled (after o) = false /\
   isFlushingHostCallback (after o) = isFlushingHostCallback s /\
   isAnimationFrameScheduled (after o) = true /\
   (isAnimationFrameScheduled s = false ->
    rAFID (after o) = Some (nextHandle (browser s)) /\
    rAFTimeoutID (after o) = Some (S (nextHandle (browser s))) /\
    animationFrames (browser (after o))
    = animationFrames (browser s) ++ [nextHandle (browser s)] /\
    timeouts (browser (after o))
    = timeouts (browser s) ++ [S (nextHandle (browser s))]) /\
   (isAnimationFrameScheduled s = true -> browser (after o) = browser s)) /\
  (~ exhausted -> called false) /\
  (atFlush s
   = set_isFlushingHostCallback true
       (set_timeoutTime (-1)
          (set_scheduledHostCallback None (set_isMessageEventScheduled false s))) /\
   scheduledHostCallback (atFlush s) = None /\
   timeoutTime (atFlush s) = -1 /\
   isMessageEventScheduled (atFlush s) = false /\
   isFlushingHostCallback (atFlush s) = true).
Proof.
  intros Hcb o exhausted timedOut called.
  assert (Hex : exhausted <-> frameDeadline s - currentTime <= 0).
  { unfold exhausted, sub. split; intros H.
    - destruct (Qlt_le_dec 0 (frameDeadline s - currentTime)) as [Hp|Hn]; [|exact Hn].
      apply fl_positive in Hp. lra.
    - now apply fl_nonpos. }
  assert (Hcalled : forall d : bool,
             (let flush (didTimeout : bool) :=
                let (c, s') := call cb didTimeout (atFlush s) in
                {| invoked := Some (cb, didTimeout); result := c;
                   after := set_isFlushingHostCallback false s' |} in
              o = flush d) -> called d).
  { intros d Ho. unfold called. rewrite Ho. cbv zeta.
    now destruct (call cb d (atFlush s)) as [c s']. }
  split; [rewrite Hex; split; intros H; lra|].
  assert (Ho : o = onmessage call currentTime s) by reflexivity.
  rewrite onmessage_unfold, Hcb in Ho. cbv zeta in Ho.
  destruct (leb_spec (frameDeadline s - currentTime) 0) as [He|He].
  - destruct (eqb_spec (timeoutTime s) (-1)) as [Hm|Hm];
      destruct (leb_spec (timeoutTime s) currentTime) as [Ht|Ht];
      simpl andb in Ho; cbv iota in Ho.
    + rewrite Ho. unfold timedOut.
      split; [split; [discriminate|tauto]|]. split; [tauto|]. split; [|tauto].
      intros _. destruct (isAnimationFrameScheduled s) eqn:Ha; simpl;
        repeat split; congruence.
    + rewrite Ho. unfold timedOut.
      split; [split; [discriminate|tauto]|]. split; [tauto|]. split; [|tauto].
      intros _. destruct (isAnimationFrameScheduled s) eqn:Ha; simpl;
        repeat split; congruence.
    + pose proof (Hcalled true Ho) as Hc. unfold timedOut.
      split; [split; [tauto|intros _; apply Hc]|].
      split; [intros _; exact Hc|]. split; [tauto|].
      split; [tauto|repeat split].
    + rewrite Ho. unfold timedOut.
      split; [split; [discriminate|tauto]|]. split; [tauto|]. split; [|tauto].
      intros _. destruct (isAnimationFrameScheduled s) eqn:Ha; simpl;
        repeat split; congruence.
  - pose proof (Hcalled false Ho) as Hc.
    assert (Hne : ~ exhausted) by (rewrite Hex; lra).
    split; [split; [|tauto]|].
    { intros H. destruct Hc as [Hi _]. rewrite Hi in H. discriminate H. }
    split; [tauto|]. split; [tauto|]. split; [intros _; exact Hc|repeat split].
Qed.

(** When [onmessage] calls a callback, it is the one that was pending; it
    is called in [atFlush]; the handler ends as the call ends, with the
    flushing flag down again. *)
Lemma onmessage_flush (now : Q) (s : state callback) (cb : callback) (b : bool) :
  invoked (onmessage call now s) = Some (cb, b) ->
  scheduledHostCallback s = Some cb /\
  result (onmessage call now s) = fst (call cb b (atFlush s)) /\
  after (onmessage call now s)
  = set_isFlushingHostCallback false (snd (call cb b (atFlush s))).
Proof.
  rewrite onmessage_unfold. cbv zeta.
  destruct (scheduledHostCallback s) as [cb'|] eqn:Hcb.
  - destruct (leb (frameDeadline s - now) 0);
      [destruct (negb (eqb (timeoutTime s) (-1)) && leb (timeoutTime s) now)|];
      try (simpl; discriminate);
      match goal with
      | |- context [call cb' ?d (atFlush s)] =>
          destruct (call cb' d (atFlush s)) as [c s'] eqn:Hc
      end; simpl; intros [= <- <-]; rewrite Hc; repeat split.
  - destruct (leb (frameDeadline s - now) 0);
      [destruct (negb (eqb (timeoutTime s) (-1)) && leb (timeoutTime s) now)|];
      simpl; discriminate.
Qed.

(** When [onmessage] calls nothing, the pending callback is the one that
    was pending. *)
Lemma onmessage_quiet (now : Q) (s : state callback) :
  invoked (onmessage call now s) = None ->
  scheduledHostCallback (after (onmessage call now s)) = scheduledHostCallback s.
Proof.
  rewrite onmessage_unfold. cbv zeta.
  destruct (scheduledHostCallback s) as [cb'|] eqn:Hcb;
    (destruct (leb (frameDeadline s - now) 0);
     [destruct (negb (eqb (timeoutTime s) (-1)) && leb (timeoutTime s) now)|]);
    try match goal with
      | |- context [call cb' ?d (atFlush s)] =>
          destruct (call cb' d (atFlush s)) as [c s'] eqn:Hc
      end; simpl; try discriminate; intros _;
    try (destruct (isAnimationFrameScheduled s); reflexivity); reflexivity.
Qed.

(** *** Two registrations in a row *)

Lemma requestAnimationFrameWithTimeout_scheduledHostCallback (s : state callback) :
  scheduledHostCallback (requestAnimationFrameWithTimeout s) = scheduledHostCallback s.
Proof. reflexivity. Qed.

Lemma animationTick_scheduledHostCallback (rafTime : Q) (s : state callback) :
  scheduledHostCallback (animationTick rafTime s) = scheduledHostCallback s.
Proof.
  unfold animationTick. destruct (scheduledHostCallback s) eqn:Hcb; [|exact Hcb].
  cbv zeta.
  repeat match goal with
         | |- context [if ?c then _ else _] => destruct c
         end; exact Hcb.
Qed.

Lemma requestHostCallback_pending (cb : callback) (t : Q) (s : state callback) :
  scheduledHostCallback (requestHostCallback cb t s) = Some cb /\
  timeoutTime (requestHostCallback cb t s) = t.
Proof.
  unfold requestHostCallback. cbv zeta.
  repeat match goal with
         | |- context [if ?c then _ else _] => destruct c
         end; split; reflexivity.
Qed.

(** A tick that calls a callback calls the pending one. *)
Lemma fire_invoked (t : tick) (s : state callback)
    (o : outcome callback error (state callback)) (cb : callback) (b : bool) :
  fire call t s = Some o -> invoked o = Some (cb, b) ->
  scheduledHostCallback s = Some cb.
Proof.
  destruct t as [id ts|id now|now]; simpl.
  - destruct (isPending id _); [|discriminate]. intros [= <-]. discriminate.
  - destruct (isPending id _); [|discriminate]. intros [= <-]. discriminate.
  - destruct (messages (browser s)); [discriminate|]. intros [= <-] Hi.
    apply onmessage_flush in Hi. apply Hi.
Qed.

(** A tick that calls nothing leaves the pending callback pending. *)
Lemma fire_quiet (t : tick) (s : state callback)
    (o : outcome callback error (state callback)) :
  fire call t s = Some o -> invoked o = None ->
  scheduledHostCallback (after o) = scheduledHostCallback s.
Proof.
  destruct t as [id ts|id now|now]; simpl.
  - destruct (isPending id _); [|discriminate]. intros [= <-] _. simpl.
    unfold animationFrame. now rewrite animationTick_scheduledHostCallback.
  - destruct (isPending id _); [|discriminate]. intros [= <-] _. simpl.
    unfold animationFrameTimeout. now rewrite animationTick_scheduledHostCallback.
  - destruct (messages (browser s)); [discriminate|]. intros [= <-] Hi.
    now rewrite onmessage_quiet.
Qed.

(** After a tick that called the pending callback, what is pending is
    what the body of the callback left pending. *)
Lemma fire_flushed (t : tick) (s : state callback)
    (o : outcome callback error (state callback)) (cb : callback) (b : bool) :
  fire call t s = Some o -> invoked o = Some (cb, b) ->
  exists s1 : state callback,
    scheduledHostCallback s1 = None /\
    scheduledHostCallback (after o) = scheduledHostCallback (snd (call cb b s1)).
Proof.
  destruct t as [id ts|id now|now]; simpl.
  - destruct (isPending id _); [|discriminate]. intros [= <-]. discriminate.
  - destruct (isPending id _); [|discriminate]. intros [= <-]. discriminate.
  - destruct (messages (browser s)); [discriminate|]. intros [= <-] Hi.
    apply onmessage_flush in Hi. destruct Hi as (_ & _ & ->).
    eexists. split; [|reflexivity]. reflexivity.
Qed.

Lemma run_cons (t : tick) (ts : list tick) (s : state callback) :
  fst (run call (t :: ts) s) =
  match fire call t s with
  | None => fst (run call ts s)
  | Some o =>
      match invoked o with
      | Some c => c :: fst (run call ts (after o))
      | None => fst (run call ts (after o))
      end
  end.
Proof.
  simpl. destruct (fire call t s) as [o|]; [|reflexivity].
  destruct (run call ts (after o)) as [calls s']. simpl.
  destruct (invoked o); reflexivity.
Qed.

Lemma run_cons_state (t : tick) (ts : list tick) (s : state callback) :
  snd (run call (t :: ts) s) =
  match fire call t s with
  | None => snd (run call ts s)
  | Some o => snd (run call ts (after o))
  end.
Proof.
  simpl. destruct (fire call t s) as [o|]; [|reflexivity].
  now destruct (run call ts (after o)) as [calls s'].
Qed.

(** Whatever ticks follow, the first callback that is called is the one
    that is pending now. *)
Lemma run_first_call (ts : list tick) :
  forall (s : state callback) (f : callback),
    scheduledHostCallback s = Some f ->
    match fst (run call ts s) with
    | [] => True
    | (cb, _) :: _ => cb = f
    end.
Proof.
  induction ts as [|t ts IH]; intros s f Hf; [exact I|].
  rewrite run_cons. destruct (fire call t s) as [o|] eqn:Ho; [|now apply IH].
  destruct (invoked o) as [[cb b]|] eqn:Hi.
  - pose proof (fire_invoked t s o cb b Ho Hi) as Hcb. congruence.
  - apply IH. rewrite (fire_quiet t s o Ho Hi). exact Hf.
Qed.

Lemma run_idle (ts : list tick) :
  registersNothing call ->
  forall s : state callback,
    scheduledHostCallback s = None -> fst (run call ts s) = [].
Proof.
  intros Hreg. induction ts as [|t ts IH]; intros s Hs; [reflexivity|].
  rewrite run_cons. destruct (fire call t s) as [o|] eqn:Ho; [|now apply IH].
  destruct (invoked o) as [[cb b]|] eqn:Hi.
  - pose proof (fire_invoked t s o cb b Ho Hi) as Hcb. congruence.
  - apply IH. rewrite (fire_quiet t s o Ho Hi). exact Hs.
Qed.

(** As long as no callback has been called, the pending one is still
    pending. *)
Lemma run_uncalled (ts : list tick) :
  forall s : state callback,
    fst (run call ts s) = [] ->
    scheduledHostCallback (snd (run call ts s)) = scheduledHostCallback s.
Proof.
  induction ts as [|t ts IH]; intros s Hr; [reflexivity|].
  rewrite run_cons in Hr. rewrite run_cons_state.
  destruct (fire call t s) as [o|] eqn:Ho; [|now apply IH].
  destruct (invoked o) as [[cb b]|] eqn:Hi; [discriminate Hr|].
  rewrite (IH _ Hr). exact (fire_quiet t s o Ho Hi).
Qed.

Lemma run_once (ts : list tick) :
  registersNothing call ->
  forall (s : state callback) (f : callback),
    scheduledHostCallback s = Some f ->
    fst (run call ts s) = [] \/ exists b : bool, fst (run call ts s) = [(f, b)].
Proof.
  intros Hreg. induction ts as [|t ts IH]; intros s f Hf; [now left|].
  rewrite run_cons. destruct (fire call t s) as [o|] eqn:Ho; [|now apply IH].
  destruct (invoked o) as [[cb b]|] eqn:Hi.
  - pose proof (fire_invoked t s o cb b Ho Hi) as Hcb.
    destruct (fire_flushed t s o cb b Ho Hi) as (s1 & Hs1 & Hafter).
    right. exists b. rewrite run_idle; [congruence|exact Hreg|].
    rewrite Hafter. now apply Hreg.
  - apply IH. rewrite (fire_quiet t s o Ho Hi). exact Hf.
Qed.

End Frames.


(** Frames at 0, 16.7 and 33.4, the times being the binary64 numbers of
    these names: the third frame leaves the deadline
    50.099999999999994, not 50.1. *)
Lemma animationTick_frame_times_witness :
  let t1 := fl 16.7 in
  let t2 := fl 33.4 in
  let s : state nat :=
    animationTick t1 (animationTick 0 (requestHostCallback 7%nat 100 initial)) in
  scheduledHostCallback s = Some 7%nat /\
  (fpsLocked s = false /\
   add (sub t2 (frameDeadline s)) (activeFrameTime s) < activeFrameTime s /\
   previousFrameTime s < activeFrameTime s) /\
  activeFrameTime (animationTick t2 s)
  == Qmax (Qmax (add (sub t2 (frameDeadline s)) (activeFrameTime s))
             (previousFrameTime s)) 8 /\
  previousFrameTime (animationTick t2 s) = previousFrameTime s /\
  frameDeadline (animationTick t2 s) = add t2 (activeFrameTime (animationTick t2 s)) /\
  activeFrameTime (animationTick t2 s) == t1 /\
  frameDeadline (animationTick t2 s) == 1762737041650483 # 35184372088832.
Proof.
  intros t1 t2 s.
  assert (Hcb : scheduledHostCallback s = Some 7%nat) by reflexivity.
  assert (Hfast : fpsLocked s = false /\
                  add (sub t2 (frameDeadline s)) (activeFrameTime s) < activeFrameTime s /\
                  previousFrameTime s < activeFrameTime s)
    by (repeat split; vm_compute; reflexivity).
  destruct (animationTick_frame_times t2 s 7%nat Hcb) as (Hf & _ & Hd).
  destruct (Hf Hfast) as (Ha & Hp).
  split; [exact Hcb|]. split; [exact Hfast|].
  split; [exact Ha|]. split; [exact Hp|]. split; [exact Hd|].
  split; vm_compute; reflexivity.
Defined.

Lemma onmessage_didTimeout_witness :
  let s : state nat := animationTick 0 (requestHostCallback 7%nat 50 initial) in
  scheduledHostCallback s = Some 7%nat /\
  (sub (frameDeadline s) 60 <= 0 /\ ~ timeoutTime s == -1 /\ timeoutTime s <= 60) /\
  invoked (onmessage (@returns nat unit _) 60 s) = Some (7%nat, true) /\
  after (onmessage (@returns nat unit _) 60 s)
  = set_isFlushingHostCallback false (atFlush s) /\
  (~ sub (frameDeadline s) 10 <= 0) /\
  invoked (onmessage (@returns nat unit _) 10 s) = Some (7%nat, false) /\
  scheduledHostCallback (after (onmessage (@returns nat unit _) 10 s)) = None.
Proof.
  intros s.
  assert (Hcb : scheduledHostCallback s = Some 7%nat) by reflexivity.
  assert (Hlate : sub (frameDeadline s) 60 <= 0 /\
                  ~ timeoutTime s == -1 /\ timeoutTime s <= 60).
  { split; [|split]; intros H; vm_compute in H; discriminate H. }
  assert (Hearly : ~ sub (frameDeadline s) 10 <= 0).
  { intros H. vm_compute in H. apply H. reflexivity. }
  destruct (onmessage_didTimeout (@returns nat unit _) 60 s 7%nat Hcb)
    as (_ & _ & Ht & _).
  destruct (onmessage_didTimeout (@returns nat unit _) 10 s 7%nat Hcb)
    as (_ & _ & _ & _ & Hf & _).
  destruct (Ht Hlate) as (Hi & _ & Ha).
  destruct (Hf Hearly) as (Hi' & _ & Ha').
  split; [exact Hcb|]. split; [exact Hlate|].
  split; [exact Hi|]. split; [exact Ha|]. split; [exact Hearly|].
  split; [exact Hi'|]. rewrite Ha'. reflexivity.
Defined.

Lemma returns_registersNothing :
  registersNothing (@returns nat unit (state nat)).
Proof. intros cb b s Hs. exact Hs. Defined.

End DomFacts.

(** ** Facts about the module as it is loaded *)

Module HostConfigFacts.
Import Host JSNumber JSNumberFacts HostConfig.

(** C1: the module takes the frame-negotiating branch exactly when
    [window] and [MessageChannel] both exist; there,
    [shouldYieldToHost()] is true exactly when [frameDeadline] is at or
    before the reading of the clock, whatever the state; in the naive
    branch it is false, whatever the state and the clock. *)
Theorem shouldYieldToHost_deadline
    (callback : Type) (env : environment) (d : driver callback) (now : Q) :
  @load callback env =
  (if has_window env && has_MessageChannel env
   then FrameDriver Dom.initial else NaiveDriver Fallback.initial) /\
  match d with
  | FrameDriver s => shouldYieldToHost d now = true <-> Dom.frameDeadline s <= now
  | NaiveDriver _ => shouldYieldToHost d now = false
  end.
Proof.
  split.
  - unfold load, naive. destruct (has_window env), (has_MessageChannel env); reflexivity.
  - destruct d as [s|s]; [reflexivity|].
    simpl. unfold Dom.shouldYieldToHost.
    destruct (leb_spec (Dom.frameDeadline s) now) as [H|H]; split; intros H';
      try reflexivity; try assumption; try discriminate. lra.
Qed.



(** C7, as the claim has it, fails in the naive branch: after
    [requestHostCallback(1, 100)] and [requestHostCallback(2, 200)] on a
    freshly loaded module, the callback held is 1, not 2, and the timers
    that are pending call 1 first, then 2. *)
Lemma requestHostCallback_twice_naive :
  let d0 : driver nat := load {| has_window := false; has_MessageChannel := false |} in
  let d2 := requestHostCallback 2%nat 200 (requestHostCallback 1%nat 100 d0) in
  pending d2 = Some 1%nat /\
  pending d2 <> Some 2%nat /\
  exists s2 : Fallback.state nat,
    d2 = NaiveDriver s2 /\
    fst (Fallback.fireTimers (@returns nat unit _) 3 s2)
    = [(1%nat, false); (2%nat, false)].
Proof.
  intros d0 d2. split; [reflexivity|]. split; [discriminate|].
  eexists. split; reflexivity.
Qed.

End HostConfigFacts.


(** ** Further laws of the expiration times *)

Module ExpirationTimeLaws.
Import JSNumber JSNumberFacts ExpirationTime Formula ExpirationTimeFacts.

(** An order between two numerals, by computation. *)
Ltac closed_Q := vm_compute; first [reflexivity | discriminate].

(** X1: converting a delay to an expiration time and back rounds it down
    to a whole number of 10 ms units: the result is [10 * floor(ms / 10)],
    at most [ms] and more than [ms - 10]. *)
Theorem expirationTimeToMs_msToExpirationTime (ms : Q) :
  0 <= ms -> ms < 21474836480 ->
  expirationTimeToMs (msToExpirationTime ms)
  == inject_Z (Qfloor (ms / UNIT_SIZE)) * 10 /\
  ms - 10 < expirationTimeToMs (msToExpirationTime ms) /\
  expirationTimeToMs (msToExpirationTime ms) <= ms.
Proof.
  intros H0 H1. rewrite (msToExpirationTime_whole ms H0 H1).
  assert (Hq : 0 <= ms / UNIT_SIZE /\ ms / UNIT_SIZE < 2147483648)
    by (rewrite div_UNIT_SIZE; split; lra).
  pose proof (Qfloor_nonneg _ (proj1 Hq)) as Hk0.
  pose proof (Qfloor_lt_bound _ 2147483648 (proj2 Hq)) as Hk1.
  destruct (Qfloor_bounds (ms / UNIT_SIZE)) as [L U].
  pose proof (div_UNIT_SIZE ms) as E.
  set (k := Qfloor (ms / UNIT_SIZE)) in *.
  rewrite expirationTimeToMs_whole by lia.
  replace ((1073741821 - (1073741821 - k)) * 10)%Z with (k * 10)%Z by lia.
  rewrite inject_Z_mult. change (inject_Z 10) with 10.
  set (q := ms / UNIT_SIZE) in *. set (kq := inject_Z k) in *.
  repeat split; lra.
Qed.

Lemma expirationTimeToMs_msToExpirationTime_witness :
  expirationTimeToMs (msToExpirationTime 157) == inject_Z (Qfloor (157 / UNIT_SIZE)) * 10 /\
  157 - 10 < expirationTimeToMs (msToExpirationTime 157) /\
  expirationTimeToMs (msToExpirationTime 157) <= 157.
Proof. apply (expirationTimeToMs_msToExpirationTime 157); lra. Defined.

(** X2: converting a whole expiration time at or below the offset (and
    less than 2^31 units below it) to milliseconds and back gives it
    back. *)
Theorem msToExpirationTime_expirationTimeToMs (z : Z) :
  (1073741821 - 2147483648 < z <= 1073741821)%Z ->
  msToExpirationTime (expirationTimeToMs (inject_Z z)) == inject_Z z.
Proof.
  intros Hz. rewrite expirationTimeToMs_whole by lia.
  assert (H0 : 0 <= inject_Z ((1073741821 - z) * 10)) by (apply (inject_Z_le 0); lia).
  assert (H1 : inject_Z ((1073741821 - z) * 10) < 21474836480)
    by (apply (inject_Z_lt _ 21474836480); lia).
  rewrite msToExpirationTime_whole by assumption.
  assert (E : inject_Z ((1073741821 - z) * 10) / UNIT_SIZE == inject_Z (1073741821 - z)).
  { rewrite inject_Z_mult. unfold UNIT_SIZE. change (inject_Z 10) with 10. field. }
  rewrite (Qfloor_comp _ _ E), Qfloor_Z.
  now replace (1073741821 - (1073741821 - z))%Z with z by lia.
Qed.

Lemma msToExpirationTime_expirationTimeToMs_witness :
  msToExpirationTime (expirationTimeToMs (inject_Z 981)) == inject_Z 981.
Proof. apply msToExpirationTime_expirationTimeToMs. lia. Defined.

(** X3: an expiration time made from a delay of less than about 124 days
    is none of the reserved values: it lies above [Never] (and so above
    [NoWork]) and at or below the offset, which is below [Batched] and
    [Sync]. *)
Theorem msToExpirationTime_reserved (ms : Q) :
  0 <= ms -> ms < 10737418200 ->
  Never < msToExpirationTime ms /\
  msToExpirationTime ms <= MAGIC_NUMBER_OFFSET /\
  MAGIC_NUMBER_OFFSET < Batched /\ Batched < Sync /\ NoWork < Never.
Proof.
  intros H0 H1. rewrite msToExpirationTime_floor by lra.
  destruct (Qfloor_bounds (ms / UNIT_SIZE)) as [L U].
  pose proof (div_UNIT_SIZE ms) as E.
  pose proof MAGIC_NUMBER_OFFSET_value as HM.
  assert (Hk : (Qfloor (ms / UNIT_SIZE) < 1073741820)%Z).
  { apply Qfloor_lt_bound. unfold inject_Z. lra. }
  assert (Hk0 : (0 <= Qfloor (ms / UNIT_SIZE))%Z).
  { apply Qfloor_nonneg. lra. }
  rewrite Zlt_Qlt in Hk. rewrite Zle_Qle in Hk0. unfold inject_Z at 2 in Hk.
  unfold inject_Z at 1 in Hk0.
  set (k := inject_Z (Qfloor (ms / UNIT_SIZE))) in *.
  set (M := MAGIC_NUMBER_OFFSET) in *.
  unfold Never, NoWork.
  split; [lra|]. split; [lra|].
  repeat split; closed_Q.
Qed.

Lemma msToExpirationTime_reserved_witness :
  Never < msToExpirationTime 5000 /\
  msToExpirationTime 5000 <= MAGIC_NUMBER_OFFSET /\
  MAGIC_NUMBER_OFFSET < Batched /\ Batched < Sync /\ NoWork < Never.
Proof. apply (msToExpirationTime_reserved 5000); lra. Defined.

(** X4: for a whole current time on the scale, a whole timeout of at
    most 10^11 ms and a bucket that is a whole multiple of 10 ms, from
    100 ms to 10^11 ms, the bucketed expiration time, in milliseconds, is
    a whole multiple of the bucket, and it lies more than the timeout and
    at most the timeout plus one bucket after the current time. *)
Theorem computeExpirationBucket_deadline (currentTime expirationInMs bucketUnits : Z) :
  (0 <= currentTime <= 1073741821)%Z ->
  (0 <= expirationInMs <= 100000000000)%Z ->
  (10 <= bucketUnits <= 10000000000)%Z ->
  let bucketSizeMs := inject_Z (10 * bucketUnits) in
  let r := computeExpirationBucket
             (inject_Z currentTime) (inject_Z expirationInMs) bucketSizeMs in
  (exists k : Z, expirationTimeToMs r == inject_Z k * bucketSizeMs) /\
  inject_Z expirationInMs
  < expirationTimeToMs r - expirationTimeToMs (inject_Z currentTime) /\
  expirationTimeToMs r - expirationTimeToMs (inject_Z currentTime)
  <= inject_Z expirationInMs + bucketSizeMs.
Proof.
  intros Hc He Hp bucketSizeMs r. subst bucketSizeMs r.
  rewrite computeExpirationBucket_whole by assumption.
  set (V := (10 * (1073741821 - currentTime) + expirationInMs)%Z).
  set (k := (V / (10 * bucketUnits))%Z).
  assert (Hk : (10 * bucketUnits * k <= V < 10 * bucketUnits * k + 10 * bucketUnits)%Z)
    by (unfold k; Z.div_mod_to_equations; nia).
  assert (HV : (0 <= V <= 110737418210)%Z) by (unfold V; lia).
  assert (Hk0 : (0 <= k)%Z) by nia.
  rewrite !expirationTimeToMs_whole by nia.
  replace ((1073741821 - (1073741821 - (k + 1) * bucketUnits)) * 10)%Z
    with ((k + 1) * (10 * bucketUnits))%Z by lia.
  split; [|split].
  - exists (k + 1)%Z. now rewrite inject_Z_mult.
  - rewrite <- inject_Z_minus. apply inject_Z_lt. unfold V in Hk. lia.
  - rewrite <- inject_Z_minus, <- inject_Z_plus. apply inject_Z_le. unfold V in Hk. lia.
Qed.

Lemma computeExpirationBucket_deadline_witness :
  let r := computeExpirationBucket (inject_Z 1000) (inject_Z 157) (inject_Z (10 * 25)) in
  (exists k : Z, expirationTimeToMs r == inject_Z k * inject_Z (10 * 25)) /\
  inject_Z 157 < expirationTimeToMs r - expirationTimeToMs (inject_Z 1000) /\
  expirationTimeToMs r - expirationTimeToMs (inject_Z 1000)
  <= inject_Z 157 + inject_Z (10 * 25).
Proof. apply (computeExpirationBucket_deadline 1000 157 25); lia. Defined.

(** [computeExpirationBucket] is monotone, whatever its arguments on the
    range are: every operation in it is, rounding included. *)
Lemma computeExpirationBucket_increasing (c1 c2 e1 e2 b : Q) :
  0 <= c1 -> c1 <= c2 -> c2 <= MAGIC_NUMBER_OFFSET ->
  0 <= e2 -> e2 <= e1 -> e1 <= 100000000000 ->
  100 <= b ->
  computeExpirationBucket c1 e1 b <= computeExpirationBucket c2 e2 b.
Proof.
  intros Hc0 Hc12 Hc2 He0 He21 He1 Hb.
  unfold computeExpirationBucket, ceiling.
  rewrite MAGIC_NUMBER_OFFSET_whole in *.
  change (inject_Z 1073741821) with 1073741821 in Hc2.
  (* the precision *)
  assert (Hp : 10 <= div b UNIT_SIZE).
  { apply (fl_ge_Z _ 10); [|simpl; lia].
    rewrite div_UNIT_SIZE. change (inject_Z 10) with 10. lra. }
  set (p := div b UNIT_SIZE) in *.
  (* the values *)
  assert (Hs : 0 <= sub (inject_Z 1073741821) c2 /\
               sub (inject_Z 1073741821) c2 <= sub (inject_Z 1073741821) c1 /\
               sub (inject_Z 1073741821) c1 <= 1073741821).
  { change (inject_Z 1073741821) with 1073741821.
    split; [apply fl_nonneg; lra|]. split; [apply fl_monotone; lra|].
    apply (fl_le_Z _ 1073741821); [change (inject_Z 1073741821) with 1073741821; lra|].
    simpl; lia. }
  set (s1 := sub (inject_Z 1073741821) c1) in *.
  set (s2 := sub (inject_Z 1073741821) c2) in *.
  assert (Hd : 0 <= div e2 UNIT_SIZE /\ div e2 UNIT_SIZE <= div e1 UNIT_SIZE /\
               div e1 UNIT_SIZE <= 10000000000).
  { split; [apply fl_nonneg; rewrite div_UNIT_SIZE; lra|].
    split; [apply fl_monotone; rewrite !div_UNIT_SIZE; lra|].
    apply (fl_le_Z _ 10000000000);
      [rewrite div_UNIT_SIZE; change (inject_Z 10000000000) with 10000000000; lra|].
    simpl; lia. }
  set (d1 := div e1 UNIT_SIZE) in *. set (d2 := div e2 UNIT_SIZE) in *.
  assert (Hv : 0 <= add s2 d2 /\ add s2 d2 <= add s1 d1 /\ add s1 d1 <= 11073741821).
  { split; [apply fl_nonneg; lra|]. split; [apply fl_monotone; lra|].
    apply (fl_le_Z _ 11073741821);
      [change (inject_Z 11073741821) with 11073741821; lra|simpl; lia]. }
  set (v1 := add s1 d1) in *. set (v2 := add s2 d2) in *.
  (* the quotients *)
  assert (Hp0 : 0 < p) by lra.
  assert (Hq : 0 <= div v2 p /\ div v2 p <= div v1 p /\ div v1 p <= 1107374183).
  { split; [|split].
    - apply fl_nonneg. apply Qle_shift_div_l; [exact Hp0|]. lra.
    - apply fl_monotone. unfold Qdiv. apply Qmult_le_compat_r; [lra|].
      apply Qinv_le_0_compat. lra.
    - apply (fl_le_Z _ 1107374183); [|simpl; lia].
      apply Qle_shift_div_r; [exact Hp0|].
      change (inject_Z 1107374183) with 1107374183. lra. }
  set (q1 := div v1 p) in *. set (q2 := div v2 p) in *.
  rewrite (bitor_zero_floor q1), (bitor_zero_floor q2) by lra.
  assert (Hk : (0 <= Qfloor q2 <= Qfloor q1)%Z /\ (Qfloor q1 <= 1107374183)%Z).
  { split; [split|].
    - apply Qfloor_nonneg. lra.
    - apply Qfloor_resp_le. lra.
    - rewrite <- (Qfloor_Z 1107374183). apply Qfloor_resp_le.
      change (inject_Z 1107374183) with 1107374183. lra. }
  set (k1 := Qfloor q1) in *. set (k2 := Qfloor q2) in *.
  change 1 with (inject_Z 1). rewrite !add_Z by lia.
  apply fl_monotone.
  assert (Hm : inject_Z (k2 + 1) * p <= inject_Z (k1 + 1) * p).
  { apply Qmult_le_compat_r; [apply inject_Z_le; lia|lra]. }
  assert (Hmm : mul (inject_Z (k2 + 1)) p <= mul (inject_Z (k1 + 1)) p)
    by (now apply fl_monotone).
  set (m1 := mul (inject_Z (k1 + 1)) p) in *.
  set (m2 := mul (inject_Z (k2 + 1)) p) in *. lra.
Qed.

(** X5: on the range, [computeExpirationBucket] is monotone: a later
    current time on the inverted scale (a larger [currentTime]) never
    gives a smaller expiration time, and a longer timeout never gives a
    larger one. *)
Theorem computeExpirationBucket_monotone (c1 c2 e1 e2 b : Q) :
  0 <= c1 -> c1 <= c2 -> c2 <= MAGIC_NUMBER_OFFSET ->
  0 <= e2 -> e2 <= e1 -> e1 <= 100000000000 ->
  100 <= b ->
  computeExpirationBucket c1 e1 b <= computeExpirationBucket c2 e2 b.
Proof. exact (computeExpirationBucket_increasing c1 c2 e1 e2 b). Qed.

Lemma computeExpirationBucket_monotone_witness :
  computeExpirationBucket 1000 5000 250 <= computeExpirationBucket 1010 150 250.
Proof.
  apply (computeExpirationBucket_monotone 1000 1010 5000 150 250); try lra.
  intros H; vm_compute in H; discriminate H.
Defined.

(** X6: at every current time on the scale an interactive update expires
    before an async one: its expiration time is strictly the larger, in
    production and in debug builds. *)
Theorem computeInteractiveExpiration_before_async (__DEV__ : bool) (currentTime : Q) :
  0 <= currentTime -> currentTime <= MAGIC_NUMBER_OFFSET ->
  computeAsyncExpiration currentTime
  < computeInteractiveExpiration __DEV__ currentTime.
Proof.
  intros Hc0 Hc1.
  pose proof MAGIC_NUMBER_OFFSET_value as HM.
  (* the whole times around the current time *)
  set (lo := Qfloor currentTime). set (hi := Qceiling currentTime).
  assert (Hlo : inject_Z lo <= currentTime) by apply Qfloor_le.
  assert (Hhi : currentTime <= inject_Z hi) by apply Qle_ceiling.
  assert (Hlo0 : (0 <= lo)%Z) by (now apply Qfloor_nonneg).
  assert (Hhi1 : (hi <= 1073741821)%Z).
  { rewrite <- (Qceiling_Z 1073741821). apply Qceiling_resp_le.
    change (inject_Z 1073741821) with 1073741821. lra. }
  assert (Hlh : (lo <= hi <= lo + 1)%Z).
  { split.
    - rewrite Zle_Qle. lra.
    - pose proof (Qceiling_lt currentTime) as H. fold hi in H.
      assert (H' : (hi - 1 < lo + 1)%Z); [|lia].
      rewrite Zlt_Qlt. apply Qlt_le_trans with currentTime; [exact H|].
      pose proof (Qlt_floor currentTime) as H2. fold lo in H2. lra. }
  assert (HMq : inject_Z hi <= MAGIC_NUMBER_OFFSET).
  { rewrite MAGIC_NUMBER_OFFSET_whole. now apply inject_Z_le. }
  assert (Hlo0q : 0 <= inject_Z lo) by (now apply (inject_Z_le 0)).
  (* the async bucket is below that of the whole time above *)
  assert (Ha : computeAsyncExpiration currentTime <= computeAsyncExpiration (inject_Z hi)).
  { unfold computeAsyncExpiration.
    apply computeExpirationBucket_increasing;
      unfold LOW_PRIORITY_EXPIRATION, LOW_PRIORITY_BATCH_SIZE; lra. }
  (* the interactive bucket is above that of the whole time below *)
  assert (Hi : computeInteractiveExpiration __DEV__ (inject_Z lo)
               <= computeInteractiveExpiration __DEV__ currentTime).
  { unfold computeInteractiveExpiration.
    apply computeExpirationBucket_increasing;
      unfold HIGH_PRIORITY_BATCH_SIZE; destruct __DEV__; simpl; lra. }
  rewrite computeAsyncExpiration_whole in Ha by lia.
  rewrite computeInteractiveExpiration_whole in Hi by lia.
  eapply Qle_lt_trans; [exact Ha|]. eapply Qlt_le_trans; [|exact Hi].
  apply inject_Z_lt. destruct __DEV__; Z.div_mod_to_equations; lia.
Qed.

Lemma computeInteractiveExpiration_before_async_witness :
  computeAsyncExpiration 1000 < computeInteractiveExpiration false 1000.
Proof.
  apply (computeInteractiveExpiration_before_async false 1000); try lra.
  intros H; vm_compute in H; discriminate H.
Defined.

Lemma computeAsyncExpirationNoBucket_whole (c : Z) :
  (Z.abs c <= 2 ^ 52)%Z ->
  computeAsyncExpirationNoBucket (inject_Z c) = inject_Z (c - 500).
Proof.
  intros Hc. unfold computeAsyncExpirationNoBucket.
  change LOW_PRIORITY_EXPIRATION with (inject_Z 5000).
  change UNIT_SIZE with (inject_Z 10).
  rewrite (div_Z 5000 10 500) by lia. apply sub_Z. lia.
Qed.

(** X7: at a whole current time on the scale, bucketing puts the async
    expiration time off by at most one bucket of 25 units: it is below
    [computeAsyncExpirationNoBucket] and at most 25 below it. *)
Theorem computeAsyncExpiration_NoBucket (currentTime : Z) :
  (0 <= currentTime <= 1073741821)%Z ->
  computeAsyncExpirationNoBucket (inject_Z currentTime) - 25
  <= computeAsyncExpiration (inject_Z currentTime) /\
  computeAsyncExpiration (inject_Z currentTime)
  < computeAsyncExpirationNoBucket (inject_Z currentTime).
Proof.
  intros Hc.
  rewrite computeAsyncExpirationNoBucket_whole, computeAsyncExpiration_whole by lia.
  change 25 with (inject_Z 25). rewrite <- inject_Z_minus. split.
  - apply inject_Z_le. Z.div_mod_to_equations. lia.
  - apply inject_Z_lt. Z.div_mod_to_equations. lia.
Qed.

Lemma computeAsyncExpiration_NoBucket_witness :
  computeAsyncExpirationNoBucket (inject_Z 1000) - 25
  <= computeAsyncExpiration (inject_Z 1000) /\
  computeAsyncExpiration (inject_Z 1000) < computeAsyncExpirationNoBucket (inject_Z 1000).
Proof. apply (computeAsyncExpiration_NoBucket 1000); lia. Defined.

(** X8: for whole times, and an expiration time that is neither [Sync]
    nor [Never], the inferred priority depends on how far the expiration
    time lies below the current time on the scale: not below at all,
    [ImmediatePriority]; by at most 25 units (60 in a debug build),
    [UserBlockingPriority]; by more and at most 525 units,
    [NormalPriority]; by more than 525, [IdlePriority]. *)
Theorem inferPriority_thresholds (__DEV__ : bool) (currentTime expirationTime : Z) :
  (Z.abs currentTime <= 2 ^ 47)%Z -> (Z.abs expirationTime <= 2 ^ 47)%Z ->
  ~ inject_Z expirationTime == Sync -> ~ inject_Z expirationTime == Never ->
  let w := (if __DEV__ then 60 else 25)%Z in
  let priority :=
    inferPriorityFromExpirationTime
      __DEV__ (inject_Z currentTime) (inject_Z expirationTime) in
  ((currentTime <= expirationTime)%Z -> priority = ImmediatePriority) /\
  ((currentTime - w <= expirationTime < currentTime)%Z ->
   priority = UserBlockingPriority) /\
  ((currentTime - 525 <= expirationTime < currentTime - w)%Z ->
   priority = NormalPriority) /\
  ((expirationTime < currentTime - 525)%Z -> priority = IdlePriority) /\
  inject_Z (w * 10)
  = add (HIGH_PRIORITY_EXPIRATION __DEV__) HIGH_PRIORITY_BATCH_SIZE.
Proof.
  intros Hc He HS HN w priority. subst priority.
  assert (HS' : expirationTime <> 1073741823%Z).
  { intros ->. apply HS. reflexivity. }
  assert (HN' : expirationTime <> 1%Z).
  { intros ->. apply HN. reflexivity. }
  rewrite inferPriority_whole by lia.
  subst w. destruct __DEV__;
    (split; [|split; [|split; [|split; [|vm_compute; reflexivity]]]]; intros H;
     repeat match goal with
            | |- context [(?a <=? ?b)%Z] => destruct (Z.leb_spec a b)
            end; try reflexivity; lia).
Qed.

Lemma inferPriority_thresholds_witness :
  inferPriorityFromExpirationTime false (inject_Z 1000) (inject_Z 1000)
  = ImmediatePriority /\
  inferPriorityFromExpirationTime false (inject_Z 1000) (inject_Z 975)
  = UserBlockingPriority /\
  inferPriorityFromExpirationTime false (inject_Z 1000) (inject_Z 475)
  = NormalPriority /\
  inferPriorityFromExpirationTime false (inject_Z 1000) (inject_Z 474)
  = IdlePriority.
Proof.
  assert (H : forall e : Z, (2 <= e <= 1000)%Z ->
                ~ inject_Z e == Sync /\ ~ inject_Z e == Never).
  { intros e He. split; intros E.
    - apply (inject_Z_injective e 1073741823) in E. lia.
    - apply (inject_Z_injective e 1) in E. lia. }
  assert (B : forall e : Z, (2 <= e <= 1000)%Z -> (Z.abs e <= 2 ^ 47)%Z) by (intros; lia).
  assert (E1 : (2 <= 1000 <= 1000)%Z) by lia.
  assert (E2 : (2 <= 975 <= 1000)%Z) by lia.
  assert (E3 : (2 <= 475 <= 1000)%Z) by lia.
  assert (E4 : (2 <= 474 <= 1000)%Z) by lia.
  destruct (inferPriority_thresholds false 1000 1000 (B _ E1) (B _ E1)
              (proj1 (H _ E1)) (proj2 (H _ E1))) as (T1 & _).
  destruct (inferPriority_thresholds false 1000 975 (B _ E1) (B _ E2)
              (proj1 (H _ E2)) (proj2 (H _ E2))) as (_ & T2 & _).
  destruct (inferPriority_thresholds false 1000 475 (B _ E1) (B _ E3)
              (proj1 (H _ E3)) (proj2 (H _ E3))) as (_ & _ & T3 & _).
  destruct (inferPriority_thresholds false 1000 474 (B _ E1) (B _ E4)
              (proj1 (H _ E4)) (proj2 (H _ E4))) as (_ & _ & _ & T4 & _).
  split; [apply T1; lia|]. split; [apply T2; lia|].
  split; [apply T3; lia|]. apply T4; lia.
Defined.

End ExpirationTimeLaws.
(** ** Further laws of the naive branch *)

Module FallbackLaws.
Import Host Fallback FallbackLoop FallbackFacts.

Section Naive.

Context {callback error : Type}.
Variable call :
  callback -> bool -> state callback -> completion error * state callback.

Lemma requestHostCallback_flushPending
    (cb : callback) (ms : option Q) (s : state callback) :
  flushPending s -> flushPending (requestHostCallback cb ms s).
Proof.
  intros Hs. unfold requestHostCallback.
  destruct (_callback s) as [f|] eqn:Hf.
  - intros _. destruct Hs as [b Hb]; [congruence|].
    exists b. simpl. apply in_or_app. now left.
  - intros _. exists false. simpl. apply in_or_app. right. now left.
Qed.

Lemma perform_flushPending (r : request callback) (s : state callback) :
  flushPending s -> flushPending (perform r s).
Proof.
  destruct r as [cb ms| |fps]; simpl.
  - apply requestHostCallback_flushPending.
  - intros _ H. now contradiction H.
  - exact (fun H => H).
Qed.

Lemma step_flushPending (e : event callback) (s : state callback) :
  flushPending s -> flushPending (step call e s).
Proof.
  destruct e as [r|]; [apply perform_flushPending|].
  intros Hs. unfold step, fireTimer.
  destruct (timers s) as [|t rest] eqn:Ht; [exact Hs|].
  destruct t as [b|cb]; cbv zeta.
  - unfold _flushCallback. cbn [_callback].
    destruct (_callback s) as [f|]; [|intros H; now contradiction H].
    destruct (call f b _) as [c s']. intros H. now contradiction H.
  - cbn [after quiet]. apply requestHostCallback_flushPending.
    intros Hc. cbn [_callback timers] in *.
    destruct (Hs Hc) as [b Hb]. rewrite Ht in Hb.
    destruct Hb as [Hb|Hb]; [discriminate Hb|]. now exists b.
Qed.

Lemma drive_flushPending (es : list (event callback)) :
  forall s : state callback, flushPending s -> flushPending (drive call es s).
Proof.
  induction es as [|e es IH]; intros s Hs; [exact Hs|].
  apply IH. now apply step_flushPending.
Qed.

(** X9: however the module is used from its load on (calls of the
    exported functions and firings of timers, with callback bodies that
    may do anything), a callback that is stored is never stranded: its
    flush timer is pending, and firing the timers calls it before any
    other callback. *)
Theorem stored_callback_fires (es : list (event callback)) (f : callback) :
  _callback (drive call es initial) = Some f ->
  (exists b : bool, In (FlushCallbackTimer b) (timers (drive call es initial))) /\
  exists (n : nat) (b : bool),
    fst (fireTimers call n (drive call es initial)) = [(f, b)].
Proof.
  intros Hf.
  assert (Hp : flushPending (drive call es (@initial callback))).
  { apply drive_flushPending. intros H. now contradiction H. }
  destruct Hp as [b Hb]; [congruence|].
  split; [now exists b|].
  destruct (first_flush _ b Hb) as (pre & b' & post & Ht & Hpre).
  exists (S (length pre)), b'.
  now apply (fireTimers_until_flush call pre Hpre post).
Qed.

(** With no callback stored, flush timers call nothing. *)
Lemma fireTimers_flushes (n : nat) :
  forall s : state callback,
    _callback s = None -> Forall isFlush (timers s) ->
    fireTimers call n s = ([], {| _callback := None; timers := skipn n (timers s) |}).
Proof.
  induction n as [|n IH]; intros [c ts] Hc Hts; simpl in *; subst c; [reflexivity|].
  unfold fireTimer. cbn [timers _callback].
  destruct ts as [|t ts]; [reflexivity|].
  inversion Hts as [|t' ts' Ht Hts']; subst.
  destruct t as [b|cb]; [|destruct Ht].
  unfold _flushCallback. cbn [_callback quiet after invoked].
  now rewrite (IH {| _callback := None; timers := ts |} eq_refl Hts').
Qed.

(** X10: [cancelHostCallback] drops the stored callback and nothing
    else.  With only flush timers pending, no callback is called
    afterwards, however many timers fire; but a registration that was
    put off is still made when its timer fires, and its callback is
    called. *)
Theorem cancelHostCallback_naive
    (s : state callback) (flushes : list (timer callback)) (g : callback) :
  Forall isFlush flushes ->
  (timers s = flushes ->
   forall n : nat, fst (fireTimers call n (cancelHostCallback s)) = []) /\
  (timers s = flushes ++ [RequestHostCallbackTimer g] ->
   fst (fireTimers call (length flushes + 2) (cancelHostCallback s)) = [(g, false)]).
Proof.
  intros Hfl. split.
  - intros Ht n. rewrite fireTimers_flushes; [reflexivity|reflexivity|].
    simpl. now rewrite Ht.
  - intros Ht. unfold cancelHostCallback, set__callback. rewrite Ht. clear Ht s.
    induction Hfl as [|t flushes Ht Hfl IH].
    + simpl. unfold fireTimer. simpl. unfold fireTimer. simpl.
      unfold _flushCallback. simpl.
      destruct (call g false _) as [c s']. reflexivity.
    + destruct t as [b|cb]; [|destruct Ht].
      change (length (FlushCallbackTimer b :: flushes) + 2)%nat
        with (S (length flushes + 2)).
      rewrite fireTimers_S. unfold fireTimer. cbn [timers _callback app].
      unfold _flushCallback. cbn [_callback quiet after invoked]. exact IH.
Qed.

End Naive.

Section Inert.

Context {callback error : Type}.

Local Abbreviation inert := (@returns callback error (state callback)).
Local Abbreviation put := (@RequestHostCallbackTimer callback).

(** With bodies that call nothing: the registrations that were put off
    ahead of the flush timer go to the back of the queue, in their
    order, and the flush calls the stored callback. *)
Lemma fireTimers_round (pre : list callback) :
  forall (post : list callback) (f : callback) (b : bool),
    fireTimers inert (S (length pre))
      {| _callback := Some f;
         timers := map put pre ++ FlushCallbackTimer b :: map put post |}
    = ([(f, b)], {| _callback := None; timers := map put (post ++ pre) |}).
Proof.
  induction pre as [|g pre IH]; intros post f b.
  - simpl. now rewrite app_nil_r.
  - change (length (g :: pre)) with (S (length pre)).
    rewrite (fireTimers_quiet inert (S (length pre)) _
               {| _callback := Some f;
                  timers := (map put pre ++ FlushCallbackTimer b :: map put post)
                            ++ [put g] |}) by reflexivity.
    rewrite <- app_assoc. cbn [app].
    change (map put post ++ [put g]) with (map put post ++ map put [g]).
    rewrite <- map_app, IH. now rewrite <- app_assoc.
Qed.

Lemma fireTimers_queue (l : list callback) :
  exists n : nat,
    fireTimers inert n {| _callback := None; timers := map put l |}
    = (map (fun c => (c, false)) l, initial).
Proof.
  induction l as [|g l [n IH]].
  - now exists O.
  - exists (S (S (length l) + n))%nat.
    rewrite (fireTimers_quiet inert _ _
               {| _callback := Some g;
                  timers := map put l ++ FlushCallbackTimer false :: map put [] |})
      by reflexivity.
    rewrite fireTimers_add, fireTimers_round. cbn [app]. now rewrite IH.
Qed.

Lemma performAll_requests (regs : list (callback * option Q)) :
  forall (f : callback) (ts : list (timer callback)),
    performAll (map (fun r => RequestHostCallback (fst r) (snd r)) regs)
      {| _callback := Some f; timers := ts |}
    = {| _callback := Some f; timers := ts ++ map put (map fst regs) |}.
Proof.
  induction regs as [|[g ms] regs IH]; intros f ts.
  - simpl. now rewrite app_nil_r.
  - unfold performAll in *. cbn [map fold_left fst snd].
    change (perform (RequestHostCallback g ms) {| _callback := Some f; timers := ts |})
      with {| _callback := Some f; timers := ts ++ [put g] |}.
    rewrite IH, <- app_assoc. reflexivity.
Qed.

(** X11: callbacks registered one after the other on a freshly loaded
    module, with bodies that call nothing of the driver, are all called,
    once each, in the order of their registration and with
    [didTimeout = false]; after that nothing is stored and no timer is
    pending. *)
Theorem requestHostCallback_queue (regs : list (callback * option Q)) :
  exists n : nat,
    fireTimers (@returns callback error (state callback)) n
      (performAll (map (fun r => RequestHostCallback (fst r) (snd r)) regs) initial)
    = (map (fun r => (fst r, false)) regs, initial).
Proof.
  destruct regs as [|[f ms] regs]; [now exists O|].
  destruct (fireTimers_queue (map fst regs)) as [n Hn].
  exists (1 + n)%nat. rewrite fireTimers_add.
  change (performAll
            (map (fun r => RequestHostCallback (fst r) (snd r)) ((f, ms) :: regs))
            initial)
    with (performAll (map (fun r => RequestHostCallback (fst r) (snd r)) regs)
            {| _callback := Some f; timers := [FlushCallbackTimer false] |}).
  rewrite performAll_requests.
  pose proof (fireTimers_round [] (map fst regs) f false) as H1.
  cbn [app length map] in H1. cbn [app].
  rewrite H1, app_nil_r. rewrite Hn.
  cbn [app map fst]. now rewrite map_map.
Qed.

End Inert.

Lemma stored_callback_fires_witness :
  let es : list (event nat) :=
    [CallOf (RequestHostCallback 1%nat (Some 100));
     CallOf (RequestHostCallback 2%nat None); Timer; Timer] in
  _callback (drive (@returns nat unit _) es initial) = Some 2%nat /\
  exists (n : nat) (b : bool),
    fst (fireTimers (@returns nat unit _) n (drive (@returns nat unit _) es initial))
    = [(2%nat, b)].
Proof.
  intros es.
  assert (H : _callback (drive (@returns nat unit _) es initial) = Some 2%nat)
    by reflexivity.
  split; [exact H|].
  exact (proj2 (stored_callback_fires (@returns nat unit _) es 2%nat H)).
Defined.

Lemma cancelHostCallback_naive_witness :
  let s : state nat :=
    requestHostCallback 2%nat None (requestHostCallback 1%nat None initial) in
  (timers s = [FlushCallbackTimer false] ++ [RequestHostCallbackTimer 2%nat]) /\
  fst (fireTimers (@returns nat unit _) 3 (cancelHostCallback s)) = [(2%nat, false)].
Proof.
  intros s.
  assert (Hf : Forall (@isFlush nat) [FlushCallbackTimer false])
    by (constructor; [exact I|constructor]).
  assert (Ht : timers s = [FlushCallbackTimer false] ++ [RequestHostCallbackTimer 2%nat])
    by reflexivity.
  split; [exact Ht|].
  exact (proj2 (cancelHostCallback_naive (@returns nat unit _) s
                  [FlushCallbackTimer false] 2%nat Hf) Ht).
Defined.

End FallbackLaws.

(** ** Further laws of the frame-negotiating branch *)

Module DomLaws.
Import Host JSNumber JSNumberFacts Dom DomLoop DomFacts.

Section Frames.

Context {callback error : Type}.
Variable call : callback -> bool -> state callback -> completion error * state callback.

(** *** The frame estimate *)

Lemma animationTick_fpsLocked (rafTime : Q) (s : state callback) :
  fpsLocked (animationTick rafTime s) = fpsLocked s.
Proof.
  unfold animationTick. destruct (scheduledHostCallback s); [|reflexivity].
  cbv zeta.
  repeat match goal with
         | |- context [if ?c then _ else _] => destruct c
         end; reflexivity.
Qed.

Lemma animationTick_idle (rafTime : Q) (s : state callback) :
  scheduledHostCallback s = None ->
  animationTick rafTime s = set_isAnimationFrameScheduled false s.
Proof. intros H. unfold animationTick. now rewrite H. Qed.




Lemma animationTick_active_range (rafTime : Q) (s : state callback) :
  8 <= activeFrameTime s ->
  8 <= activeFrameTime (animationTick rafTime s) /\
  activeFrameTime (animationTick rafTime s) <= activeFrameTime s.
Proof.
  intros H8. destruct (scheduledHostCallback s) as [cb|] eqn:Hcb.
  - destruct (animationTick_pending rafTime s cb Hcb) as (Ha & _ & _).
    rewrite Ha. cbv zeta.
    set (next := add (sub rafTime (frameDeadline s)) (activeFrameTime s)).
    destruct (ltb_spec next (activeFrameTime s)) as [Hn|Hn];
      destruct (ltb_spec (previousFrameTime s) (activeFrameTime s)) as [Hp|Hp];
      destruct (fpsLocked s); simpl; try (split; lra).
    destruct (ltb_spec next 8) as [Hf|Hf];
      match goal with
      | |- context [ltb ?a ?b] => destruct (ltb_spec a b) as [Hc|Hc]
      end; split; lra.
  - rewrite animationTick_idle by exact Hcb. simpl. split; lra.
Qed.

(** X13: a frame never lengthens the frame estimate and never takes it
    below 8: from [8 <= activeFrameTime], [animationTick] leaves
    [activeFrameTime] between 8 and its old value; and with a callback
    pending, [shouldYieldToHost] is false until the binary64 sum of the
    frame's time and 8 at least. *)
Theorem animationTick_bounds (rafTime : Q) (s : state callback) :
  8 <= activeFrameTime s ->
  8 <= activeFrameTime (animationTick rafTime s) /\
  activeFrameTime (animationTick rafTime s) <= activeFrameTime s /\
  (scheduledHostCallback s <> None ->
   forall now : Q,
     now < add rafTime 8 -> shouldYieldToHost (animationTick rafTime s) now = false).
Proof.
  intros H8. pose proof (animationTick_active_range rafTime s H8) as Hb.
  split; [apply Hb|]. split; [apply Hb|].
  intros Hcb now Hnow. destruct (scheduledHostCallback s) as [cb|] eqn:Hcb';
    [|now contradiction Hcb].
  destruct (animationTick_pending rafTime s cb Hcb') as (_ & _ & Hd).
  unfold shouldYieldToHost. rewrite Hd. apply leb_false.
  apply Qlt_le_trans with (add rafTime 8); [exact Hnow|].
  unfold add. apply fl_monotone. destruct Hb as [Hb _]. lra.
Qed.

(** *** Cancelling *)

Lemma run_nothing_pending (ts : list tick) :
  forall s : state callback,
    scheduledHostCallback s = None -> fst (run call ts s) = [].
Proof.
  induction ts as [|t ts IH]; intros s Hs; [reflexivity|].
  rewrite run_cons. destruct (fire call t s) as [o|] eqn:Ho; [|now apply IH].
  destruct (invoked o) as [[cb b]|] eqn:Hi.
  - pose proof (fire_invoked call t s o cb b Ho Hi) as Hcb. congruence.
  - apply IH. rewrite (fire_quiet call t s o Ho Hi). exact Hs.
Qed.

(** X14: after [cancelHostCallback] no turn of the host calls a
    callback, whichever turns follow and whatever the callbacks would
    do; the frame timing ([frameDeadline], [activeFrameTime],
    [previousFrameTime], [fpsLocked]) and what is registered with the
    host are as they were. *)
Theorem cancelHostCallback_silent (ts : list tick) (s : state callback) :
  fst (run call ts (cancelHostCallback s)) = [] /\
  frameDeadline (cancelHostCallback s) = frameDeadline s /\
  activeFrameTime (cancelHostCallback s) = activeFrameTime s /\
  previousFrameTime (cancelHostCallback s) = previousFrameTime s /\
  fpsLocked (cancelHostCallback s) = fpsLocked s /\
  browser (cancelHostCallback s) = browser s.
Proof.
  split; [now apply run_nothing_pending|]. repeat split.
Qed.

(** *** A negative timeout *)

(** X15: [requestHostCallback(cb, t)] with a negative [t] other than -1
    has [cb] called by the very next message, whatever the state of the
    frame: with [didTimeout = true] when the frame is used up, with
    [didTimeout = false] otherwise.  With [t = -1], the value that also
    stands for "no timeout", a used-up frame makes the message handler
    call nothing and leave [cb] pending. *)
Theorem requestHostCallback_negative
    (cb : callback) (t now : Q) (s : state callback) :
  t < 0 -> t <= now ->
  exists o : outcome callback error (state callback),
    fire call (MessageTick now) (requestHostCallback cb t s) = Some o /\
    (~ t == -1 ->
     invoked o = Some (cb, leb (frameDeadline s - now) 0)) /\
    (t == -1 -> frameDeadline s <= now ->
     invoked o = None /\ scheduledHostCallback (after o) = Some cb).
Proof.
  intros Ht Hnow.
  assert (E : requestHostCallback cb t s
              = postMessage (set_timeoutTime t (set_scheduledHostCallback (Some cb) s))).
  { unfold requestHostCallback. cbv zeta. rewrite (ltb_true t 0 Ht).
    now rewrite orb_true_r. }
  rewrite E. unfold fire. cbn [browser postMessage set_browser messages].
  match goal with
  | |- context [onmessage call now ?st] => set (s2 := st)
  end.
  assert (Hcb : scheduledHostCallback s2 = Some cb) by reflexivity.
  assert (Htt : timeoutTime s2 = t) by reflexivity.
  assert (Hfd : frameDeadline s2 = frameDeadline s) by reflexivity.
  clearbody s2. exists (onmessage call now s2). split; [reflexivity|].
  rewrite onmessage_unfold, Hcb, Htt, Hfd. cbv zeta.
  split.
  - intros Hne. rewrite (eqb_false _ _ Hne), (leb_true _ _ Hnow). simpl negb.
    cbn [andb].
    destruct (leb (frameDeadline s - now) 0);
      match goal with
      | |- context [call cb ?d ?st] => destruct (call cb d st) as [c s']
      end; reflexivity.
  - intros He Hd. rewrite (eqb_true _ _ He), (leb_true (frameDeadline s - now) 0) by lra.
    simpl. split; reflexivity.
Qed.

(** *** The state between two events *)

Ltac open_state s :=
  destruct s as [rid rtid cbk mflag tt afs flg fd pft aft lk [nh fr to ms]];
  unfold wellFormed, hostFormed, framePaired, messageInFlight, notStranded in *.

Ltac split_ifs :=
  repeat match goal with
         | |- context [if ?c then _ else _] => destruct c eqn:?
         end.

Ltac paired :=
  repeat match goal with
         | H : exists _, _ |- _ => destruct H
         | H : _ /\ _ |- _ => destruct H
         end;
  subst; simpl in *;
  repeat split; intros; try discriminate; try congruence; try lia;
  try solve [auto]; try tauto;
  try (right; reflexivity); try (left; lia);
  try (do 2 eexists; repeat split; try reflexivity; lia).

Lemma remove_self (h : handle) : List.remove Nat.eq_dec h [h] = [].
Proof. simpl. destruct (Nat.eq_dec h h); [reflexivity|congruence]. Qed.

Lemma isPending_singleton (id h : handle) : isPending id [h] = true -> id = h.
Proof.
  unfold isPending. destruct (in_dec Nat.eq_dec id [h]) as [[H|[]]|H];
    [congruence|discriminate].
Qed.

Lemma wellFormed_requestHostCallback (cb : callback) (t : Q) (s : state callback) :
  wellFormed s -> wellFormed (requestHostCallback cb t s).
Proof.
  open_state s. unfold requestHostCallback.
  cbn -[Qle ltb]. intros (Hp & Hm & Hs & H8).
  destruct (flg || ltb t 0); [|destruct afs]; cbn -[Qle ltb]; paired.
Qed.

Lemma wellFormed_cancelHostCallback (s : state callback) :
  wellFormed s -> wellFormed (cancelHostCallback s).
Proof.
  open_state s. cbn -[Qle]. intros (Hp & Hm & Hs & H8).
  repeat split; try assumption; try discriminate. intros H; now contradiction H.
Qed.

Lemma wellFormed_forceFrameRate (fps : Q) (s : state callback) :
  wellFormed s -> wellFormed (forceFrameRate fps s).
Proof.
  intros Hs. unfold forceFrameRate.
  destruct (ltb fps 0 || ltb 125 fps) eqn:Hr; [exact Hs|].
  apply orb_false_elim in Hr. destruct Hr as [Hr0 Hr1].
  destruct (ltb_spec fps 0) as [|H0]; [discriminate|].
  destruct (ltb_spec 125 fps) as [|H1]; [discriminate|].
  destruct (ltb_spec 0 fps) as [Hp|Hp];
    open_state s; cbn -[Qle div]; destruct Hs as (Hf & Hm & Hn & H8);
    repeat split; try assumption.
  - change 8 with (inject_Z 8). rewrite <- Zle_Qle.
    change 8%Z with (Qfloor 8). apply Qfloor_resp_le.
    apply (fl_ge_Z _ 8); [|simpl; lia].
    apply Qle_shift_div_l; [exact Hp|]. change (inject_Z 8) with 8. lra.
  - intros H; discriminate H.
Qed.

Lemma hostFormed_animationTick (rafTime : Q) (s : state callback) :
  animationFrames (browser s) = [] -> timeouts (browser s) = [] ->
  messageInFlight s ->
  (scheduledHostCallback s <> None -> isAnimationFrameScheduled s = true) ->
  hostFormed (animationTick rafTime s).
Proof.
  open_state s. unfold animationTick. cbn -[Qle ltb add sub].
  intros -> -> Hm Hs.
  destruct cbk as [cb|]; cbn -[Qle ltb add sub].
  - rewrite Hs by discriminate. split_ifs; cbn -[Qle ltb add sub]; paired.
  - paired.
Qed.


Lemma wellFormed_split (s : state callback) :
  wellFormed s <-> hostFormed s /\ 8 <= activeFrameTime s.
Proof. unfold wellFormed, hostFormed. tauto. Qed.

Lemma wellFormed_animationFrame (id : handle) (timestamp : Q) (s : state callback) :
  wellFormed s -> isPending id (animationFrames (browser s)) = true ->
  wellFormed (animationFrame timestamp (localCancelAnimationFrame (Some id) s)).
Proof.
  intros Hs Hid. unfold animationFrame. apply wellFormed_split. split.
  - apply hostFormed_animationTick; open_state s; cbn -[Qle] in *;
      destruct Hs as (Hp & Hm & Hn & H8);
      (destruct afs; [|destruct Hp as [-> _]; discriminate Hid]);
      destruct Hp as (h & h' & -> & -> & -> & -> & Hh & Hh');
      apply isPending_singleton in Hid; subst id;
      cbn -[Qle]; auto;
      match goal with
      | |- context [Nat.eq_dec ?a ?b] =>
          destruct (Nat.eq_dec a b) as [_|Hne]; [reflexivity|now contradiction Hne]
      end.
  - apply animationTick_active_range. open_state s. apply Hs.
Qed.

Lemma wellFormed_animationFrameTimeout (id : handle) (now : Q) (s : state callback) :
  wellFormed s -> isPending id (timeouts (browser s)) = true ->
  wellFormed (animationFrameTimeout now (localClearTimeout (Some id) s)).
Proof.
  intros Hs Hid. unfold animationFrameTimeout. apply wellFormed_split. split.
  - apply hostFormed_animationTick; open_state s; cbn -[Qle] in *;
      destruct Hs as (Hp & Hm & Hn & H8);
      (destruct afs; [|destruct Hp as [_ ->]; discriminate Hid]);
      destruct Hp as (h & h' & -> & -> & -> & -> & Hh & Hh');
      apply isPending_singleton in Hid; subst id;
      cbn -[Qle]; auto;
      match goal with
      | |- context [Nat.eq_dec ?a ?b] =>
          destruct (Nat.eq_dec a b) as [_|Hne]; [reflexivity|now contradiction Hne]
      end.
  - apply animationTick_active_range. open_state s. apply Hs.
Qed.

Lemma wellFormed_onmessage (now : Q) (s : state callback) (n : nat) :
  keepsWellFormed call ->
  wellFormed s -> messages (browser s) = S n ->
  wellFormed
    (after (onmessage call now
              (set_browser {| nextHandle := nextHandle (browser s);
                              animationFrames := animationFrames (browser s);
                              timeouts := timeouts (browser s);
                              messages := n |} s))).
Proof.
  intros Hcall Hs Hn. rewrite onmessage_unfold. cbv zeta.
  match goal with
  | |- context [atFlush ?st] => set (s0 := st)
  end.
  assert (Hflush : wellFormed (atFlush s0)).
  { unfold s0. open_state s. cbn -[Qle] in *. destruct Hs as (Hp & Hm & Hx & H8).
    repeat split; try assumption; try discriminate. intros H; now contradiction H. }
  assert (Hidle : wellFormed (dequeued s0)).
  { unfold s0. open_state s. cbn -[Qle] in *. destruct Hs as (Hp & Hm & Hx & H8).
    repeat split; try assumption; try discriminate. intros H; now contradiction H. }
  assert (Hflushed : forall cb b,
             wellFormed (set_isFlushingHostCallback false (snd (call cb b (atFlush s0))))).
  { intros cb b. specialize (Hcall cb b (atFlush s0) Hflush).
    destruct (snd (call cb b (atFlush s0))) as
      [rid rtid cbk mflag tt afs flg fd pft aft lk [nh fr to ms]].
    exact Hcall. }
  assert (Hretry :
            wellFormed
              (set_timeoutTime (timeoutTime s0)
                 (set_scheduledHostCallback (scheduledHostCallback s0)
                    (if negb (isAnimationFrameScheduled s0)
                     then requestAnimationFrameWithTimeout
                            (set_isAnimationFrameScheduled true (dequeued s0))
                     else dequeued s0)))).
  { unfold s0. open_state s. cbn -[Qle] in *. destruct Hs as (Hp & Hm & Hx & H8).
    destruct afs; cbn -[Qle]; paired. }
  destruct (scheduledHostCallback s0) as [cb|] eqn:Hcb;
    destruct (leb (frameDeadline s0 - now) 0);
    try destruct (negb (eqb (timeoutTime s0) (-1)) && leb (timeoutTime s0) now);
    try match goal with
      | |- context [call cb ?d (atFlush s0)] =>
          specialize (Hflushed cb d); destruct (call cb d (atFlush s0)) as [c s']
      end; cbn [after quiet]; assumption.
Qed.

Lemma wellFormed_fire (t : tick) (s : state callback)
    (o : outcome callback error (state callback)) :
  keepsWellFormed call -> wellFormed s -> fire call t s = Some o -> wellFormed (after o).
Proof.
  intros Hcall Hs. destruct t as [id ts|id now|now]; unfold fire.
  - destruct (isPending id _) eqn:Hid; [|discriminate]. intros [= <-].
    now apply wellFormed_animationFrame.
  - destruct (isPending id _) eqn:Hid; [|discriminate]. intros [= <-].
    now apply wellFormed_animationFrameTimeout.
  - destruct (messages (browser s)) as [|n] eqn:Hn; [discriminate|]. intros [= <-].
    now apply wellFormed_onmessage.
Qed.

Lemma wellFormed_perform (r : request callback) (s : state callback) :
  wellFormed s -> wellFormed (perform r s).
Proof.
  destruct r as [cb t| |fps]; simpl.
  - apply wellFormed_requestHostCallback.
  - apply wellFormed_cancelHostCallback.
  - apply wellFormed_forceFrameRate.
Qed.

Lemma wellFormed_performAll (rs : list (request callback)) :
  forall s : state callback, wellFormed s -> wellFormed (performAll rs s).
Proof.
  induction rs as [|r rs IH]; intros s Hs; [exact Hs|].
  apply IH. now apply wellFormed_perform.
Qed.

Lemma wellFormed_initial : wellFormed (@initial callback).
Proof.
  unfold wellFormed, framePaired, messageInFlight, notStranded. simpl.
  repeat split; try discriminate; try (intros H; now contradiction H).
Qed.

Lemma wellFormed_drive (es : list (event callback)) :
  keepsWellFormed call ->
  forall s : state callback, wellFormed s -> wellFormed (drive call es s).
Proof.
  intros Hcall. induction es as [|e es IH]; intros s Hs; [exact Hs|].
  apply IH. destruct e as [r|t]; simpl.
  - now apply wellFormed_perform.
  - destruct (fire call t s) as [o|] eqn:Ho; [|exact Hs].
    now apply (wellFormed_fire t s o).
Qed.


Lemma isPending_fresh (h n : handle) : (h < n)%nat -> isPending h [S n] = false.
Proof.
  intros Hh. unfold isPending.
  destruct (in_dec Nat.eq_dec h [S n]) as [[H|[]]|H]; [lia|reflexivity].
Qed.

Lemma isPending_self (h : handle) : isPending h [h] = true.
Proof.
  unfold isPending. destruct (in_dec Nat.eq_dec h [h]) as [H|H]; [reflexivity|].
  exfalso. apply H. now left.
Qed.

(** What [animationTick] leaves registered with the host. *)
Lemma animationTick_registered (rafTime : Q) (s : state callback) :
  animationFrames (browser s) = [] -> timeouts (browser s) = [] ->
  (animationFrames (browser (animationTick rafTime s)) = [] /\
   timeouts (browser (animationTick rafTime s)) = []) \/
  (animationFrames (browser (animationTick rafTime s)) = [nextHandle (browser s)] /\
   timeouts (browser (animationTick rafTime s)) = [S (nextHandle (browser s))]).
Proof.
  destruct s as [rid rtid cbk mflag tt afs flg fd pft aft lk [nh fr to ms]].
  unfold animationTick. cbn -[Qle ltb add sub]. intros -> ->.
  destruct cbk as [cb|]; cbn -[Qle ltb add sub];
    [right|left]; split_ifs; split; reflexivity.
Qed.

(** X18: the animation frame and its fallback timer race, and the one
    that fires first takes the other with it: in a well-formed state,
    once the frame request that [rAFID] names has fired, neither it nor
    the timer that [rAFTimeoutID] names can fire any more, and the same
    with the two exchanged; so [animationTick] runs once for each
    registration. *)
Theorem frame_and_timer_race (s : state callback) (h h' : handle) :
  wellFormed s ->
  rAFID s = Some h -> rAFTimeoutID s = Some h' ->
  (forall (timestamp : Q) (o : outcome callback error (state callback)),
     fire call (FrameTick h timestamp) s = Some o ->
     forall t : Q,
       fire call (TimeoutTick h' t) (after o) = None /\
       fire call (FrameTick h t) (after o) = None) /\
  (forall (now : Q) (o : outcome callback error (state callback)),
     fire call (TimeoutTick h' now) s = Some o ->
     forall t : Q,
       fire call (FrameTick h t) (after o) = None /\
       fire call (TimeoutTick h' t) (after o) = None).
Proof.
  intros Hs Hh Hh'.
  assert (Hp : isAnimationFrameScheduled s = true ->
               animationFrames (browser s) = [h] /\ timeouts (browser s) = [h'] /\
               (h < nextHandle (browser s))%nat /\ (h' < nextHandle (browser s))%nat).
  { open_state s. cbn in *. intros ->. destruct Hs as (Hp & _).
    destruct Hp as (x & x' & -> & -> & -> & -> & Hx & Hx').
    injection Hh as ->. injection Hh' as ->. auto. }
  assert (Hq : isAnimationFrameScheduled s = false ->
               animationFrames (browser s) = [] /\ timeouts (browser s) = []).
  { open_state s. cbn in *. intros ->. apply Hs. }
  split.
  - intros ts o. unfold fire at 1.
    destruct (isPending h (animationFrames (browser s))) eqn:Hid; [|discriminate].
    intros [= <-] t. cbn [after quiet].
    destruct (isAnimationFrameScheduled s) eqn:Ha;
      [|destruct (Hq eq_refl) as [Hf _]; rewrite Hf in Hid; discriminate Hid].
    destruct (Hp eq_refl) as (Hf & Ht & Hlt & Hlt').
    unfold animationFrame.
    match goal with
    | |- context [animationTick ts ?st] => set (s0 := st)
    end.
    assert (Hf0 : animationFrames (browser s0) = []).
    { unfold s0. destruct s as [? ? ? ? ? ? ? ? ? ? ? [? ? ? ?]].
      cbn in *. subst. cbn.
      destruct (Nat.eq_dec h h) as [_|Hne]; [reflexivity|now contradiction Hne]. }
    assert (Ht0 : timeouts (browser s0) = []).
    { unfold s0. destruct s as [? ? ? ? ? ? ? ? ? ? ? [? ? ? ?]].
      cbn in *. subst. cbn.
      destruct (Nat.eq_dec h' h') as [_|Hne]; [reflexivity|now contradiction Hne]. }
    assert (Hn0 : nextHandle (browser s0) = nextHandle (browser s)).
    { unfold s0. destruct s as [? ? ? ? ? ? ? ? ? ? ? [? ? ? ?]]. reflexivity. }
    unfold fire.
    destruct (animationTick_registered ts s0 Hf0 Ht0) as [[E1 E2]|[E1 E2]];
      rewrite E1, E2, ?Hn0.
    + split; reflexivity.
    + rewrite (isPending_fresh h' _ Hlt').
      assert (Hx : isPending h [nextHandle (browser s)] = false).
      { unfold isPending. destruct (in_dec _ _ _) as [[H|[]]|H]; [lia|reflexivity]. }
      rewrite Hx. split; reflexivity.
  - intros now o. unfold fire at 1.
    destruct (isPending h' (timeouts (browser s))) eqn:Hid; [|discriminate].
    intros [= <-] t. cbn [after quiet].
    destruct (isAnimationFrameScheduled s) eqn:Ha;
      [|destruct (Hq eq_refl) as [_ Hf]; rewrite Hf in Hid; discriminate Hid].
    destruct (Hp eq_refl) as (Hf & Ht & Hlt & Hlt').
    unfold animationFrameTimeout.
    match goal with
    | |- context [animationTick now ?st] => set (s0 := st)
    end.
    assert (Hf0 : animationFrames (browser s0) = []).
    { unfold s0. destruct s as [? ? ? ? ? ? ? ? ? ? ? [? ? ? ?]].
      cbn in *. subst. cbn.
      destruct (Nat.eq_dec h h) as [_|Hne]; [reflexivity|now contradiction Hne]. }
    assert (Ht0 : timeouts (browser s0) = []).
    { unfold s0. destruct s as [? ? ? ? ? ? ? ? ? ? ? [? ? ? ?]].
      cbn in *. subst. cbn.
      destruct (Nat.eq_dec h' h') as [_|Hne]; [reflexivity|now contradiction Hne]. }
    assert (Hn0 : nextHandle (browser s0) = nextHandle (browser s)).
    { unfold s0. destruct s as [? ? ? ? ? ? ? ? ? ? ? [? ? ? ?]]. reflexivity. }
    unfold fire.
    destruct (animationTick_registered now s0 Hf0 Ht0) as [[E1 E2]|[E1 E2]];
      rewrite E1, E2, ?Hn0.
    + split; reflexivity.
    + rewrite (isPending_fresh h' _ Hlt').
      assert (Hx : isPending h [nextHandle (browser s)] = false).
      { unfold isPending. destruct (in_dec _ _ _) as [[H|[]]|H]; [lia|reflexivity]. }
      rewrite Hx. split; reflexivity.
Qed.


Lemma onmessage_in_time (now : Q) (s : state callback) (cb : callback) :
  scheduledHostCallback s = Some cb -> now < frameDeadline s ->
  invoked (onmessage call now s) = Some (cb, false).
Proof.
  intros Hcb Hd. rewrite onmessage_unfold, Hcb. cbv zeta.
  rewrite leb_false by lra.
  now destruct (call cb false (atFlush s)).
Qed.

Lemma fire_message_in_time (now : Q) (s : state callback) (cb : callback) :
  (0 < messages (browser s))%nat ->
  scheduledHostCallback s = Some cb -> now < frameDeadline s ->
  exists o : outcome callback error (state callback),
    fire call (MessageTick now) s = Some o /\ invoked o = Some (cb, false).
Proof.
  intros Hm Hcb Hd. unfold fire.
  destruct (messages (browser s)) as [|n]; [lia|].
  eexists. split; [reflexivity|]. now apply onmessage_in_time.
Qed.

Lemma animationTick_message (rafTime : Q) (s : state callback) (cb : callback) :
  scheduledHostCallback s = Some cb ->
  isMessageEventScheduled (animationTick rafTime s) = true.
Proof.
  destruct s as [rid rtid cbk mflag tt afs flg fd pft aft lk [nh fr to ms]].
  unfold animationTick. cbn -[Qle ltb add sub]. intros ->.
  cbn -[Qle ltb add sub]. split_ifs; try reflexivity;
    cbn in *; now destruct mflag.
Qed.

(** Up to 2^55 ms on the clock, the deadline that a frame sets lies after
    the frame's time: the estimate of at least 8 ms is not rounded
    away. *)
Lemma add_after (now a : Q) :
  Qabs now <= 36028797018963968 -> 8 <= a -> now < add now a.
Proof.
  intros Hb Ha. apply Qabs_Qle_condition in Hb. destruct Hb as [L U].
  apply Qlt_le_trans with (add now 8); [|unfold add; apply fl_monotone; lra].
  unfold add.
  destruct (fl_within (now + 8) 36028797018963976) as [Hl _]; [lra|lra|].
  unfold epsilon in Hl. lra.
Qed.

(** With a frame scheduled, the frame and then the message call the
    pending callback. *)
Lemma frame_then_message (now : Q) (s : state callback) (cb : callback) :
  Qabs now <= 36028797018963968 ->
  wellFormed s -> scheduledHostCallback s = Some cb ->
  isAnimationFrameScheduled s = true ->
  exists h : handle,
    fst (run call [FrameTick h now; MessageTick now] s) = [(cb, false)].
Proof.
  intros Hnow Hs Hcb Ha.
  assert (Hh : exists h, isPending h (animationFrames (browser s)) = true).
  { open_state s. cbn in *. subst afs. destruct Hs as ((h & h' & _ & _ & -> & _) & _).
    exists h. apply isPending_self. }
  destruct Hh as [h Hh]. exists h.
  pose proof (wellFormed_animationFrame h now s Hs Hh) as Hs1.
  rewrite run_cons. unfold fire at 1. rewrite Hh. cbn [invoked quiet after].
  set (s1 := animationFrame now (localCancelAnimationFrame (Some h) s)) in *.
  assert (Hcb1 : scheduledHostCallback s1 = Some cb).
  { unfold s1, animationFrame. rewrite animationTick_scheduledHostCallback.
    destruct s as [? ? ? ? ? ? ? ? ? ? ? [? ? ? ?]]. exact Hcb. }
  assert (Hm1 : (0 < messages (browser s1))%nat).
  { destruct Hs1 as (_ & Hm & _). apply Hm.
    unfold s1, animationFrame. apply (animationTick_message _ _ cb).
    destruct s as [? ? ? ? ? ? ? ? ? ? ? [? ? ? ?]]. exact Hcb. }
  assert (Hd1 : now < frameDeadline s1).
  { destruct Hs1 as (_ & _ & _ & H8).
    assert (Hd : frameDeadline s1 = add now (activeFrameTime s1)).
    { unfold s1, animationFrame.
      match goal with
      | |- context [animationTick now ?st] =>
          destruct (animationTick_pending now st cb) as (_ & _ & Hd); [|exact Hd]
      end.
      destruct s as [? ? ? ? ? ? ? ? ? ? ? [? ? ? ?]]. exact Hcb. }
    rewrite Hd. now apply add_after. }
  destruct (fire_message_in_time now s1 cb Hm1 Hcb1 Hd1) as (o & Ho & Hi).
  rewrite run_cons, Ho, Hi. reflexivity.
Qed.

(** A pending callback can be called: in a well-formed state, at most
    three turns of the host, all taken at [now], call it and no other. *)
Lemma pending_progress (now : Q) (s : state callback) (cb : callback) :
  Qabs now <= 36028797018963968 ->
  wellFormed s -> scheduledHostCallback s = Some cb ->
  exists (ts : list tick) (b : bool),
    (length ts <= 3)%nat /\
    Forall (fun t => tickTime t = now) ts /\
    fst (run call ts s) = [(cb, b)].
Proof.
  intros Hnow Hs Hcb.
  destruct (messages (browser s)) as [|n] eqn:Hn.
  - (* no message on its way: a frame is scheduled *)
    assert (Ha : isAnimationFrameScheduled s = true).
    { destruct Hs as (_ & _ & Hx & _). destruct Hx as [Hx|Hx]; [congruence|lia|exact Hx]. }
    destruct (frame_then_message now s cb Hnow Hs Hcb Ha) as [h Hh].
    exists [FrameTick h now; MessageTick now], false.
    split; [simpl; lia|]. split; [repeat constructor|exact Hh].
  - (* a message is on its way *)
    set (s0 := set_browser {| nextHandle := nextHandle (browser s);
                              animationFrames := animationFrames (browser s);
                              timeouts := timeouts (browser s);
                              messages := n |} s).
    assert (Hfire : fire call (MessageTick now) s = Some (onmessage call now s0)).
    { unfold fire. now rewrite Hn. }
    destruct (invoked (onmessage call now s0)) as [[cb' b]|] eqn:Hi.
    + exists [MessageTick now], b.
      split; [simpl; lia|]. split; [repeat constructor|].
      rewrite run_cons, Hfire, Hi. simpl.
      apply onmessage_flush in Hi. destruct Hi as (Hcb' & _).
      assert (Hcb0 : scheduledHostCallback s0 = Some cb)
        by (unfold s0; destruct s as [? ? ? ? ? ? ? ? ? ? ? [? ? ? ?]]; exact Hcb).
      congruence.
    + (* the frame is used up: the handler asks for another one *)
      set (s1 := after (onmessage call now s0)) in *.
      assert (H1 : wellFormed s1 /\ scheduledHostCallback s1 = Some cb /\
                   isAnimationFrameScheduled s1 = true).
      { unfold s1. unfold s1 in Hi. clear s1. revert Hi.
        rewrite onmessage_unfold. cbv zeta.
        assert (Hcb0 : scheduledHostCallback s0 = Some cb)
          by (unfold s0; destruct s as [? ? ? ? ? ? ? ? ? ? ? [? ? ? ?]]; exact Hcb).
        rewrite Hcb0.
        destruct (leb (frameDeadline s0 - now) 0);
          [destruct (negb (eqb (timeoutTime s0) (-1)) && leb (timeoutTime s0) now)|];
          try (destruct (call cb _ (atFlush s0)); cbn; discriminate).
        intros _. cbn [after quiet]. unfold s0. clear Hfire s0 Hcb0.
        open_state s. cbn -[Qle] in *. destruct Hs as (Hp & Hm & Hx & H8).
        destruct afs; cbn -[Qle]; paired. }
      destruct H1 as (Hs1 & Hcb1 & Ha1).
      destruct (frame_then_message now s1 cb Hnow Hs1 Hcb1 Ha1) as [h Hh].
      exists [MessageTick now; FrameTick h now; MessageTick now], false.
      split; [simpl; lia|]. split; [repeat constructor|].
      rewrite run_cons, Hfire, Hi. exact Hh.
Qed.

(** X19: a pending callback is never stuck: in a well-formed state with a
    callback pending, and for every reading [now] of the clock up to
    2^55 ms, there are at most three turns of the host, all taken at
    [now], that can be taken from that state and in which the pending
    callback, and no other, is called. *)
Theorem pending_callback_progress (now : Q) (s : state callback) (cb : callback) :
  Qabs now <= 36028797018963968 ->
  wellFormed s -> scheduledHostCallback s = Some cb ->
  exists (ts : list tick) (b : bool),
    (length ts <= 3)%nat /\
    Forall (fun t => tickTime t = now) ts /\
    fst (run call ts s) = [(cb, b)].
Proof. exact (pending_progress now s cb). Qed.

Lemma run_wellFormed (ts : list tick) :
  keepsWellFormed call ->
  forall s : state callback, wellFormed s -> wellFormed (snd (run call ts s)).
Proof.
  intros Hcall. induction ts as [|t ts IH]; intros s Hs; [exact Hs|].
  rewrite run_cons_state. destruct (fire call t s) as [o|] eqn:Ho; [|now apply IH].
  apply IH. now apply (wellFormed_fire t s o).
Qed.

(** When the host has nothing left to run, no callback is pending. *)
Lemma hostIdle_nothing_pending (s : state callback) :
  wellFormed s -> hostIdle s -> scheduledHostCallback s = None.
Proof.
  intros (Hp & _ & Hn & _) (Hf & Ht & Hm).
  destruct (scheduledHostCallback s) as [cb|] eqn:Hcb; [exfalso|reflexivity].
  unfold notStranded, framePaired in *. rewrite Hcb in Hn.
  destruct Hn as [Hn|Hn]; [discriminate|lia|].
  rewrite Hn in Hp. destruct Hp as (h & h' & _ & _ & Hh & _). congruence.
Qed.

(** C7 (amended), the frame-negotiating branch: after
    [requestHostCallback(f1, t1)] and then [requestHostCallback(f2, t2)],
    the pending callback is [f2] and the pending timeout is [t2], and
    only [f2] fires.  It can fire: when the calls are made in a
    well-formed state, at most three turns of the host, taken at any
    reading of the clock up to 2^55 ms, call [f2] and no other
    callback.  In the turns that follow the calls, whichever they are,
    the first callback called is [f2], never [f1].  And when the bodies
    of the callbacks register nothing, [f2] is the only callback called
    and is called at most once; it has been called, once, whenever the
    host has nothing left to run. *)
Theorem requestHostCallback_twice
    (f1 f2 : callback) (t1 t2 : Q) (s : state callback) (ts : list tick) :
  let s2 := requestHostCallback f2 t2 (requestHostCallback f1 t1 s) in
  scheduledHostCallback s2 = Some f2 /\
  timeoutTime s2 = t2 /\
  (wellFormed s ->
   forall now : Q,
     Qabs now <= 36028797018963968 ->
     exists (ts' : list tick) (b : bool),
       (length ts' <= 3)%nat /\
       Forall (fun t => tickTime t = now) ts' /\
       fst (run call ts' s2) = [(f2, b)]) /\
  match fst (run call ts s2) with
  | [] => True
  | (cb, _) :: _ => cb = f2
  end /\
  (registersNothing call ->
   (fst (run call ts s2) = [] \/ exists b : bool, fst (run call ts s2) = [(f2, b)]) /\
   (wellFormed s -> keepsWellFormed call -> hostIdle (snd (run call ts s2)) ->
    exists b : bool, fst (run call ts s2) = [(f2, b)])).
Proof.
  intros s2.
  destruct (requestHostCallback_pending f2 t2 (requestHostCallback f1 t1 s))
    as [Hcb Ht].
  fold s2 in Hcb, Ht.
  assert (Hs2 : wellFormed s -> wellFormed s2)
    by (intros Hs; unfold s2; now do 2 apply wellFormed_requestHostCallback).
  split; [exact Hcb|]. split; [exact Ht|]. split; [|split].
  - intros Hs now Hnow. apply pending_progress; [exact Hnow|now apply Hs2|exact Hcb].
  - now apply run_first_call.
  - intros Hreg. pose proof (run_once call ts Hreg s2 f2 Hcb) as Honce.
    split; [exact Honce|]. intros Hs Hcall Hidle.
    destruct Honce as [Hno|Hyes]; [exfalso|exact Hyes].
    pose proof (run_uncalled call ts s2 Hno) as Hpend.
    rewrite (hostIdle_nothing_pending _ (run_wellFormed ts Hcall s2 (Hs2 Hs)) Hidle)
      in Hpend.
    congruence.
Qed.

Lemma scripted_keepsWellFormed
    (body : callback -> bool -> list (request callback) * completion error) :
  keepsWellFormed (scripted body).
Proof. intros cb b s Hs. simpl. now apply wellFormed_performAll. Qed.

(** *** Learning the cadence of the frames *)

(** X16: the estimate learns a faster cadence in three frames.  With a
    callback pending, the frame rate not forced and a binary64
    [activeFrameTime], let three frames come at [t0], [t1] and [t2], the
    first not before [frameDeadline], the gaps [t1 - t0] and [t2 - t1]
    at least 8 and below [activeFrameTime] by at least 1/1000, and the
    clock below 2^40 ms.  After the third frame [activeFrameTime] is the
    larger of the two gaps, within 1/1000 ms: the first frame is not
    early, the second is the first early one, the third the second in a
    row. *)
Theorem animationTick_learns_cadence
    (t0 t1 t2 : Q) (s : state callback) (cb : callback) :
  scheduledHostCallback s = Some cb ->
  fpsLocked s = false ->
  fl (activeFrameTime s) == activeFrameTime s ->
  0 <= frameDeadline s -> frameDeadline s <= t0 -> t0 <= 1099511627776 ->
  activeFrameTime s <= 1048576 ->
  8 <= t1 - t0 -> t1 - t0 + (1 # 1000) <= activeFrameTime s ->
  8 <= t2 - t1 -> t2 - t1 + (1 # 1000) <= activeFrameTime s ->
  let s3 := animationTicks [t0; t1; t2] s in
  Qmax (t1 - t0) (t2 - t1) - (1 # 1000) <= activeFrameTime s3 /\
  activeFrameTime s3 <= Qmax (t1 - t0) (t2 - t1) + (1 # 1000) /\
  8 <= activeFrameTime s3.
Proof.
  intros Hcb Hl Hrep Hfd0 Hfd Ht0 HA Hg1 Hg1' Hg2 Hg2'. simpl.
  set (A := activeFrameTime s) in *.
  (* the first frame is on time or late *)
  destruct (animationTick_pending t0 s cb Hcb) as (Ha1 & Hp1 & Hd1).
  cbv zeta in Ha1, Hp1. fold A in Ha1, Hp1.
  assert (Hn1 : A <= add (sub t0 (frameDeadline s)) A).
  { assert (Hx : 0 <= sub t0 (frameDeadline s)) by (apply fl_nonneg; lra).
    unfold add. rewrite <- Hrep at 1. apply fl_monotone. lra. }
  rewrite (ltb_false _ _ Hn1) in Ha1, Hp1. simpl in Ha1, Hp1.
  set (s1 := animationTick t0 s) in *.
  assert (Hcb1 : scheduledHostCallback s1 = Some cb)
    by (unfold s1; now rewrite animationTick_scheduledHostCallback).
  assert (Hl1 : fpsLocked s1 = false)
    by (unfold s1; now rewrite animationTick_fpsLocked).
  (* the second is early, but the first was not *)
  destruct (animationTick_pending t1 s1 cb Hcb1) as (Ha2 & Hp2 & Hd2).
  cbv zeta in Ha2, Hp2.
  rewrite (ltb_false (previousFrameTime s1) (activeFrameTime s1)) in Ha2, Hp2
    by (rewrite Hp1, Ha1; exact Hn1).
  rewrite andb_false_r in Ha2, Hp2. simpl in Ha2, Hp2.
  set (s2 := animationTick t1 s1) in *.
  assert (Hcb2 : scheduledHostCallback s2 = Some cb)
    by (unfold s2; now rewrite animationTick_scheduledHostCallback).
  assert (Hl2 : fpsLocked s2 = false)
    by (unfold s2; now rewrite animationTick_fpsLocked).
  assert (Ha2' : activeFrameTime s2 = A) by congruence.
  (* the time of a frame as the next frame measures it *)
  assert (Hgap : forall t t' : Q,
             0 <= t -> t <= 2199023255552 ->
             8 <= t' - t -> t' - t + (1 # 1000) <= A ->
             t' - t - (1 # 2000) <= add (sub t' (add t A)) A /\
             add (sub t' (add t A)) A <= t' - t + (1 # 2000)).
  { intros t t' Ht Ht' G G'.
    destruct (fl_within (t + A) 4398046511104) as [L1 U1]; [lra|lra|].
    fold (add t A) in L1, U1. set (fd := add t A) in *.
    destruct (fl_within (t' - fd) 2097152) as [L2 U2];
      [unfold epsilon in *; lra|unfold epsilon in *; lra|].
    fold (sub t' fd) in L2, U2. set (x := sub t' fd) in *.
    destruct (fl_within (x + A) 2097152) as [L3 U3];
      [unfold epsilon in *; lra|unfold epsilon in *; lra|].
    fold (add x A) in L3, U3. set (n := add x A) in *.
    unfold epsilon in *. split; lra. }
  assert (Hd1' : frameDeadline s1 = add t0 A) by (rewrite Hd1, Ha1; reflexivity).
  assert (Hd2' : frameDeadline s2 = add t1 A) by (rewrite Hd2, Ha2, Ha1; reflexivity).
  assert (Hp2' : previousFrameTime s2 = add (sub t1 (add t0 A)) A)
    by (rewrite Hp2, Hd1', Ha1; reflexivity).
  destruct (Hgap t0 t1 ltac:(lra) ltac:(lra) Hg1 Hg1') as [Lp Up].
  destruct (Hgap t1 t2 ltac:(lra) ltac:(lra) Hg2 Hg2') as [Ln Un].
  (* the third is the second early frame in a row *)
  destruct (animationTick_pending t2 s2 cb Hcb2) as (Ha3 & _ & _).
  cbv zeta in Ha3. rewrite Hd2', Ha2', Hp2', Hl2 in Ha3.
  set (prev := add (sub t1 (add t0 A)) A) in *.
  set (next := add (sub t2 (add t1 A)) A) in *.
  rewrite (ltb_true next A), (ltb_true prev A) in Ha3 by lra.
  simpl in Ha3. rewrite Ha3.
  destruct (Q.max_spec (t1 - t0) (t2 - t1)) as [[M1 M2]|[M1 M2]]; rewrite M2;
    destruct (ltb_spec next 8) as [H8|H8];
    match goal with
    | |- context [ltb ?a ?b] => destruct (ltb_spec a b) as [Hc|Hc]
    end; repeat split; lra.
Qed.

(** Beyond 2^55 ms on the clock the estimate can be rounded away, and
    the bound on the clock above is needed: at 2^60 ms a deadline that a
    frame sets is the frame's time itself, and a callback whose timeout
    lies ahead is not called by any turns taken at that time. *)
Lemma huge_clock_invariant (now : Q) (cb : callback) (s : state callback) (t : tick) :
  now = 1152921504606846976 ->
  tickTime t = now ->
  scheduledHostCallback s = Some cb /\ timeoutTime s = 2 * now /\
  frameDeadline s <= now /\ 8 <= activeFrameTime s /\ activeFrameTime s <= 33 ->
  match fire call t s with
  | None => True
  | Some o =>
      invoked o = None /\
      scheduledHostCallback (after o) = Some cb /\ timeoutTime (after o) = 2 * now /\
      frameDeadline (after o) <= now /\
      8 <= activeFrameTime (after o) /\ activeFrameTime (after o) <= 33
  end.
Proof.
  intros Enow Ht (Hcb & Htt & Hfd & H8 & H33).
  assert (Htick : forall s0 : state callback,
             scheduledHostCallback s0 = Some cb -> timeoutTime s0 = 2 * now ->
             8 <= activeFrameTime s0 -> activeFrameTime s0 <= 33 ->
             scheduledHostCallback (animationTick now s0) = Some cb /\
             timeoutTime (animationTick now s0) = 2 * now /\
             frameDeadline (animationTick now s0) <= now /\
             8 <= activeFrameTime (animationTick now s0) /\
             activeFrameTime (animationTick now s0) <= 33).
  { intros s0 Hcb0 Htt0 H80 H330.
    destruct (animationTick_active_range now s0 H80) as [Ha Hb].
    destruct (animationTick_pending now s0 cb Hcb0) as (_ & _ & Hd).
    split; [now rewrite animationTick_scheduledHostCallback|].
    split.
    { rewrite <- Htt0. unfold animationTick. rewrite Hcb0. cbv zeta.
      repeat match goal with
             | |- context [if ?c then _ else _] => destruct c
             end; reflexivity. }
    split; [|split; [exact Ha|lra]].
    rewrite Hd. unfold add.
    apply Qle_trans with (fl (now + 33)); [apply fl_monotone; lra|].
    rewrite Enow. vm_compute. discriminate. }
  destruct t as [id ts|id ts|ts]; simpl in Ht; subst ts; unfold fire.
  - destruct (isPending id _); [|exact I]. cbn [invoked after quiet].
    split; [reflexivity|]. unfold animationFrame. apply Htick;
      destruct s as [? ? ? ? ? ? ? ? ? ? ? [? ? ? ?]]; assumption.
  - destruct (isPending id _); [|exact I]. cbn [invoked after quiet].
    split; [reflexivity|]. unfold animationFrameTimeout. apply Htick;
      destruct s as [? ? ? ? ? ? ? ? ? ? ? [? ? ? ?]]; assumption.
  - destruct (messages (browser s)) as [|n]; [exact I|].
    match goal with
    | |- context [onmessage call now ?st] => set (s0 := st)
    end.
    assert (Hcb0 : scheduledHostCallback s0 = Some cb)
      by (unfold s0; destruct s as [? ? ? ? ? ? ? ? ? ? ? [? ? ? ?]]; exact Hcb).
    assert (Htt0 : timeoutTime s0 = 2 * now)
      by (unfold s0; destruct s as [? ? ? ? ? ? ? ? ? ? ? [? ? ? ?]]; exact Htt).
    assert (Hfd0 : frameDeadline s0 = frameDeadline s)
      by (unfold s0; destruct s as [? ? ? ? ? ? ? ? ? ? ? [? ? ? ?]]; reflexivity).
    assert (Ha0 : activeFrameTime s0 = activeFrameTime s)
      by (unfold s0; destruct s as [? ? ? ? ? ? ? ? ? ? ? [? ? ? ?]]; reflexivity).
    clearbody s0. rewrite onmessage_unfold, Hcb0, Htt0, Hfd0. cbv zeta.
    rewrite (leb_true (frameDeadline s - now) 0) by lra.
    rewrite (leb_false (2 * now) now) by (rewrite Enow; reflexivity).
    rewrite andb_false_r. cbn [invoked after quiet].
    split; [reflexivity|].
    destruct (negb (isAnimationFrameScheduled s0));
      (split; [reflexivity|]); (split; [reflexivity|]);
      change (frameDeadline _) with (frameDeadline s0);
      change (activeFrameTime _) with (activeFrameTime s0);
      rewrite Hfd0, Ha0; auto.
Qed.

Lemma huge_clock_stuck (cb : callback) (ts : list tick) :
  let now := 1152921504606846976 in
  Forall (fun t => tickTime t = now) ts ->
  forall s : state callback,
    scheduledHostCallback s = Some cb -> timeoutTime s = 2 * now ->
    frameDeadline s <= now -> 8 <= activeFrameTime s -> activeFrameTime s <= 33 ->
    fst (run call ts s) = [].
Proof.
  intros now Hts. induction Hts as [|t ts Ht Hts IH]; intros s Hcb Htt Hfd H8 H33;
    [reflexivity|].
  rewrite run_cons.
  pose proof (huge_clock_invariant now cb s t eq_refl Ht
                (conj Hcb (conj Htt (conj Hfd (conj H8 H33))))) as H.
  destruct (fire call t s) as [o|]; [|now apply IH].
  destruct H as (Hi & H1 & H2 & H3 & H4 & H5). rewrite Hi. now apply IH.
Qed.

End Frames.

(** X17: between two events the state is well formed, however the
    module is used from its load on (calls of the exported functions and
    turns of the host, with callback bodies that keep a well-formed state
    well formed, as all bodies do that only call the exported
    functions): while an animation frame is scheduled exactly one frame
    request and one timer are registered, the ones [rAFID] and
    [rAFTimeoutID] name, and none otherwise; while
    [isMessageEventScheduled] is set a message is on its way; a pending
    callback has a message on its way or a frame scheduled; and
    [activeFrameTime] is at least 8. *)
Theorem drive_wellFormed
    (callback error : Type)
    (call : callback -> bool -> state callback -> completion error * state callback)
    (body : callback -> bool -> list (request callback) * completion error)
    (es : list (event callback)) :
  (keepsWellFormed call -> wellFormed (drive call es initial)) /\
  keepsWellFormed (scripted body) /\
  wellFormed (drive (scripted body) es initial).
Proof.
  split; [|split].
  - intros Hcall. apply wellFormed_drive; [exact Hcall|apply wellFormed_initial].
  - apply scripted_keepsWellFormed.
  - apply wellFormed_drive; [apply scripted_keepsWellFormed|apply wellFormed_initial].
Qed.

Lemma returns_keepsWellFormed :
  keepsWellFormed (@returns nat unit (state nat)).
Proof. intros cb b s Hs. exact Hs. Defined.

Lemma drive_wellFormed_witness :
  let body (cb : nat) (didTimeout : bool) : list (request nat) * completion unit :=
    ([RequestHostCallback cb 10], Returned) in
  let es : list (event nat) :=
    [CallOf (RequestHostCallback 7%nat 100); HostTick (FrameTick 0%nat 0);
     HostTick (MessageTick 1)] in
  keepsWellFormed (@returns nat unit (state nat)) /\
  wellFormed (drive (@returns nat unit _) es initial) /\
  wellFormed (drive (scripted body) es initial).
Proof.
  intros body es.
  destruct (drive_wellFormed nat unit returns body es) as (H1 & _ & H3).
  split; [exact returns_keepsWellFormed|].
  split; [exact (H1 returns_keepsWellFormed)|exact H3].
Defined.

Lemma frame_and_timer_race_witness :
  let s : state nat := requestHostCallback 7%nat 100 initial in
  wellFormed s /\ rAFID s = Some 0%nat /\ rAFTimeoutID s = Some 1%nat /\
  exists o : outcome nat unit (state nat),
    fire (@returns nat unit _) (FrameTick 0%nat 5) s = Some o /\
    fire (@returns nat unit _) (TimeoutTick 1%nat 200) (after o) = None /\
    fire (@returns nat unit _) (FrameTick 0%nat 200) (after o) = None.
Proof.
  intros s.
  assert (Hs : wellFormed s)
    by (apply wellFormed_requestHostCallback, wellFormed_initial).
  destruct (frame_and_timer_race (@returns nat unit _) s 0%nat 1%nat Hs eq_refl eq_refl)
    as (Hrace & _).
  split; [exact Hs|]. split; [reflexivity|]. split; [reflexivity|].
  eexists. split; [unfold fire; simpl isPending; cbv iota; reflexivity|].
  apply (Hrace 5). unfold fire. simpl isPending. cbv iota. reflexivity.
Defined.

Lemma pending_callback_progress_witness :
  let s : state nat := requestHostCallback 7%nat 100 initial in
  Qabs 50 <= 36028797018963968 /\
  wellFormed s /\ scheduledHostCallback s = Some 7%nat /\
  exists (ts : list tick) (b : bool),
    (length ts <= 3)%nat /\
    Forall (fun t => tickTime t = 50) ts /\
    fst (run (@returns nat unit _) ts s) = [(7%nat, b)].
Proof.
  intros s.
  assert (Hnow : Qabs 50 <= 36028797018963968) by (vm_compute; discriminate).
  assert (Hs : wellFormed s)
    by (apply wellFormed_requestHostCallback, wellFormed_initial).
  split; [exact Hnow|]. split; [exact Hs|]. split; [reflexivity|].
  exact (pending_callback_progress (@returns nat unit _) 50 s 7%nat Hnow Hs eq_refl).
Defined.

(** Without the bound: at 2^60 ms no turns taken at that time call the
    callback that [requestHostCallback(7, 2^61)] left pending. *)
Lemma pending_callback_stuck_at_huge_clock :
  let now := 1152921504606846976 in
  let s : state nat := requestHostCallback 7%nat (2 * now) initial in
  wellFormed s /\ scheduledHostCallback s = Some 7%nat /\
  forall ts : list tick,
    Forall (fun t => tickTime t = now) ts ->
    fst (run (@returns nat unit _) ts s) = [].
Proof.
  intros now s.
  split; [apply wellFormed_requestHostCallback, wellFormed_initial|].
  split; [reflexivity|].
  intros ts Hts. apply (huge_clock_stuck (@returns nat unit _) 7%nat ts Hts).
  - reflexivity.
  - reflexivity.
  - vm_compute. discriminate.
  - vm_compute. discriminate.
  - vm_compute. discriminate.
Qed.

Lemma requestHostCallback_twice_witness :
  let s2 : state nat :=
    requestHostCallback 2%nat 200 (requestHostCallback 1%nat 100 initial) in
  let ts := [FrameTick 0%nat 0; MessageTick 5; FrameTick 2%nat 16] in
  scheduledHostCallback s2 = Some 2%nat /\
  timeoutTime s2 = 200 /\
  registersNothing (@returns nat unit (state nat)) /\
  keepsWellFormed (@returns nat unit (state nat)) /\
  wellFormed (@initial nat) /\
  hostIdle (snd (run (@returns nat unit _) ts s2)) /\
  (exists (ts' : list tick) (b : bool),
     (length ts' <= 3)%nat /\
     Forall (fun t => tickTime t = 5) ts' /\
     fst (run (@returns nat unit _) ts' s2) = [(2%nat, b)]) /\
  (exists b : bool, fst (run (@returns nat unit _) ts s2) = [(2%nat, b)]) /\
  fst (run (@returns nat unit _) ts s2) = [(2%nat, false)].
Proof.
  intros s2 ts.
  destruct (requestHostCallback_twice (@returns nat unit _) 1%nat 2%nat 100 200
              initial ts) as (H1 & H2 & H3 & _ & H5).
  assert (Hnow : Qabs 5 <= 36028797018963968) by (vm_compute; discriminate).
  assert (Hidle : hostIdle (snd (run (@returns nat unit _) ts s2)))
    by (vm_compute; repeat split).
  assert (Hkeeps : keepsWellFormed (@returns nat unit (state nat)))
    by (intros cb b s Hs; exact Hs).
  destruct (H5 returns_registersNothing) as (_ & H6).
  split; [exact H1|]. split; [exact H2|].
  split; [exact returns_registersNothing|].
  split; [exact Hkeeps|].
  split; [exact wellFormed_initial|].
  split; [exact Hidle|].
  split; [exact (H3 wellFormed_initial 5 Hnow)|].
  split; [exact (H6 wellFormed_initial Hkeeps Hidle)|].
  vm_compute. reflexivity.
Defined.

(** Frames at 0, 8.3 and 16.6, the times being the binary64 numbers of
    these names: the estimate becomes 8.300000000000004. *)
Lemma animationTick_learns_cadence_witness :
  let t1 := fl 8.3 in
  let t2 := fl 16.6 in
  let s : state nat := requestHostCallback 7%nat 1000 initial in
  let s3 := animationTicks [0; t1; t2] s in
  Qmax (t1 - 0) (t2 - t1) - (1 # 1000) <= activeFrameTime s3 /\
  activeFrameTime s3 <= Qmax (t1 - 0) (t2 - t1) + (1 # 1000) /\
  8 <= activeFrameTime s3 /\
  activeFrameTime s3 == 1168121153349223 # 140737488355328.
Proof.
  intros t1 t2 s s3.
  assert (H : Qmax (t1 - 0) (t2 - t1) - (1 # 1000) <= activeFrameTime s3 /\
              activeFrameTime s3 <= Qmax (t1 - 0) (t2 - t1) + (1 # 1000) /\
              8 <= activeFrameTime s3).
  { apply (animationTick_learns_cadence 0 t1 t2 s 7%nat);
      try reflexivity; vm_compute; discriminate. }
  destruct H as (H1 & H2 & H3).
  split; [exact H1|]. split; [exact H2|]. split; [exact H3|].
  vm_compute. reflexivity.
Defined.


Lemma animationTick_bounds_witness :
  let s : state nat := requestHostCallback 7%nat 100 initial in
  8 <= activeFrameTime (animationTick 5 s) /\
  activeFrameTime (animationTick 5 s) <= activeFrameTime s /\
  shouldYieldToHost (animationTick 5 s) 12 = false.
Proof.
  intros s.
  assert (H8 : 8 <= activeFrameTime s) by (intros H; vm_compute in H; discriminate H).
  destruct (animationTick_bounds 5 s H8) as (H1 & H2 & H3).
  split; [exact H1|]. split; [exact H2|].
  apply H3; [discriminate|vm_compute; reflexivity].
Defined.

Lemma requestHostCallback_negative_witness :
  exists o : outcome nat unit (state nat),
    fire returns (MessageTick 40) (requestHostCallback 7%nat (-2) initial) = Some o /\
    invoked o = Some (7%nat, true).
Proof.
  assert (H1 : -2 < 0) by reflexivity.
  assert (H2 : -2 <= 40) by (intros H; vm_compute in H; discriminate H).
  assert (H3 : ~ -2 == -1) by (intros H; vm_compute in H; discriminate H).
  destruct (requestHostCallback_negative (@returns nat unit _) 7%nat (-2) 40
              initial H1 H2) as (o & Ho & Hi & _).
  exists o. split; [exact Ho|]. exact (Hi H3).
Defined.

End DomLaws.
